(** * SimpleConvNet (HW#2/HW#2.py): a shallow embedding and its properties

    The script defines the class [SimpleConvNet] (a fixed
    Convolution - Relu - Pooling - Affine - Relu - Affine - Relu - Affine
    network closed by a SoftmaxWithLoss layer) and a training loop that
    drives it with the Adam optimizer.

    The embedding follows the Python text:
    - Python integers are [Z]; [//] is [Z.div] (both round towards minus
      infinity), [int(a / b)] truncates the quotient as rounded to a
      double;
    - an exception is a value [Raise e] of the result type [res]; a method
      of the network is a function from the world before the call to its
      outcome and the world after the call (an exception keeps the
      mutations done before it was raised);
    - numpy arrays that are shared between the parameter dictionary and
      the layers live in a heap and are referred to by location;
    - dictionaries are [gmap]s, the [OrderedDict] of layers is an
      association list in insertion order. *)

From Stdlib Require Import ZArith QArith Qround Reals Lra Lia List.
From stdpp Require Import base option list gmap strings pretty.

Local Open Scope Z_scope.
Set Warnings "-register-all,-clear-no-such-hyp".

(** ** Exceptions and results *)

Inductive exn : Type :=
  | ZeroDivisionError
  | ValueError
  | KeyError
  | IndexError
  | AttributeError
  | TypeError
  | AxisError
  | ShapeError
  | MemoryError
  | DanglingRef      (* a location outside the heap: unreachable in Python *)
  | Unmodelled.      (* an array rank the embedding does not cover *)

Inductive res (A : Type) : Type :=
  | Ok (a : A)
  | Raise (e : exn).
Arguments Ok {A} a.
Arguments Raise {A} e.

Definition res_bind {A B : Type} (r : res A) (k : A -> res B) : res B :=
  match r with
  | Ok a => k a
  | Raise e => Raise e
  end.

Definition res_map {A B : Type} (f : A -> B) (r : res A) : res B :=
  res_bind r (fun a => Ok (f a)).

Definition is_ok {A : Type} (r : res A) : bool :=
  match r with Ok _ => true | Raise _ => false end.

#[global] Instance res_mbind : MBind res := fun A B k r => res_bind r k.
#[global] Instance res_mret : MRet res := @Ok.
#[global] Instance res_fmap : FMap res := @res_map.

Fixpoint res_mapM {A B : Type} (f : A -> res B) (l : list A) : res (list B) :=
  match l with
  | [] => Ok []
  | a :: l' =>
      b ← f a; bs ← res_mapM f l'; Ok (b :: bs)
  end.

(** ** Python arithmetic and sequences *)

(** [a // b] on integers. *)
Definition py_floordiv (a b : Z) : res Z :=
  if b =? 0 then Raise ZeroDivisionError else Ok (a / b).

(** The true quotient [a / b] of two integers is the double nearest to
    the exact quotient: a mantissa of 53 bits and an exponent. *)

(** floor (log2 (a / b)) for positive [a] and [b] *)
Definition log2_quot (a b : Z) : Z :=
  if b <=? a then Z.log2 (a / b) else - Z.log2_up ((b + a - 1) / a).

(** [a / (b * 2^e)] as a numerator and a denominator *)
Definition scaled_quot (a b e : Z) : Z * Z :=
  if 0 <=? e then (a, b * 2 ^ e) else (a * 2 ^ (- e), b).

(** The integer nearest to [n / d], the even one of two that are equally
    near. *)
Definition round_half_even (n d : Z) : Z :=
  let f := n / d in
  let r := n mod d in
  if 2 * r <? d then f
  else if d <? 2 * r then f + 1
  else if Z.even f then f else f + 1.

(** The double nearest to [a / b] for positive [a] and [b]: the pair
    [(m, e)] stands for [m * 2^e], with [2^52 <= m <= 2^53]. (The exponent
    is not limited: the quotients below are those of an array length, far
    inside the range of the doubles.) *)
Definition double_quot (a b : Z) : Z * Z :=
  let e := log2_quot a b - 52 in
  let '(n, d) := scaled_quot a b e in
  (round_half_even n d, e).

(** [int(m * 2^e)] for [0 <= m] *)
Definition int_of_double (m e : Z) : Z :=
  if 0 <=? e then m * 2 ^ e else m / 2 ^ (- e).

(** [int(a / b)] on integers: the true quotient, a double, truncated
    towards zero. *)
Definition py_int_truediv (a b : Z) : res Z :=
  if b =? 0 then Raise ZeroDivisionError
  else if a =? 0 then Ok 0
  else let '(m, e) := double_quot (Z.abs a) (Z.abs b) in
       Ok (Z.sgn a * Z.sgn b * int_of_double m e).

(** [acc / n] for a float [acc] holding a whole number and an integer [n]:
    the quotient, kept as an exact fraction. *)
Definition py_float_div (acc n : Z) : res Q :=
  if n =? 0 then Raise ZeroDivisionError
  else Ok (Qmake acc (Z.to_pos n)).

(** [range(k)]. *)
Definition py_range (k : Z) : list Z :=
  map Z.of_nat (seq 0 (Z.to_nat k)).

(** A slice bound, as Python normalises it against a length. *)
Definition clamp_index (len i : Z) : Z :=
  if i <? 0 then Z.max (i + len) 0 else Z.min i len.

(** [l[lo:hi]]. *)
Definition py_slice {A : Type} (l : list A) (lo hi : Z) : list A :=
  let n := Z.of_nat (length l) in
  let lo' := clamp_index n lo in
  let hi' := clamp_index n hi in
  firstn (Z.to_nat (hi' - lo')) (skipn (Z.to_nat lo') l).

(** [str(i)] for an integer. *)
Definition py_str (i : Z) : string := pretty i.

(** ** Shape derivation of [SimpleConvNet.__init__] (lines 28-41) *)

Record conv_param : Type := ConvParam {
  filter_num : Z;
  filter_size : Z;
  pad : Z;
  stride : Z
}.

(** [input_dim = (channels, height, width)]. *)
Record input_dim : Type := InputDim {
  in_channels : Z;
  in_height : Z;
  in_width : Z
}.

Record derived_dims : Type := DerivedDims {
  conv_output_height : Z;
  conv_output_width : Z;
  pool_output_height : Z;
  pool_output_width : Z;
  pool_output_size : Z
}.

Definition pool_height : Z := 2.
Definition pool_width : Z := 2.
Definition pool_stride : Z := 2.

Definition derive_dims (dim : input_dim) (cp : conv_param) : res derived_dims :=
  ch ← py_floordiv (in_height dim - filter_size cp + 2 * pad cp) (stride cp);
  let conv_h := ch + 1 in
  cw ← py_floordiv (in_width dim - filter_size cp + 2 * pad cp) (stride cp);
  let conv_w := cw + 1 in
  ph ← py_floordiv (conv_h - pool_height) pool_stride;
  let pool_h := ph + 1 in
  pw ← py_floordiv (conv_w - pool_width) pool_stride;
  let pool_w := pw + 1 in
  Ok {| conv_output_height := conv_h;
        conv_output_width := conv_w;
        pool_output_height := pool_h;
        pool_output_width := pool_w;
        pool_output_size := filter_num cp * pool_h * pool_w |}.

(** The default arguments of [__init__]. *)
Definition default_input_dim : input_dim := InputDim 1 28 28.
Definition default_conv_param : conv_param := ConvParam 30 5 0 1.
Definition default_hidden_size : Z := 100.
Definition default_output_size : Z := 10.

(** ** Arrays

    The elements of an array (float64 scores and weights, integer labels)
    are kept abstract: the network itself never computes on them, it only
    compares them ([np.argmax], [==]). So are the dimensions up to
    which the machine creates an array. *)

Class Elt : Type := {
  elt : Type;
  (** the element holding a Python integer (a label, an index, [1], [0.]) *)
  elt_of_Z : Z -> elt;
  (** [a == b] on elements *)
  elt_eqb : elt -> elt -> bool;
  (** [a > b], the test by which [np.argmax] replaces its running maximum *)
  elt_gtb : elt -> elt -> bool;
  (** what creating an array of the given dimensions, none of them
      negative, raises, if anything: NumPy's ValueError for dimensions
      beyond the largest an array can have, MemoryError for an array beyond
      the memory of the machine, which is taken as fixed *)
  alloc_error : list Z -> option exn
}.

(** An n-dimensional array, seen along its first axis: a scalar, or the
    sequence of its sub-arrays. (An array without items carries no trailing
    dimensions here: it has the single dimension 0.) *)
Inductive ndarray `{Elt} : Type :=
  | Num (v : elt)
  | Arr (items : list ndarray).

Section Numpy.
Context `{Elt}.

(** [a.ndim] *)
Fixpoint ndim (a : ndarray) : Z :=
  match a with
  | Num _ => 0
  | Arr [] => 1
  | Arr (a0 :: _) => 1 + ndim a0
  end.

(** [a.shape[0]] *)
Definition shape0 (a : ndarray) : res Z :=
  match a with
  | Num _ => Raise IndexError
  | Arr items => Ok (Z.of_nat (length items))
  end.

(** [a[lo:hi]] *)
Definition slice0 (a : ndarray) (lo hi : Z) : res ndarray :=
  match a with
  | Num _ => Raise IndexError
  | Arr items => Ok (Arr (py_slice items lo hi))
  end.

(** The elements of a one-dimensional array. *)
Definition elements_of (items : list ndarray) : res (list elt) :=
  res_mapM (fun a => match a with Num v => Ok v | Arr _ => Raise Unmodelled end)
           items.

(** The array holding a list of Python integers. *)
Definition int_array (l : list Z) : ndarray :=
  Arr (map (fun i => Num (elt_of_Z i)) l).

(** The index of the first maximum past a running maximum [best]. *)
Fixpoint argmax_from (best : elt) (besti i : Z) (l : list elt) : Z :=
  match l with
  | [] => besti
  | v :: l' =>
      if elt_gtb v best then argmax_from v i (i + 1) l'
      else argmax_from best besti (i + 1) l'
  end.

Definition argmax_row (row : ndarray) : res Z :=
  match row with
  | Num _ => Raise AxisError
  | Arr cols =>
      vs ← elements_of cols;
      match vs with
      | [] => Raise ValueError
      | v :: vs' => Ok (argmax_from v 0 1 vs')
      end
  end.

(** [np.argmax(a, axis=1)] for an array of rows. *)
Definition np_argmax1 (a : ndarray) : res ndarray :=
  match a with
  | Num _ => Raise AxisError
  | Arr rows => idx ← res_mapM argmax_row rows; Ok (int_array idx)
  end.

Definition count_true (l : list bool) : Z :=
  Z.of_nat (length (filter (fun c : bool => c = true) l)).

(** [np.sum(y == tt)] for two one-dimensional arrays: elementwise when
    the lengths agree, broadcast when one of them has a single element. *)
Definition np_sum_eq (y tt : ndarray) : res Z :=
  match y, tt with
  | Arr ys, Arr ts =>
      ys ← elements_of ys;
      ts ← elements_of ts;
      if (length ys =? length ts)%nat
      then Ok (count_true (zip_with elt_eqb ys ts))
      else match ys, ts with
           | [y0], _ => Ok (count_true (map (elt_eqb y0) ts))
           | _, [t0] => Ok (count_true (map (fun v => elt_eqb v t0) ys))
           | _, _ => Raise ValueError
           end
  | _, _ => Raise Unmodelled
  end.

(** [np.zeros(n)] *)
Definition np_zeros (n : Z) : res ndarray :=
  if n <? 0 then Raise ValueError
  else match alloc_error [n] with
       | Some e => Raise e
       | None => Ok (Arr (replicate (Z.to_nat n) (Num (elt_of_Z 0))))
       end.
End Numpy.

(** The random source and the scaling of the initial weights. *)
Class Random `{Elt} : Type := {
  rng : Type;
  (** [np.random.randn(d0, d1, ...)] for dimensions without a negative one
      and of a size that the machine creates *)
  randn : rng -> list Z -> ndarray * rng;
  (** [a * np.sqrt(2. / n)] for [n <> 0] *)
  he_scale : Z -> ndarray -> ndarray
}.

(** [np.random.randn(d0, d1, ...) * np.sqrt(2. / fan_in)] *)
Definition he_normal `{Random} (g : rng) (shape : list Z) (fan_in : Z)
    : res (ndarray * rng) :=
  if existsb (fun d => d <? 0) shape then Raise ValueError
  else match alloc_error shape with
       | Some e => Raise e
       | None =>
           let '(a, g') := randn g shape in
           if fan_in =? 0 then Raise ZeroDivisionError
           else Ok (he_scale fan_in a, g')
       end.

(** ** Layers

    Modelled from the spec: the layer classes Convolution, Relu, Pooling,
    Affine and SoftmaxWithLoss come from [common.layers], which is not part
    of the sources. Sections 3, 4.1-4.5 and 5 of the specification give
    their interface: [forward] reads the layer's parameters and its input,
    returns the output and overwrites the layer's cache; [backward] reads
    the cache (and the weights), returns the input gradient and, for
    Convolution and Affine, stores [dW] and [db] on the layer. The
    arithmetic of each layer is a parameter. *)

Class LayerMath `{Elt} : Type := {
  cache : Type;
  conv_forward : ndarray -> ndarray -> Z -> Z -> ndarray -> res (ndarray * cache);
  conv_backward : ndarray -> Z -> Z -> cache -> ndarray
                  -> res (ndarray * ndarray * ndarray);
  relu_forward : ndarray -> res (ndarray * cache);
  relu_backward : cache -> ndarray -> res ndarray;
  pool_forward : Z -> Z -> Z -> ndarray -> res (ndarray * cache);
  pool_backward : Z -> Z -> Z -> cache -> ndarray -> res ndarray;
  affine_forward : ndarray -> ndarray -> ndarray -> res (ndarray * cache);
  affine_backward : ndarray -> cache -> ndarray
                    -> res (ndarray * ndarray * ndarray);
  softmax_loss_forward : ndarray -> ndarray -> res (elt * cache);
  softmax_loss_backward : cache -> ndarray -> res ndarray
}.

Definition loc : Type := positive.

Inductive layer_kind : Type :=
  | Convolution (conv_stride conv_pad : Z)
  | Relu
  | Pooling (pool_h pool_w pool_s : Z)
  | Affine.

Inductive layer_tag : Type := TConvolution | TRelu | TPooling | TAffine.

Definition tag_of (k : layer_kind) : layer_tag :=
  match k with
  | Convolution _ _ => TConvolution
  | Relu => TRelu
  | Pooling _ _ _ => TPooling
  | Affine => TAffine
  end.

Section Network.
Context `{E : Elt} {LM : LayerMath} {RN : Random}.

(** A layer object: its class, the references [W] and [b] to its
    parameter arrays, what the last [forward] cached, and the gradients
    [dW], [db] that the last [backward] stored ([None] before). *)
Record layer : Type := Layer {
  kind : layer_kind;
  W : option loc;
  b : option loc;
  cached : option cache;
  dW : option ndarray;
  db : option ndarray
}.

Definition set_cached (c : cache) (l : layer) : layer :=
  {| kind := kind l; W := W l; b := b l; cached := Some c;
     dW := dW l; db := db l |}.

Definition set_grads (gW gb : ndarray) (l : layer) : layer :=
  {| kind := kind l; W := W l; b := b l; cached := cached l;
     dW := Some gW; db := Some gb |}.

Definition set_W (r : loc) (l : layer) : layer :=
  {| kind := kind l; W := Some r; b := b l; cached := cached l;
     dW := dW l; db := db l |}.

Definition set_b (r : loc) (l : layer) : layer :=
  {| kind := kind l; W := W l; b := Some r; cached := cached l;
     dW := dW l; db := db l |}.

(** The array an attribute refers to. *)
Definition deref (h : gmap loc ndarray) (r : option loc) : res ndarray :=
  match r with
  | None => Raise AttributeError
  | Some l => match h !! l with
              | Some a => Ok a
              | None => Raise DanglingRef
              end
  end.

(** What [backward] finds in the cache; nothing before the first
    [forward]. *)
Definition get_cached (l : layer) : res cache :=
  match cached l with
  | Some c => Ok c
  | None => Raise TypeError
  end.

(** [layer.forward(x)] *)
Definition layer_forward (h : gmap loc ndarray) (l : layer) (x : ndarray)
    : res (ndarray * layer) :=
  match kind l with
  | Convolution s p =>
      Wv ← deref h (W l);
      bv ← deref h (b l);
      '(out, c) ← conv_forward Wv bv s p x;
      Ok (out, set_cached c l)
  | Relu =>
      '(out, c) ← relu_forward x;
      Ok (out, set_cached c l)
  | Pooling ph pw ps =>
      '(out, c) ← pool_forward ph pw ps x;
      Ok (out, set_cached c l)
  | Affine =>
      Wv ← deref h (W l);
      bv ← deref h (b l);
      '(out, c) ← affine_forward Wv bv x;
      Ok (out, set_cached c l)
  end.

(** [layer.backward(dout)] *)
Definition layer_backward (h : gmap loc ndarray) (l : layer) (dout : ndarray)
    : res (ndarray * layer) :=
  match kind l with
  | Convolution s p =>
      Wv ← deref h (W l);
      c ← get_cached l;
      '(dx, gW, gb) ← conv_backward Wv s p c dout;
      Ok (dx, set_grads gW gb l)
  | Relu =>
      c ← get_cached l;
      dx ← relu_backward c dout;
      Ok (dx, l)
  | Pooling ph pw ps =>
      c ← get_cached l;
      dx ← pool_backward ph pw ps c dout;
      Ok (dx, l)
  | Affine =>
      Wv ← deref h (W l);
      c ← get_cached l;
      '(dx, gW, gb) ← affine_backward Wv c dout;
      Ok (dx, set_grads gW gb l)
  end.

(** The SoftmaxWithLoss object: what its last [forward] cached. *)
Record SoftmaxWithLoss : Type := { loss_cached : option cache }.

(** The calls made on layers, in the order in which they were made. *)
Inductive event : Type :=
  | EForward (name : string)
  | EBackward (name : string)
  | ELossForward
  | ELossBackward (dout : ndarray).

(** The network object ([params], [layers], [last_layer]), the heap of
    the arrays it refers to, and the record of the calls made on its
    layers (a ghost field the program does not have). *)
Record world : Type := World {
  heap : gmap loc ndarray;
  params : gmap string loc;
  layers : list (string * layer);
  last_layer : SoftmaxWithLoss;
  calls : list event
}.

Definition set_heap (h : gmap loc ndarray) (w : world) : world :=
  World h (params w) (layers w) (last_layer w) (calls w).
Definition set_params (p : gmap string loc) (w : world) : world :=
  World (heap w) p (layers w) (last_layer w) (calls w).
Definition set_layers (ls : list (string * layer)) (w : world) : world :=
  World (heap w) (params w) ls (last_layer w) (calls w).
Definition set_last_layer (ll : SoftmaxWithLoss) (w : world) : world :=
  World (heap w) (params w) (layers w) ll (calls w).
Definition add_calls (ev : list event) (w : world) : world :=
  World (heap w) (params w) (layers w) (last_layer w) (calls w ++ ev).

(** A method: the outcome of the call and the world it leaves. *)
Definition M (A : Type) : Type := world -> res A * world.

Definition M_ret {A : Type} (a : A) : M A := fun w => (Ok a, w).

Definition M_bind {A B : Type} (m : M A) (k : A -> M B) : M B :=
  fun w => match m w with
           | (Ok a, w') => k a w'
           | (Raise e, w') => (Raise e, w')
           end.

Definition M_lift {A : Type} (r : res A) : M A := fun w => (r, w).

#[global] Instance M_mbind : MBind M := fun A B k m => M_bind m k.
#[global] Instance M_mret : MRet M := @M_ret.

(** [for layer in ls: x = layer.forward(x)]: the value reached, the
    layers as the loop leaves them, and the calls it made. *)
Fixpoint forward_layers (h : gmap loc ndarray) (ls : list (string * layer))
    (x : ndarray) : res ndarray * list (string * layer) * list event :=
  match ls with
  | [] => (Ok x, [], [])
  | (name, l) :: rest =>
      match layer_forward h l x with
      | Ok (y, l') =>
          let '(r, rest', ev) := forward_layers h rest y in
          (r, (name, l') :: rest', EForward name :: ev)
      | Raise e => (Raise e, (name, l) :: rest, [EForward name])
      end
  end.

(** [for layer in ls: dout = layer.backward(dout)] *)
Fixpoint backward_layers (h : gmap loc ndarray) (ls : list (string * layer))
    (dout : ndarray) : res ndarray * list (string * layer) * list event :=
  match ls with
  | [] => (Ok dout, [], [])
  | (name, l) :: rest =>
      match layer_backward h l dout with
      | Ok (dx, l') =>
          let '(r, rest', ev) := backward_layers h rest dx in
          (r, (name, l') :: rest', EBackward name :: ev)
      | Raise e => (Raise e, (name, l) :: rest, [EBackward name])
      end
  end.

(** [self.last_layer.forward(y, t)] *)
Definition last_layer_forward (y t : ndarray) : M elt :=
  fun w =>
    match softmax_loss_forward y t with
    | Ok (v, c) =>
        (Ok v, add_calls [ELossForward]
                 (set_last_layer {| loss_cached := Some c |} w))
    | Raise e => (Raise e, add_calls [ELossForward] w)
    end.

(** [self.last_layer.backward(dout)] *)
Definition last_layer_backward (dout : ndarray) : M ndarray :=
  fun w =>
    (match loss_cached (last_layer w) with
     | Some c => softmax_loss_backward c dout
     | None => Raise TypeError
     end,
     add_calls [ELossBackward dout] w).

(** ** The methods of [SimpleConvNet] *)

(** [predict] (lines 74-78) *)
Definition predict (x : ndarray) : M ndarray :=
  fun w =>
    let '(r, ls, ev) := forward_layers (heap w) (layers w) x in
    (r, add_calls ev (set_layers ls w)).

(** [loss] (lines 80-89) *)
Definition loss (x t : ndarray) : M elt :=
  y ← predict x;
  last_layer_forward y t.

(** The body of the loop of [accuracy] (lines 96-101), for the indices
    [idx] that remain. *)
Fixpoint accuracy_loop (x t : ndarray) (batch_size : Z) (idx : list Z)
    (acc : Z) : M Z :=
  match idx with
  | [] => mret acc
  | i :: idx' =>
      tx ← M_lift (slice0 x (i * batch_size) ((i + 1) * batch_size));
      tt ← M_lift (slice0 t (i * batch_size) ((i + 1) * batch_size));
      y ← predict tx;
      y ← M_lift (np_argmax1 y);
      c ← M_lift (np_sum_eq y tt);
      accuracy_loop x t batch_size idx' (acc + c)
  end.

(** [accuracy] (lines 91-103) *)
Definition accuracy (x t : ndarray) (batch_size : Z) : M Q :=
  t ← M_lift (if ndim t =? 1 then Ok t else np_argmax1 t);
  n ← M_lift (shape0 x);
  k ← M_lift (py_int_truediv n batch_size);
  acc ← accuracy_loop x t batch_size (py_range k) 0;
  n ← M_lift (shape0 x);
  M_lift (py_float_div acc n).

Definition default_batch_size : Z := 100.

(** [d[key]] on an insertion-ordered dictionary. *)
Fixpoint assoc_get {A : Type} (key : string) (d : list (string * A)) : option A :=
  match d with
  | [] => None
  | (k, v) :: d' => if String.eqb k key then Some v else assoc_get key d'
  end.

(** The update of the object stored under [key]. *)
Fixpoint assoc_update {A : Type} (key : string) (f : A -> A)
    (d : list (string * A)) : list (string * A) :=
  match d with
  | [] => []
  | (k, v) :: d' =>
      if String.eqb k key then (k, f v) :: d'
      else (k, v) :: assoc_update key f d'
  end.

(** [self.layers[key]] *)
Definition get_layer (key : string) : M layer :=
  fun w =>
    match assoc_get key (layers w) with
    | Some l => (Ok l, w)
    | None => (Raise KeyError, w)
    end.

(** [layer.dW, layer.db], attributes of Convolution and Affine only. *)
Definition get_grads (l : layer) : res (option ndarray * option ndarray) :=
  match kind l with
  | Convolution _ _ | Affine => Ok (dW l, db l)
  | Relu | Pooling _ _ _ => Raise AttributeError
  end.

(** [gradient] (lines 105-138). A value of the returned dictionary is
    [None] where Python would store [None]. *)
Definition gradient (x t : ndarray) : M (gmap string (option ndarray)) :=
  _ ← loss x t;
  let dout := Num (elt_of_Z 1) in
  dout ← last_layer_backward dout;
  _ ← (fun w =>
         let '(r, ls, ev) := backward_layers (heap w) (rev (layers w)) dout in
         (r, add_calls ev (set_layers (rev ls) w)));
  let grads : gmap string (option ndarray) := ∅ in
  conv1 ← get_layer "Conv1";
  '(gW, gb) ← M_lift (get_grads conv1);
  let grads := <["b1" := gb]> (<["W1" := gW]> grads) in
  affine1 ← get_layer "Affine1";
  '(gW, gb) ← M_lift (get_grads affine1);
  let grads := <["b2" := gb]> (<["W2" := gW]> grads) in
  affine2 ← get_layer "Affine2";
  '(gW, gb) ← M_lift (get_grads affine2);
  let grads := <["b3" := gb]> (<["W3" := gW]> grads) in
  affine3 ← get_layer "Affine3";
  '(gW, gb) ← M_lift (get_grads affine3);
  let grads := <["b4" := gb]> (<["W4" := gW]> grads) in
  mret grads.

(** [self.params[key]] *)
Definition get_param (key : string) : M loc :=
  fun w =>
    match params w !! key with
    | Some r => (Ok r, w)
    | None => (Raise KeyError, w)
    end.

(** A new array object on the heap. *)
Definition alloc (a : ndarray) (h : gmap loc ndarray) : loc * gmap loc ndarray :=
  let r := fresh (dom h) in (r, <[r := a]> h).

(** [for key, val in loaded.items(): self.params[key] = val], each [val]
    being an array object of its own that unpickling created: a file in
    which no array is held under two keys ([store_pickled] below is the
    loop for any file). *)
Fixpoint store_loaded (loaded : list (string * ndarray)) (w : world) : world :=
  match loaded with
  | [] => w
  | (key, val) :: loaded' =>
      let '(r, h) := alloc val (heap w) in
      store_loaded loaded' (set_params (<[key := r]> (params w)) (set_heap h w))
  end.

(** The second loop of [load_params] (lines 153-155). *)
Fixpoint rebind_layers (keys : list (Z * string)) : M unit :=
  match keys with
  | [] => mret tt
  | (i, key) :: keys' =>
      rW ← get_param ("W" +:+ py_str (i + 1));
      _ ← get_layer key;
      _ ← (fun w => (Ok tt, set_layers (assoc_update key (set_W rW) (layers w)) w));
      rb ← get_param ("b" +:+ py_str (i + 1));
      _ ← get_layer key;
      _ ← (fun w => (Ok tt, set_layers (assoc_update key (set_b rb) (layers w)) w));
      rebind_layers keys'
  end.

(** [enumerate(l)] *)
Definition py_enumerate {A : Type} (l : list A) : list (Z * A) :=
  imap (fun i a => (Z.of_nat i, a)) l.

(** [load_params] (lines 147-155); [loaded] is the dictionary read from
    the file, in the order of its items, each key with an array object of
    its own ([load_pickled] below takes any file). *)
Definition load_params (loaded : list (string * ndarray)) : M unit :=
  _ ← (fun w => (Ok tt, store_loaded loaded w));
  rebind_layers (py_enumerate ["Conv1"; "Affine1"; "Affine2"; "Affine3"]%string).

(** [__init__] (lines 25-72): the world of a new network. *)
Definition SimpleConvNet_init (dim : input_dim) (cp : conv_param)
    (hidden_size output_size : Z) (g : rng) : res (world * rng) :=
  d ← derive_dims dim cp;
  '(aW1, g) ← he_normal g
     [filter_num cp; in_channels dim; filter_size cp; filter_size cp]
     (in_channels dim * filter_size cp * filter_size cp);
  ab1 ← np_zeros (filter_num cp);
  '(aW2, g) ← he_normal g [pool_output_size d; hidden_size] (pool_output_size d);
  ab2 ← np_zeros hidden_size;
  '(aW3, g) ← he_normal g [hidden_size; hidden_size] hidden_size;
  ab3 ← np_zeros hidden_size;
  '(aW4, g) ← he_normal g [hidden_size; output_size] hidden_size;
  ab4 ← np_zeros output_size;
  let h : gmap loc ndarray := ∅ in
  let '(W1, h) := alloc aW1 h in
  let '(b1, h) := alloc ab1 h in
  let '(W2, h) := alloc aW2 h in
  let '(b2, h) := alloc ab2 h in
  let '(W3, h) := alloc aW3 h in
  let '(b3, h) := alloc ab3 h in
  let '(W4, h) := alloc aW4 h in
  let '(b4, h) := alloc ab4 h in
  let ps : gmap string loc :=
    <["b4" := b4]> (<["W4" := W4]> (<["b3" := b3]> (<["W3" := W3]>
    (<["b2" := b2]> (<["W2" := W2]> (<["b1" := b1]> (<["W1" := W1]> ∅))))))) in
  let ls : list (string * layer) :=
    [ ("Conv1", Layer (Convolution (stride cp) (pad cp)) (Some W1) (Some b1)
                      None None None);
      ("Relu1", Layer Relu None None None None None);
      ("Pool1", Layer (Pooling pool_height pool_width pool_stride) None None
                      None None None);
      ("Affine1", Layer Affine (Some W2) (Some b2) None None None);
      ("Relu2", Layer Relu None None None None None);
      ("Affine2", Layer Affine (Some W3) (Some b3) None None None);
      ("Relu3", Layer Relu None None None None None);
      ("Affine3", Layer Affine (Some W4) (Some b4) None None None) ]%string in
  Ok (World h ps ls {| loss_cached := None |} [], g).
End Network.

(** ** What the statements below speak about *)

Section Statements.
Context `{E : Elt} {LM : LayerMath}.

(** The layers in insertion order, and the class of each. *)
Definition layer_names : list string :=
  ["Conv1"; "Relu1"; "Pool1"; "Affine1"; "Relu2"; "Affine2"; "Relu3";
   "Affine3"]%string.

Definition layer_tags : list layer_tag :=
  [TConvolution; TRelu; TPooling; TAffine; TRelu; TAffine; TRelu; TAffine].

(** The topology that [__init__] builds. *)
Definition topology (w : world) : Prop :=
  map fst (layers w) = layer_names
  /\ map (fun kl => tag_of (kind (snd kl))) (layers w) = layer_tags.

(** What a layer is made of apart from its cache and its gradients. *)
Definition static (l : layer) : layer_kind * option loc * option loc :=
  (kind l, W l, b l).

Definition statics (ls : list (string * layer))
    : list (string * (layer_kind * option loc * option loc)) :=
  map (fun kl => (fst kl, static (snd kl))) ls.

(** The forward function of the layer stored under [name], in the state
    [w] of the parameters. *)
Definition forward_of (w : world) (name : string) (x : ndarray) : res ndarray :=
  match assoc_get name (layers w) with
  | Some l => fst <$> layer_forward (heap w) l x
  | None => Raise KeyError
  end.

(** Convolution -> Relu -> Pooling -> Affine -> Relu -> Affine -> Relu ->
    Affine, composed. *)
Definition predict_composed (w : world) (x : ndarray) : res ndarray :=
  a ← forward_of w "Conv1" x;
  a ← forward_of w "Relu1" a;
  a ← forward_of w "Pool1" a;
  a ← forward_of w "Affine1" a;
  a ← forward_of w "Relu2" a;
  a ← forward_of w "Affine2" a;
  a ← forward_of w "Relu3" a;
  forward_of w "Affine3" a.

(** The loss layer applied to the scores. *)
Definition loss_composed (w : world) (x t : ndarray) : res elt :=
  y ← predict_composed w x;
  fst <$> softmax_loss_forward y t.

(** The eight arrays of a network of these sizes can be created. *)
Definition arrays_fit (dim : input_dim) (cp : conv_param) (hs os : Z)
    (d : derived_dims) : Prop :=
  Forall (fun shape => alloc_error shape = None)
    [ [filter_num cp; in_channels dim; filter_size cp; filter_size cp];
      [filter_num cp];
      [pool_output_size d; hs]; [hs];
      [hs; hs]; [hs];
      [hs; os]; [os] ].

(** The calls of one forward pass, and of one call of [gradient]. *)
Definition forward_calls : list event := map EForward layer_names.

Definition gradient_calls : list event :=
  forward_calls
  ++ [ELossForward; ELossBackward (Num (elt_of_Z 1))]
  ++ map EBackward (rev layer_names).

(** The names of the gradients, as those of the parameters. *)
Definition param_keys : gset string :=
  {["W1"; "b1"; "W2"; "b2"; "W3"; "b3"; "W4"; "b4"]}%string.

(** The Convolution and Affine layers with the keys of their gradients. *)
Definition grad_sources : list (string * (string * string)) :=
  [ ("Conv1", ("W1", "b1")); ("Affine1", ("W2", "b2"));
    ("Affine2", ("W3", "b3")); ("Affine3", ("W4", "b4")) ]%string.

(** In the world [w], the layer [name] holds gradients [dW], [db], and
    the mapping [grads] binds the two keys to exactly these. *)
Definition bound_to_layer (w : world) (grads : gmap string (option ndarray))
    (src : string * (string * string)) : Prop :=
  exists (l : layer) (gW gb : ndarray),
    assoc_get (fst src) (layers w) = Some l
    /\ dW l = Some gW /\ db l = Some gb
    /\ grads !! fst (snd src) = Some (Some gW)
    /\ grads !! snd (snd src) = Some (Some gb).

(** A layer that can store gradients holds them. *)
Definition has_grads (l : layer) : Prop :=
  match kind l with
  | Convolution _ _ | Affine => is_Some (dW l) /\ is_Some (db l)
  | Relu | Pooling _ _ _ => True
  end.

(** What the methods must leave alone: the arrays, the parameter
    dictionary, and the class and the references of every layer. *)
Definition parameters_of (w : world)
    : gmap loc ndarray * gmap string loc
      * list (string * (layer_kind * option loc * option loc)) :=
  (heap w, params w, statics (layers w)).

(** The world with every cache, every stored gradient and the record of
    calls erased. *)
Definition without_caches (w : world) : world :=
  World (heap w) (params w)
        (map (fun kl => (fst kl, Layer (kind (snd kl)) (W (snd kl)) (b (snd kl))
                                       None None None))
             (layers w))
        {| loss_cached := None |} [].

(** A method that leaves the parameters alone. *)
Definition keeps_parameters {A : Type} (m : M A) : Prop :=
  forall w, parameters_of (snd (m w)) = parameters_of w.

(** A method that, on the fixed topology, makes the calls [tr] in this
    order: all of them when it returns, the first few when it raises. *)
Definition emits {A : Type} (m : M A) (tr : list event) : Prop :=
  forall w, topology w ->
    topology (snd (m w))
    /\ exists n : nat,
         (n <= length tr)%nat
         /\ calls (snd (m w)) = calls w ++ take n tr
         /\ (is_ok (fst (m w)) = true -> n = length tr).

(** After [load_params] has replaced the world [w0] by [w'], reading the
    dictionary [loaded]: the layer [name] and the parameter dictionary
    refer to the same two arrays, which are the loaded ones, objects that
    did not exist in [w0]. *)
Definition rebound_to (w0 w' : world) (loaded : list (string * ndarray))
    (src : string * (string * string)) : Prop :=
  exists (l : layer) (rW rb : loc) (aW ab : ndarray),
    assoc_get (fst src) (layers w') = Some l
    /\ (fst (snd src), aW) ∈ loaded /\ (snd (snd src), ab) ∈ loaded
    /\ params w' !! fst (snd src) = Some rW
    /\ params w' !! snd (snd src) = Some rb
    /\ W l = Some rW /\ b l = Some rb
    /\ deref (heap w') (W l) = Ok aW /\ deref (heap w') (b l) = Ok ab
    /\ (rW ∉ dom (heap w0)) /\ (rb ∉ dom (heap w0)).

(** The [i]-th block of [size] consecutive items. *)
Definition chunk {A : Type} (size i : nat) (l : list A) : list A :=
  take size (drop (i * size) l).

Definition items_of (a : ndarray) : list ndarray :=
  match a with
  | Arr items => items
  | Num _ => []
  end.

(** The matches counted over the chunks numbered [idx]. *)
Fixpoint count_chunks (x t : list ndarray) (size : nat) (idx : list nat)
    (acc : Z) : M Z :=
  match idx with
  | [] => mret acc
  | i :: idx' =>
      y ← predict (Arr (chunk size i x));
      y ← M_lift (np_argmax1 y);
      c ← M_lift (np_sum_eq y (Arr (chunk size i t)));
      count_chunks x t size idx' (acc + c)
  end.

(** The labels as a vector: the row-wise argmax of [t] unless [t] is
    one-dimensional. *)
Definition label_vector (t : ndarray) : res ndarray :=
  if ndim t =? 1 then Ok t else np_argmax1 t.

(** [accuracy] in the words of the specification: the label vector, then
    floor (N / batch_size) chunks of [batch_size] consecutive samples, the
    matches of each, and their total over the number of samples. *)
Definition accuracy_by_chunks (x t : ndarray) (batch_size : Z) : M Q :=
  t ← M_lift (label_vector t);
  n ← M_lift (shape0 x);
  acc ← count_chunks (items_of x) (items_of t) (Z.to_nat batch_size)
        (seq 0 (Z.to_nat (n / batch_size))) 0;
  M_lift (py_float_div acc n).

(** A label tensor as the data provider yields it: a vector of integers
    or a matrix of one-hot rows. *)
Definition is_num (a : ndarray) : bool :=
  match a with Num _ => true | Arr _ => false end.

Definition is_vector (t : ndarray) : bool :=
  match t with
  | Arr items => forallb is_num items
  | Num _ => false
  end.

Definition is_matrix (t : ndarray) : bool :=
  match t with
  | Arr rows =>
      forallb (fun r => match r with
                        | Arr (c :: cols) => forallb is_num (c :: cols)
                        | _ => false
                        end) rows
  | Num _ => false
  end.

Definition label_tensor (t : ndarray) : Prop :=
  is_vector t = true \/ is_matrix t = true.

End Statements.

(** ** The Adam optimizer

    Modelled from the spec: the class [Adam] comes from [common.optimizer],
    which is not part of the sources; the script only constructs it
    ([Adam(lr=0.001)], line 177) and calls [update] (line 192). Sections 3
    and 4.7 of the specification give its state and its update rule. The
    rule is stated here over the real numbers, of which the float64
    computation is the rounded image, and elementwise on the flattened
    tensors (a gradient has the shape of its parameter, section 3). *)

Module Adam.
Local Open Scope R_scope.

Record state : Type := State {
  lr : R;
  beta1 : R;
  beta2 : R;
  iter : nat;
  m : option (gmap string (list R));
  v : option (gmap string (list R))
}.

Definition default_beta1 : R := 9 / 10.
Definition default_beta2 : R := 999 / 1000.
Definition eps : R := 1 / 10000000.

(** [Adam(lr)]: zero step counter, moments not yet created. *)
Definition init (lr : R) : state :=
  State lr default_beta1 default_beta2 0 None None.

(** [np.zeros_like] *)
Definition zeros_like (p : list R) : list R := replicate (length p) 0.

(** m <- m + (1 - beta1) (grad - m) *)
Definition step_m (b1 : R) (mk g : list R) : list R :=
  zip_with (fun mi gi => mi + (1 - b1) * (gi - mi)) mk g.

(** v <- v + (1 - beta2) (grad^2 - v) *)
Definition step_v (b2 : R) (vk g : list R) : list R :=
  zip_with (fun vi gi => vi + (1 - b2) * (gi * gi - vi)) vk g.

(** param <- param - lr_t * m / (sqrt v + eps) *)
Definition step_param (lr_t : R) (p mk vk : list R) : list R :=
  zip_with (fun pi mv => pi - lr_t * fst mv / (sqrt (snd mv) + eps))
           p (zip mk vk).

(** lr_t = lr * sqrt (1 - beta2^t) / (1 - beta1^t) *)
Definition lr_t (st : state) (t : nat) : R :=
  lr st * sqrt (1 - beta2 st ^ t) / (1 - beta1 st ^ t).

(** [update(params, grads)]: the optimizer after the call and the
    parameters as the call leaves them. *)
Definition update (st : state) (params grads : gmap string (list R))
    : state * gmap string (list R) :=
  let m0 := default (zeros_like <$> params) (m st) in
  let v0 := default (zeros_like <$> params) (v st) in
  let t := S (iter st) in
  let both (key : string) : option (list R) :=
    match params !! key with
    | Some _ => grads !! key
    | None => None
    end in
  let m1 := map_imap (fun key mk =>
              Some (match both key with
                    | Some g => step_m (beta1 st) mk g
                    | None => mk
                    end)) m0 in
  let v1 := map_imap (fun key vk =>
              Some (match both key with
                    | Some g => step_v (beta2 st) vk g
                    | None => vk
                    end)) v0 in
  let params' := map_imap (fun key p =>
              Some (match both key, m1 !! key, v1 !! key with
                    | Some _, Some mk, Some vk => step_param (lr_t st t) p mk vk
                    | _, _, _ => p
                    end)) params in
  (State (lr st) (beta1 st) (beta2 st) t (Some m1) (Some v1), params').

(** [np.sign] *)
Definition sign (x : R) : R :=
  if Rlt_dec 0 x then 1 else if Rlt_dec x 0 then -1 else 0.

(** The change of a parameter that the first update makes for a gradient
    entry [g]. *)
Definition first_delta (lr g : R) : R :=
  - (lr * (sqrt (1 - default_beta2) * g)
     / (sqrt (1 - default_beta2) * Rabs g + eps)).

(** The change that the specification announces for the first update. *)
Definition announced_delta (lr g : R) : R :=
  - lr * sign g * (1 - default_beta1) / sqrt (1 - default_beta2).

End Adam.

(** ** The rest of the class and of the script *)

Section Persistence.
Context `{E : Elt} {LM : LayerMath}.

(** [save_params] (lines 140-145): the dictionary handed to [pickle.dump],
    every array with its content. (The items come in the order of the
    [gmap]; no statement depends on it.) *)
Definition save_params : M (list (string * ndarray)) :=
  fun w =>
    (res_mapM (fun kr => a ← deref (heap w) (Some (snd kr)); Ok (fst kr, a))
              (map_to_list (params w)),
     w).

(** The dictionary that [pickle.load] returns, in the order of its items:
    under each key an array, and the identity of this array object within
    the file. Pickle writes an object once: the keys that held one array
    object when the file was written hold one array object again. *)
Definition pickled : Type := list (string * (nat * ndarray)).

Definition contents (items : pickled) : list (string * ndarray) :=
  map (fun kv => (fst kv, snd (snd kv))) items.

Definition identities (items : pickled) : list nat :=
  map (fun kv => fst (snd kv)) items.

(** [for key, val in params.items(): self.params[key] = val] (lines
    150-151) for the unpickled dictionary; [memo] holds the array objects
    that unpickling has created, by their identity in the file. *)
Fixpoint store_pickled (items : pickled) (memo : gmap nat loc) (w : world)
    : world :=
  match items with
  | [] => w
  | (key, (id, val)) :: rest =>
      match memo !! id with
      | Some r =>
          store_pickled rest memo (set_params (<[key := r]> (params w)) w)
      | None =>
          let '(r, h) := alloc val (heap w) in
          store_pickled rest (<[id := r]> memo)
            (set_params (<[key := r]> (params w)) (set_heap h w))
      end
  end.

(** [load_params] (lines 147-155) for any file. *)
Definition load_pickled (items : pickled) : M unit :=
  _ ← (fun w => (Ok tt, store_pickled items ∅ w));
  rebind_layers (py_enumerate ["Conv1"; "Affine1"; "Affine2"; "Affine3"]%string).

(** [self.params[key]], the array itself. *)
Definition param_array (w : world) (key : string) : res ndarray :=
  match params w !! key with
  | Some r => deref (heap w) (Some r)
  | None => Raise KeyError
  end.

(** The eight parameter arrays. *)
Record parameters : Type := Parameters {
  pW1 : ndarray; pb1 : ndarray;
  pW2 : ndarray; pb2 : ndarray;
  pW3 : ndarray; pb3 : ndarray;
  pW4 : ndarray; pb4 : ndarray
}.

Definition read_parameters (w : world) : res parameters :=
  aW1 ← param_array w "W1"; ab1 ← param_array w "b1";
  aW2 ← param_array w "W2"; ab2 ← param_array w "b2";
  aW3 ← param_array w "W3"; ab3 ← param_array w "b3";
  aW4 ← param_array w "W4"; ab4 ← param_array w "b4";
  Ok (Parameters aW1 ab1 aW2 ab2 aW3 ab3 aW4 ab4).

(** The function of the input that the network computes for given
    parameter arrays and convolution setting. *)
Definition network_function (cp : conv_param) (θ : parameters) (x : ndarray)
    : res ndarray :=
  a ← fst <$> conv_forward (pW1 θ) (pb1 θ) (stride cp) (pad cp) x;
  a ← fst <$> relu_forward a;
  a ← fst <$> pool_forward pool_height pool_width pool_stride a;
  a ← fst <$> affine_forward (pW2 θ) (pb2 θ) a;
  a ← fst <$> relu_forward a;
  a ← fst <$> affine_forward (pW3 θ) (pb3 θ) a;
  a ← fst <$> relu_forward a;
  fst <$> affine_forward (pW4 θ) (pb4 θ) a.

(** The gradients that the network computes for given parameter arrays
    and convolution setting: the forward pass, every layer keeping its
    cache, the backward of the loss layer seeded with 1, the backward of
    the layers in reverse order, and the weight and bias gradients that
    the backward of the Convolution layer and of the three Affine layers
    gives. *)
Definition gradient_function (cp : conv_param) (θ : parameters) (x t : ndarray)
    : res (gmap string (option ndarray)) :=
  '(a, c1) ← conv_forward (pW1 θ) (pb1 θ) (stride cp) (pad cp) x;
  '(a, c2) ← relu_forward a;
  '(a, c3) ← pool_forward pool_height pool_width pool_stride a;
  '(a, c4) ← affine_forward (pW2 θ) (pb2 θ) a;
  '(a, c5) ← relu_forward a;
  '(a, c6) ← affine_forward (pW3 θ) (pb3 θ) a;
  '(a, c7) ← relu_forward a;
  '(y, c8) ← affine_forward (pW4 θ) (pb4 θ) a;
  '(_, c) ← softmax_loss_forward y t;
  d ← softmax_loss_backward c (Num (elt_of_Z 1));
  '(d, gW4, gb4) ← affine_backward (pW4 θ) c8 d;
  d ← relu_backward c7 d;
  '(d, gW3, gb3) ← affine_backward (pW3 θ) c6 d;
  d ← relu_backward c5 d;
  '(d, gW2, gb2) ← affine_backward (pW2 θ) c4 d;
  d ← pool_backward pool_height pool_width pool_stride c3 d;
  d ← relu_backward c2 d;
  '(_, gW1, gb1) ← conv_backward (pW1 θ) (stride cp) (pad cp) c1 d;
  Ok (<["b4" := Some gb4]> (<["W4" := Some gW4]> (<["b3" := Some gb3]>
     (<["W3" := Some gW3]> (<["b2" := Some gb2]> (<["W2" := Some gW2]>
     (<["b1" := Some gb1]> (<["W1" := Some gW1]> ∅)))))))).

(** The classes of the layers as [__init__] creates them. *)
Definition layer_kinds (cp : conv_param) : list layer_kind :=
  [ Convolution (stride cp) (pad cp); Relu;
    Pooling pool_height pool_width pool_stride; Affine; Relu; Affine; Relu;
    Affine ].

(** The layer [name] holds the references that the parameter dictionary
    holds under its two keys, and both arrays exist. *)
Definition shares_params (w : world) (src : string * (string * string)) : Prop :=
  exists (l : layer) (rW rb : loc),
    assoc_get (fst src) (layers w) = Some l
    /\ W l = Some rW /\ b l = Some rb
    /\ params w !! fst (snd src) = Some rW
    /\ params w !! snd (snd src) = Some rb.

(** The state in which [__init__] leaves a network, as far as the later
    methods keep it: the layers and their classes, layers and parameter
    dictionary referring to the same arrays, no reference without an
    array, no array under two keys. *)
Definition well_formed (cp : conv_param) (w : world) : Prop :=
  map fst (layers w) = layer_names
  /\ map (fun kl => kind (snd kl)) (layers w) = layer_kinds cp
  /\ Forall (shares_params w) grad_sources
  /\ (forall key r, params w !! key = Some r -> r ∈ dom (heap w))
  /\ (forall k1 k2 r, params w !! k1 = Some r -> params w !! k2 = Some r ->
       k1 = k2).

(** The last lines of [gradient] (lines 132-138), on the layers that the
    backward pass has left. *)
Definition grads_of (ls : list (string * layer))
    : res (gmap string (option ndarray)) :=
  let read (name : string) : res (option ndarray * option ndarray) :=
    match assoc_get name ls with
    | Some l => get_grads l
    | None => Raise KeyError
    end in
  '(gW1, gb1) ← read "Conv1"%string;
  '(gW2, gb2) ← read "Affine1"%string;
  '(gW3, gb3) ← read "Affine2"%string;
  '(gW4, gb4) ← read "Affine3"%string;
  Ok (<["b4" := gb4]> (<["W4" := gW4]> (<["b3" := gb3]> (<["W3" := gW3]>
     (<["b2" := gb2]> (<["W2" := gW2]> (<["b1" := gb1]> (<["W1" := gW1]> ∅)))))))).

(** What [gradient] returns, as a function of the arrays, the layers, the
    input and the labels. *)
Definition gradient_value (h : gmap loc ndarray) (ls : list (string * layer))
    (x t : ndarray) : res (gmap string (option ndarray)) :=
  y ← fst (fst (forward_layers h ls x));
  '(_, c) ← softmax_loss_forward y t;
  dout ← softmax_loss_backward c (Num (elt_of_Z 1));
  _ ← fst (fst (backward_layers h (rev (snd (fst (forward_layers h ls x)))) dout));
  grads_of
    (rev (snd (fst (backward_layers h
                      (rev (snd (fst (forward_layers h ls x)))) dout)))).

(** Two layers of the same class, references and cache. *)
Definition same_cache (kl1 kl2 : string * layer) : Prop :=
  fst kl1 = fst kl2 /\ static (snd kl1) = static (snd kl2)
  /\ cached (snd kl1) = cached (snd kl2).

(** Two such layers that also hold the same gradients where their class
    has any. *)
Definition same_grads (kl1 kl2 : string * layer) : Prop :=
  same_cache kl1 kl2 /\ get_grads (snd kl1) = get_grads (snd kl2).

(** A row with [1] at the index [k] and [0] elsewhere, and the matrix of
    such rows. *)
Definition one_hot_entry (k : Z) (i : nat) : elt :=
  elt_of_Z (if Z.of_nat i =? k then 1 else 0).

Definition one_hot (classes : nat) (k : Z) : ndarray :=
  Arr (map (fun i => Num (one_hot_entry k i)) (seq 0 classes)).

Definition one_hot_labels (classes : nat) (labels : list Z) : ndarray :=
  Arr (map (one_hot classes) labels).


End Persistence.

(** ** The training loop of the script (lines 168-204)

    Modelled from the spec: the optimizer [Adam] comes from
    [common.optimizer], which is not part of the sources. Sections 2 and
    4.7 of the specification give its interface: [update(params, grads)]
    computes new values from the parameter arrays, the gradients and its
    own state, and "mutates parameters in place". What it computes is left
    open here ([opt_step]); so is what [np.random.choice] draws. *)

Class Driver `{Random} : Type := {
  (** [np.random.choice(n, size)] *)
  choice : rng -> Z -> Z -> res (list Z * rng);
  optimizer : Type;
  (** [Adam(lr=...)] *)
  new_Adam : Q -> optimizer;
  (** the optimizer after [update], and the values it gives the parameter
      arrays *)
  opt_step : optimizer -> gmap string ndarray -> gmap string (option ndarray)
             -> res (optimizer * gmap string ndarray)
}.

(** [a / b] on integers, the quotient kept as an exact fraction. (A float
    holds it exactly when [b] divides [a], or the quotient is otherwise a
    binary fraction.) *)
Definition py_true_div (a b : Z) : res Q :=
  if b =? 0 then Raise ZeroDivisionError else Ok (inject_Z a / inject_Z b)%Q.

(** [max(q, 1)] *)
Definition py_max_1 (q : Q) : Q :=
  if Qlt_le_dec q 1 then 1%Q else q.

(** [i % q == 0] for an integer [i] and a float [q]. *)
Definition py_mod_is_zero (i : Z) (q : Q) : res bool :=
  if Qeq_bool q 0 then Raise ZeroDivisionError
  else Ok (Qeq_bool (inject_Z i - inject_Z (Qfloor (inject_Z i / q)) * q) 0).

Section Training.
Context `{E : Elt} {LM : LayerMath} {RN : Random} {DR : Driver}.

(** [a[mask]] for an array [mask] of indices. *)
Definition np_take (a : ndarray) (mask : list Z) : res ndarray :=
  match a with
  | Num _ => Raise IndexError
  | Arr items =>
      let n := Z.of_nat (length items) in
      rows ← res_mapM
        (fun i =>
           if (i <? - n) || (n <=? i) then Raise IndexError
           else match items !! Z.to_nat (if i <? 0 then i + n else i) with
                | Some row => Ok row
                | None => Raise IndexError
                end)
        mask;
      Ok (Arr rows)
  end.

(** The arrays that the parameter dictionary holds. *)
Definition arrays_of (w : world) : gmap string ndarray :=
  omap (fun r => heap w !! r) (params w).

(** [params[key] -= ...] for every key: the array object under the key
    takes its new value. *)
Definition write_back (ps : gmap string loc) (vals : gmap string ndarray)
    (h : gmap loc ndarray) : gmap loc ndarray :=
  foldr (fun kr h => match vals !! fst kr with
                     | Some a => <[snd kr := a]> h
                     | None => h
                     end)
        h (map_to_list ps).

(** [optimizer.update(network.params, grad)] (line 192) *)
Definition optimizer_update (o : optimizer)
    (grads : gmap string (option ndarray)) (w : world)
    : res (optimizer * world) :=
  '(o', vals) ← opt_step o (arrays_of w) grads;
  Ok (o', set_heap (write_back (params w) vals (heap w)) w).

(** A method called by the script: an exception ends the script. *)
Definition call {A : Type} (m : M A) (w : world) : res (A * world) :=
  match m w with
  | (Ok a, w') => Ok (a, w')
  | (Raise e, _) => Raise e
  end.

(** The variables of the script that the loop changes. *)
Record progress : Type := Progress {
  network : world;
  generator : rng;
  adam : optimizer;
  train_loss_list : list elt;
  train_acc_list : list Q;
  test_acc_list : list Q
}.

(** The body of the loop (lines 184-204), the printing aside. *)
Definition train_iteration (x_train t_train x_test t_test : ndarray)
    (train_size batch_size : Z) (iter_per_epoch : Q) (i : Z) (s : progress)
    : res progress :=
  '(batch_mask, g) ← choice (generator s) train_size batch_size;
  x_batch ← np_take x_train batch_mask;
  t_batch ← np_take t_train batch_mask;
  '(grad, w) ← call (gradient x_batch t_batch) (network s);
  '(o, w) ← optimizer_update (adam s) grad w;
  '(l, w) ← call (loss x_batch t_batch) w;
  let losses := train_loss_list s ++ [l] in
  epoch ← py_mod_is_zero i iter_per_epoch;
  if epoch : bool then
    '(train_acc, w) ← call (accuracy x_train t_train default_batch_size) w;
    '(test_acc, w) ← call (accuracy x_test t_test default_batch_size) w;
    Ok (Progress w g o losses (train_acc_list s ++ [train_acc])
                 (test_acc_list s ++ [test_acc]))
  else Ok (Progress w g o losses (train_acc_list s) (test_acc_list s)).

(** [for i in idx: ...] (line 182) *)
Fixpoint train_loop (x_train t_train x_test t_test : ndarray)
    (train_size batch_size : Z) (iter_per_epoch : Q) (idx : list Z)
    (s : progress) : res progress :=
  match idx with
  | [] => Ok s
  | i :: idx' =>
      s' ← train_iteration x_train t_train x_test t_test train_size batch_size
             iter_per_epoch i s;
      train_loop x_train t_train x_test t_test train_size batch_size
        iter_per_epoch idx' s'
  end.

(** Lines 168-204 for the network [w] and the data as the script has them
    at line 168, with the iteration count, the batch size and the learning
    rate that the script sets. *)
Definition training (x_train t_train x_test t_test : ndarray)
    (iters_num batch_size : Z) (lr : Q) (w : world) (g : rng) : res progress :=
  train_size ← shape0 x_train;
  q ← py_true_div train_size batch_size;
  let iter_per_epoch := py_max_1 q in
  train_loop x_train t_train x_test t_test train_size batch_size
    iter_per_epoch (py_range iters_num)
    (Progress w g (new_Adam lr) [] [] []).

(** The network [w'] has the array objects, the parameter dictionary and
    the layers' classes and references of [w]: only the contents of the
    arrays, the caches, the stored gradients and the record of calls may
    differ. *)
Definition same_objects (w w' : world) : Prop :=
  dom (heap w') = dom (heap w)
  /\ params w' = params w
  /\ statics (layers w') = statics (layers w).

(** The values that the script sets (lines 168, 170 and 177). *)
Definition script_iters_num : Z := 12000.
Definition script_batch_size : Z := 100.
Definition script_lr : Q := Qmake 1 1000.

End Training.

(** ** A small instance

    Integer elements, a counter as random source, and layers that pass
    their input on (Relu clips at zero): enough to run the network on
    concrete arrays. *)

Module Toy.

(** The number of elements of an array of the given dimensions. *)
Definition np_size (shape : list Z) : Z := foldr Z.mul 1 shape.

#[export] Instance toy_elt : Elt :=
  {| elt := Z; elt_of_Z := fun i => i; elt_eqb := Z.eqb; elt_gtb := Z.gtb;
     alloc_error := fun shape =>
       if 2 ^ 20 <? np_size shape then Some MemoryError else None |}.

(** The array of a given shape whose entries all are [v]. *)
Fixpoint full (shape : list Z) (v : Z) : ndarray :=
  match shape with
  | [] => Num v
  | d :: shape' => Arr (replicate (Z.to_nat d) (full shape' v))
  end.

#[export] Instance toy_random : Random :=
  {| rng := Z;
     randn := fun g shape => (full shape g, g + 1);
     he_scale := fun _ a => a |}.

Fixpoint amap (f : Z -> Z) (a : ndarray) : ndarray :=
  match a with
  | Num v => Num (f v)
  | Arr items => Arr (map (amap f) items)
  end.

#[export] Instance toy_layers : LayerMath :=
  {| cache := ndarray;
     conv_forward := fun _ _ _ _ x => Ok (x, x);
     conv_backward := fun Wv _ _ c dout => Ok (dout, c, dout);
     relu_forward := fun x => Ok (amap (Z.max 0) x, x);
     relu_backward := fun _ dout => Ok dout;
     pool_forward := fun _ _ _ x => Ok (x, x);
     pool_backward := fun _ _ _ _ dout => Ok dout;
     affine_forward := fun _ _ x => Ok (x, x);
     affine_backward := fun Wv c dout => Ok (dout, c, dout);
     softmax_loss_forward := fun y t => Ok (0, y);
     softmax_loss_backward := fun c dout => Ok c |}.

Definition vec (l : list Z) : ndarray := Arr (map Num l).
Definition mat (rows : list (list Z)) : ndarray := Arr (map vec rows).

(** A network on 1x4x4 inputs with one 1x1 filter, two hidden units and
    two classes. *)
Definition small_world : world :=
  match SimpleConvNet_init (InputDim 1 4 4) (ConvParam 1 1 0 1) 2 2 (7 : Z) with
  | Ok (w, _) => w
  | Raise _ => World ∅ ∅ [] {| loss_cached := None |} []
  end.

(** Three samples of two scores each, and their labels. *)
Definition x3 : ndarray := mat [[1; 5]; [7; 2]; [3; 3]].
Definition t3 : ndarray := vec [1; 0; 1].
Definition t3_one_hot : ndarray := mat [[0; 1]; [1; 0]; [0; 1]].

(** The dictionary of a parameter file for the small network. *)
Definition small_file : list (string * ndarray) :=
  [ ("W1", vec [11]); ("b1", vec [12]); ("W2", vec [21]); ("b2", vec [22]);
    ("W3", vec [31]); ("b3", vec [32]); ("W4", vec [41]); ("b4", vec [42]) ]%string.

(** Indices in turn as the drawn ones, and an optimizer that counts its
    updates and adds one to every parameter entry. *)
#[export] Instance toy_driver : Driver :=
  {| choice := fun g n size =>
       if (n <=? 0) || (size <? 0) then Raise ValueError
       else Ok (map (fun j => (g + j) mod n) (py_range size), g + 1);
     optimizer := nat;
     new_Adam := fun _ => 0%nat;
     opt_step := fun o arrays _ => Ok (S o, amap (Z.add 1) <$> arrays) |}.

(** Four training samples of two scores each, and their labels. *)
Definition x4 : ndarray := mat [[1; 5]; [7; 2]; [3; 3]; [0; 4]].
Definition t4 : ndarray := vec [1; 0; 1; 1].

(** Three iterations on the small network with batches of two, and the
    first of them alone. *)
Definition small_start : progress :=
  Progress small_world (11 : Z) (new_Adam script_lr) [] [] [].

Definition small_trained : progress :=
  match training x4 t4 x3 t3 3 2 script_lr small_world (11 : Z) with
  | Ok s => s
  | Raise _ => small_start
  end.

Definition small_step : progress :=
  match train_iteration x4 t4 x3 t3 4 2 (inject_Z 2) 0 small_start with
  | Ok s => s
  | Raise _ => small_start
  end.

(** A parameter file that has two of the keys and one of its own, and a
    file in which one array is held under two keys. *)
Definition partial_file : pickled :=
  [ ("W1", (0%nat, vec [11])); ("b3", (1%nat, vec [32]));
    ("epoch", (2%nat, vec [5])) ]%string.

Definition shared_file : pickled :=
  [ ("b2", (0%nat, vec [0; 0])); ("b3", (0%nat, vec [0; 0])) ]%string.

End Toy.

(** * Properties *)

(** ** Helper facts on results *)

Ltac unfold_res :=
  cbv [mbind res_mbind res_bind fmap res_fmap res_map mret res_mret] in *.

Ltac unfold_M :=
  cbv [mbind M_mbind M_bind mret M_mret M_ret M_lift] in *.

Lemma res_bind_Ok {A B : Type} (r : res A) (k : A -> res B) (y : B) :
  r ≫= k = Ok y -> exists a, r = Ok a /\ k a = Ok y.
Proof. destruct r as [a|e]; intros Hr; [eauto | discriminate Hr]. Qed.

Lemma res_bind_Raise {A B : Type} (r : res A) (k : A -> res B) (e : exn) :
  r ≫= k = Raise e -> r = Raise e \/ exists a, r = Ok a /\ k a = Raise e.
Proof.
  destruct r as [a|e']; intros Hr;
    [right; eauto | left; injection Hr as ->; reflexivity].
Qed.

(** ** Construction: the derived dimensions *)

Section Construction.
Context `{E : Elt} {LM : LayerMath} {RN : Random}.

Lemma py_floordiv_Raise (a d : Z) (e : exn) :
  py_floordiv a d = Raise e -> e = ZeroDivisionError.
Proof. unfold py_floordiv. destruct (d =? 0); congruence. Qed.



Lemma derive_dims_Raise (dim : input_dim) (cp : conv_param) (e : exn) :
  derive_dims dim cp = Raise e -> e = ZeroDivisionError.
Proof.
  unfold derive_dims. intros Hr.
  repeat match type of Hr with
         | _ ≫= _ = Raise _ =>
             apply res_bind_Raise in Hr as [Hr | (? & _ & Hr)];
             [ exact (py_floordiv_Raise _ _ _ Hr) | cbv beta in Hr ]
         end.
  discriminate.
Qed.

Lemma he_normal_Raise (g : rng) (shape : list Z) (fan_in : Z) (e : exn) :
  he_normal g shape fan_in = Raise e ->
  e = ZeroDivisionError \/ e = ValueError
  \/ exists shape, alloc_error shape = Some e.
Proof.
  unfold he_normal.
  destruct (existsb _ shape); [intros [= <-]; right; by left |].
  destruct (alloc_error shape) as [e'|] eqn:Ha;
    [intros [= <-]; right; right; eauto |].
  destruct (randn g shape). destruct (fan_in =? 0); [intros [= <-]; by left | discriminate].
Qed.

Lemma he_normal_Ok (g : rng) (shape : list Z) (fan_in : Z) :
  Forall (fun d => 0 <= d) shape -> fan_in <> 0 ->
  alloc_error shape = None ->
  is_ok (he_normal g shape fan_in) = true.
Proof.
  intros Hsh Hf Ha. unfold he_normal.
  assert (existsb (fun d => d <? 0) shape = false) as ->.
  { clear Ha. induction Hsh as [|d l Hd _ IH]; simpl; [reflexivity |].
    rewrite IH, orb_false_r. apply Z.ltb_ge. exact Hd. }
  rewrite Ha. destruct (randn g shape).
  destruct (Z.eqb_spec fan_in 0); [contradiction | reflexivity].
Qed.

Lemma np_zeros_Raise (n : Z) (e : exn) :
  np_zeros n = Raise e ->
  e = ValueError \/ exists shape, alloc_error shape = Some e.
Proof.
  unfold np_zeros. destruct (n <? 0); [intros [= <-]; by left |].
  destruct (alloc_error [n]) eqn:Ha; [intros [= <-]; right; eauto | discriminate].
Qed.

Lemma np_zeros_Ok (n : Z) :
  0 <= n -> alloc_error [n] = None -> is_ok (np_zeros n) = true.
Proof.
  intros Hn Ha. unfold np_zeros. rewrite Ha.
  destruct (Z.ltb_spec n 0); [lia | reflexivity].
Qed.

Lemma init_Raise (dim : input_dim) (cp : conv_param) (hs os : Z) (g : rng) (e : exn) :
  SimpleConvNet_init dim cp hs os g = Raise e ->
  e = ZeroDivisionError \/ e = ValueError
  \/ exists shape, alloc_error shape = Some e.
Proof.
  unfold SimpleConvNet_init. intros Hr.
  apply res_bind_Raise in Hr as [Hr | (d & _ & Hr)];
    [left; exact (derive_dims_Raise _ _ _ Hr) |].
  repeat first
    [ apply res_bind_Raise in Hr as [Hr | ([? ?] & _ & Hr)];
      [ exact (he_normal_Raise _ _ _ _ Hr) | ]
    | apply res_bind_Raise in Hr as [Hr | (? & _ & Hr)];
      [ right; exact (np_zeros_Raise _ _ Hr) | ] ].
  discriminate.
Qed.

Lemma init_Ok (dim : input_dim) (cp : conv_param) (hs os : Z) (g : rng)
    (d : derived_dims) :
  derive_dims dim cp = Ok d ->
  0 <= filter_num cp -> 0 <= in_channels dim -> 0 <= filter_size cp ->
  0 <= pool_output_size d -> 0 <= hs -> 0 <= os ->
  in_channels dim * filter_size cp * filter_size cp <> 0 ->
  pool_output_size d <> 0 -> hs <> 0 ->
  arrays_fit dim cp hs os d ->
  is_ok (SimpleConvNet_init dim cp hs os g) = true.
Proof.
  intros Hd Hfn Hc Hfs Hpos Hhs Hos Hf1 Hf2 Hf3 Hfit.
  unfold arrays_fit in Hfit.
  repeat match type of Hfit with
         | Forall _ (_ :: _) =>
             let Ha := fresh "Ha" in apply Forall_cons in Hfit as [Ha Hfit]
         end.
  unfold SimpleConvNet_init. rewrite Hd. cbn [mbind res_mbind res_bind].
  repeat first
    [ match goal with
      | |- is_ok (he_normal ?g ?sh ?f ≫= _) = true =>
          let Hn := fresh "Hn" in
          assert (is_ok (he_normal g sh f) = true) as Hn
            by (apply he_normal_Ok;
                [repeat (apply Forall_cons_2; [assumption |]); apply Forall_nil_2
                | assumption | assumption]);
          destruct (he_normal g sh f) as [[? ?]|?]; [clear Hn | discriminate Hn];
          cbn [mbind res_mbind res_bind]
      | |- is_ok (np_zeros ?n ≫= _) = true =>
          let Hn := fresh "Hn" in
          assert (is_ok (np_zeros n) = true) as Hn
            by (apply np_zeros_Ok; assumption);
          destruct (np_zeros n) as [?|?]; [clear Hn | discriminate Hn];
          cbn [mbind res_mbind res_bind]
      end ].
  reflexivity.
Qed.

(** A network that [__init__] has built has the fixed topology, and its
    layers refer to the arrays of the parameter dictionary. *)
Lemma init_topology (dim : input_dim) (cp : conv_param) (hs os : Z) (g g' : rng)
    (w : world) :
  SimpleConvNet_init dim cp hs os g = Ok (w, g') ->
  topology w
  /\ dom (params w) = param_keys
  /\ Forall (fun src =>
               exists l, assoc_get (fst src) (layers w) = Some l
                         /\ W l = params w !! fst (snd src)
                         /\ b l = params w !! snd (snd src)
                         /\ is_Some (W l) /\ is_Some (b l))
            grad_sources.
Proof.
  unfold SimpleConvNet_init. intros Hi.
  repeat match type of Hi with
         | _ ≫= _ = Ok _ =>
             apply res_bind_Ok in Hi as (? & _ & Hi); cbv beta in Hi
         | (let '(_, _) := ?p in _) = Ok _ => destruct p
         end.
  injection Hi as <- _. split; [by split |].
  split.
  { cbn [params]. rewrite !dom_insert_L, dom_empty_L. unfold param_keys.
    set_solver. }
  unfold grad_sources.
  repeat (apply Forall_cons_2 || apply Forall_nil_2);
    eexists; cbn [fst snd layers params assoc_get String.eqb Ascii.eqb Bool.eqb W b];
    (split; [reflexivity |]); simplify_map_eq; eauto.
Qed.

Lemma alloc_spec (a : ndarray) (h h' : gmap loc ndarray) (r : loc) :
  alloc a h = (r, h') ->
  h' !! r = Some a
  /\ dom h' = {[r]} ∪ dom h
  /\ (forall r0, r0 ∈ dom h -> h' !! r0 = h !! r0).
Proof.
  unfold alloc. intros [= <- <-].
  pose proof (is_fresh (dom h)) as Hfresh.
  split; [apply lookup_insert_eq | split; [apply dom_insert_L |]].
  intros r0 Hr0. apply lookup_insert_ne. set_solver.
Qed.

(** The array that [__init__] stores under W2 is drawn with the shape
    (pool_output_size, hidden_size) and scaled by the fan-in
    pool_output_size; the first affine layer refers to it. *)
Lemma init_W2 (dim : input_dim) (cp : conv_param) (hs os : Z) (g g' : rng)
    (w : world) (d : derived_dims) :
  derive_dims dim cp = Ok d ->
  SimpleConvNet_init dim cp hs os g = Ok (w, g') ->
  exists (g1 : rng) (r : loc) (l : layer),
    params w !! "W2"%string = Some r
    /\ heap w !! r
       = Some (he_scale (pool_output_size d)
                        (fst (randn g1 [pool_output_size d; hs])))
    /\ assoc_get "Affine1" (layers w) = Some l
    /\ W l = Some r.
Proof.
  intros Hd. unfold SimpleConvNet_init. rewrite Hd.
  cbn [mbind res_mbind res_bind]. intros Hi.
  apply res_bind_Ok in Hi as ([aW1 g1] & _ & Hi).
  apply res_bind_Ok in Hi as (ab1 & _ & Hi).
  apply res_bind_Ok in Hi as ([aW2 g2] & HW2 & Hi).
  apply res_bind_Ok in Hi as (ab2 & _ & Hi).
  apply res_bind_Ok in Hi as ([aW3 g3] & _ & Hi).
  apply res_bind_Ok in Hi as (ab3 & _ & Hi).
  apply res_bind_Ok in Hi as ([aW4 g4] & _ & Hi).
  apply res_bind_Ok in Hi as (ab4 & _ & Hi).
  destruct (alloc aW1 ∅) as [rW1 h1] eqn:H1.
  destruct (alloc ab1 h1) as [rb1 h2] eqn:H2.
  destruct (alloc aW2 h2) as [rW2 h3] eqn:H3.
  destruct (alloc ab2 h3) as [rb2 h4] eqn:H4.
  destruct (alloc aW3 h4) as [rW3 h5] eqn:H5.
  destruct (alloc ab3 h5) as [rb3 h6] eqn:H6.
  destruct (alloc aW4 h6) as [rW4 h7] eqn:H7.
  destruct (alloc ab4 h7) as [rb4 h8] eqn:H8.
  injection Hi as <- _.
  apply alloc_spec in H3 as (Hl3 & Hd3 & _).
  apply alloc_spec in H4 as (_ & Hd4 & Hk4).
  apply alloc_spec in H5 as (_ & Hd5 & Hk5).
  apply alloc_spec in H6 as (_ & Hd6 & Hk6).
  apply alloc_spec in H7 as (_ & Hd7 & Hk7).
  apply alloc_spec in H8 as (_ & _ & Hk8).
  unfold he_normal in HW2.
  destruct (existsb _ _); [discriminate |].
  destruct (alloc_error _); [discriminate |].
  destruct (randn g1 [pool_output_size d; hs]) as [a g1'] eqn:Hr.
  destruct (pool_output_size d =? 0); [discriminate |].
  injection HW2 as <- _.
  exists g1, rW2. eexists.
  cbn [params heap layers assoc_get String.eqb Ascii.eqb Bool.eqb].
  split; [by simplify_map_eq |].
  split; [| split; reflexivity].
  rewrite Hr, Hk8, Hk7, Hk6, Hk5, Hk4; [exact Hl3 | set_solver ..].
Qed.

(** C2. With the default arguments (input 1x28x28, 30 filters of size 5,
    pad 0, stride 1) and the fixed 2x2 pooling of stride 2, the convolution
    output is 24x24, the pooled output 12x12, and [pool_output_size], the
    number of features that feed the first affine layer, is
    30 * 12 * 12 = 4320: the weights of Affine1 are drawn with the shape
    (4320, hidden_size). *)
Theorem default_dims_are_24_12_4320 (hs os : Z) (g : rng) :
  (default_input_dim, default_conv_param, (pool_height, pool_width, pool_stride))
    = (InputDim 1 28 28, ConvParam 30 5 0 1, (2, 2, 2))
  /\ derive_dims default_input_dim default_conv_param
     = Ok (DerivedDims 24 24 12 12 4320)
  /\ 4320 = 30 * 12 * 12
  /\ match SimpleConvNet_init default_input_dim default_conv_param hs os g with
     | Ok (w, _) =>
         exists (g1 : rng) (r : loc) (l : layer),
           params w !! "W2"%string = Some r
           /\ heap w !! r = Some (he_scale 4320 (fst (randn g1 [4320; hs])))
           /\ assoc_get "Affine1" (layers w) = Some l
           /\ W l = Some r
     | Raise _ => True
     end.
Proof.
  repeat split.
  destruct (SimpleConvNet_init default_input_dim default_conv_param hs os g)
    as [[w g']|e] eqn:Hi; [| exact I].
  exact (init_W2 default_input_dim default_conv_param hs os g g' w
           (DerivedDims 24 24 12 12 4320) eq_refl Hi).
Qed.


End Construction.

Import Toy.



(** ** The layers and the passes over them *)

Section Passes.
Context `{E : Elt} {LM : LayerMath}.

Lemma layer_forward_Ok (h : gmap loc ndarray) (l l' : layer) (x y : ndarray) :
  layer_forward h l x = Ok (y, l') ->
  static l' = static l /\ dW l' = dW l /\ db l' = db l /\ is_Some (cached l').
Proof.
  unfold layer_forward. intros Hf. unfold_res.
  repeat case_match; simplify_eq; cbn; eauto.
Qed.

(** The output of [forward] does not depend on the cache or the
    gradients of the layer. *)
Lemma layer_forward_static (h : gmap loc ndarray) (l1 l2 : layer) (x : ndarray) :
  static l1 = static l2 ->
  fst <$> layer_forward h l1 x = fst <$> layer_forward h l2 x.
Proof.
  unfold static, layer_forward. intros [= Hk HW Hb].
  rewrite Hk, HW, Hb. unfold_res.
  repeat case_match; simplify_eq; reflexivity.
Qed.

Lemma layer_backward_Ok (h : gmap loc ndarray) (l l' : layer) (dout dx : ndarray) :
  layer_backward h l dout = Ok (dx, l') ->
  static l' = static l /\ cached l' = cached l.
Proof.
  unfold layer_backward, get_cached. intros Hb. unfold_res.
  repeat case_match; simplify_eq; cbn; eauto.
Qed.

Lemma forward_layers_statics (h : gmap loc ndarray) (ls : list (string * layer))
    (x : ndarray) :
  statics (snd (fst (forward_layers h ls x))) = statics ls.
Proof.
  revert x. induction ls as [|[name l] ls IH]; intros x; [reflexivity |].
  cbn [forward_layers].
  destruct (layer_forward h l x) as [[y l']|e] eqn:Hf; [| reflexivity].
  specialize (IH y). destruct (forward_layers h ls y) as [[r ls'] ev].
  cbn in *. rewrite IH.
  apply layer_forward_Ok in Hf as (-> & _). reflexivity.
Qed.

Lemma backward_layers_statics (h : gmap loc ndarray) (ls : list (string * layer))
    (dout : ndarray) :
  statics (snd (fst (backward_layers h ls dout))) = statics ls.
Proof.
  revert dout. induction ls as [|[name l] ls IH]; intros dout; [reflexivity |].
  cbn [backward_layers].
  destruct (layer_backward h l dout) as [[dx l']|e] eqn:Hb; [| reflexivity].
  specialize (IH dx). destruct (backward_layers h ls dx) as [[r ls'] ev].
  cbn in *. rewrite IH.
  apply layer_backward_Ok in Hb as (-> & _). reflexivity.
Qed.

(** The result of a forward pass is a function of the heap, the input
    and the static part of the layers. *)
Lemma forward_layers_static (h : gmap loc ndarray)
    (ls1 ls2 : list (string * layer)) (x : ndarray) :
  statics ls1 = statics ls2 ->
  fst (fst (forward_layers h ls1 x)) = fst (fst (forward_layers h ls2 x)).
Proof.
  revert ls2 x. induction ls1 as [|[n1 l1] ls1 IH]; intros [|[n2 l2] ls2] x Hs;
    try discriminate; [reflexivity |].
  injection Hs as Hn Hk HW Hb Hs. cbn [forward_layers].
  assert (static l1 = static l2) as Hl by (unfold static; congruence).
  pose proof (layer_forward_static h l1 l2 x Hl) as Hf.
  destruct (layer_forward h l1 x) as [[y1 l1']|e1];
    destruct (layer_forward h l2 x) as [[y2 l2']|e2];
    cbv in Hf; simplify_eq; [| reflexivity].
  specialize (IH ls2 y2 Hs).
  destruct (forward_layers h ls1 y2) as [[r1 ls1'] ev1].
  destruct (forward_layers h ls2 y2) as [[r2 ls2'] ev2].
  exact IH.
Qed.

(** The calls of a forward pass: one per layer, in the order of the
    list, up to the layer that raised. *)
Lemma forward_layers_calls (h : gmap loc ndarray) (ls : list (string * layer))
    (x : ndarray) :
  exists n : nat,
    (n <= length ls)%nat
    /\ snd (forward_layers h ls x) = map EForward (take n (map fst ls))
    /\ (is_ok (fst (fst (forward_layers h ls x))) = true -> n = length ls).
Proof.
  revert x. induction ls as [|[name l] ls IH]; intros x.
  - exists 0%nat. repeat split; reflexivity.
  - cbn [forward_layers].
    destruct (layer_forward h l x) as [[y l']|e].
    + destruct (IH y) as (n & Hle & Hev & Hn).
      destruct (forward_layers h ls y) as [[r ls'] ev]. cbn in *.
      exists (S n). repeat split;
        [lia | cbn; by rewrite Hev | intros Hr; by rewrite Hn].
    + exists 1%nat. repeat split; [cbn; lia | discriminate].
Qed.

Lemma backward_layers_calls (h : gmap loc ndarray) (ls : list (string * layer))
    (dout : ndarray) :
  exists n : nat,
    (n <= length ls)%nat
    /\ snd (backward_layers h ls dout) = map EBackward (take n (map fst ls))
    /\ (is_ok (fst (fst (backward_layers h ls dout))) = true -> n = length ls).
Proof.
  revert dout. induction ls as [|[name l] ls IH]; intros dout.
  - exists 0%nat. repeat split; reflexivity.
  - cbn [backward_layers].
    destruct (layer_backward h l dout) as [[dx l']|e].
    + destruct (IH dx) as (n & Hle & Hev & Hn).
      destruct (backward_layers h ls dx) as [[r ls'] ev]. cbn in *.
      exists (S n). repeat split;
        [lia | cbn; by rewrite Hev | intros Hr; by rewrite Hn].
    + exists 1%nat. repeat split; [cbn; lia | discriminate].
Qed.

Lemma layer_backward_grads (h : gmap loc ndarray) (l l' : layer)
    (dout dx : ndarray) :
  layer_backward h l dout = Ok (dx, l') -> has_grads l'.
Proof.
  unfold layer_backward, get_cached, has_grads. intros Hb. unfold_res.
  destruct (kind l) eqn:Hk; repeat case_match; simplify_eq; cbn;
    rewrite ?Hk; eauto; congruence.
Qed.

(** After a backward pass that returned, the caches are those of before
    and every Convolution and Affine layer holds its gradients. *)
Lemma backward_layers_Ok (h : gmap loc ndarray) (ls : list (string * layer))
    (dout : ndarray) :
  is_ok (fst (fst (backward_layers h ls dout))) = true ->
  map (fun kl => cached (snd kl)) (snd (fst (backward_layers h ls dout)))
    = map (fun kl => cached (snd kl)) ls
  /\ Forall (fun kl => has_grads (snd kl)) (snd (fst (backward_layers h ls dout))).
Proof.
  revert dout. induction ls as [|[name l] ls IH]; intros dout.
  - split; [reflexivity | constructor].
  - cbn [backward_layers].
    destruct (layer_backward h l dout) as [[dx l']|e] eqn:Hb; [| discriminate].
    specialize (IH dx). destruct (backward_layers h ls dx) as [[r ls'] ev].
    cbn in *. intros Hr. destruct (IH Hr) as [Hc Hg].
    pose proof (layer_backward_grads _ _ _ _ _ Hb) as Hg'.
    apply layer_backward_Ok in Hb as (_ & Hc').
    split; [by rewrite Hc, Hc' | by constructor].
Qed.

(** After a forward pass that returned, every layer holds a cache. *)
Lemma forward_layers_cached (h : gmap loc ndarray) (ls : list (string * layer))
    (x : ndarray) :
  is_ok (fst (fst (forward_layers h ls x))) = true ->
  Forall (fun kl => is_Some (cached (snd kl)))
         (snd (fst (forward_layers h ls x))).
Proof.
  revert x. induction ls as [|[name l] ls IH]; intros x; [constructor |].
  cbn [forward_layers].
  destruct (layer_forward h l x) as [[y l']|e] eqn:Hf; [| discriminate].
  specialize (IH y). destruct (forward_layers h ls y) as [[r ls'] ev].
  cbn in *. intros Hr. constructor; [| auto].
  apply layer_forward_Ok in Hf as (_ & _ & _ & Hc). exact Hc.
Qed.

End Passes.

(** ** The methods as state transformers *)

Section Methods.
Context `{E : Elt} {LM : LayerMath}.

Lemma M_bind_Ok {A B : Type} (m : M A) (k : A -> M B) (w w2 : world) (y : B) :
  (m ≫= k) w = (Ok y, w2) ->
  exists a w1, m w = (Ok a, w1) /\ k a w1 = (Ok y, w2).
Proof.
  unfold_M. destruct (m w) as [[a|e] w1]; intros Hk; [eauto | discriminate].
Qed.

Lemma M_bind_Raise {A B : Type} (m : M A) (k : A -> M B) (w : world) (e : exn)
    (w1 : world) :
  m w = (Raise e, w1) -> (m ≫= k) w = (Raise e, w1).
Proof. unfold_M. intros ->. reflexivity. Qed.

Lemma M_bind_step {A B : Type} (m : M A) (k : A -> M B) (w w1 : world) (a : A) :
  m w = (Ok a, w1) -> (m ≫= k) w = k a w1.
Proof. unfold_M. intros ->. reflexivity. Qed.

(** *** The frame of a method *)

Lemma keeps_bind {A B : Type} (m : M A) (k : A -> M B) :
  keeps_parameters m -> (forall a, keeps_parameters (k a)) ->
  keeps_parameters (m ≫= k).
Proof.
  intros Hm Hk w. specialize (Hm w). unfold_M.
  destruct (m w) as [[a|e] w1]; cbn in *; [| exact Hm].
  rewrite Hk. exact Hm.
Qed.

Lemma keeps_ret {A : Type} (a : A) : keeps_parameters (mret a : M A).
Proof. intros w. reflexivity. Qed.

Lemma keeps_lift {A : Type} (r : res A) : keeps_parameters (M_lift r).
Proof. intros w. reflexivity. Qed.

Lemma keeps_predict (x : ndarray) : keeps_parameters (predict x).
Proof.
  intros w. unfold predict, parameters_of.
  pose proof (forward_layers_statics (heap w) (layers w) x) as Hs.
  destruct (forward_layers (heap w) (layers w) x) as [[r ls] ev].
  cbn in *. by rewrite Hs.
Qed.

Lemma keeps_last_layer_forward (y t : ndarray) :
  keeps_parameters (last_layer_forward y t).
Proof.
  intros w. unfold last_layer_forward.
  destruct (softmax_loss_forward y t) as [[v c]|e]; reflexivity.
Qed.

Lemma keeps_last_layer_backward (dout : ndarray) :
  keeps_parameters (last_layer_backward dout).
Proof. intros w. reflexivity. Qed.

Lemma keeps_loss (x t : ndarray) : keeps_parameters (loss x t).
Proof.
  unfold loss. apply keeps_bind; [apply keeps_predict |].
  intros y. apply keeps_last_layer_forward.
Qed.

Lemma keeps_accuracy_loop (x t : ndarray) (batch_size : Z) (idx : list Z) (acc : Z) :
  keeps_parameters (accuracy_loop x t batch_size idx acc).
Proof.
  revert acc. induction idx as [|i idx IH]; intros acc; [apply keeps_ret |].
  cbn [accuracy_loop].
  repeat first [ apply IH | apply keeps_predict | apply keeps_lift
               | apply keeps_bind; [| intros ?] ].
Qed.

Lemma keeps_accuracy (x t : ndarray) (batch_size : Z) :
  keeps_parameters (accuracy x t batch_size).
Proof.
  unfold accuracy.
  repeat first [ apply keeps_accuracy_loop | apply keeps_lift
               | apply keeps_bind; [| intros ?] ].
Qed.

Lemma keeps_get_layer (key : string) : keeps_parameters (get_layer key).
Proof.
  intros w. unfold get_layer. destruct (assoc_get key (layers w)); reflexivity.
Qed.

Lemma keeps_backward_pass (dout : ndarray) :
  keeps_parameters (fun w =>
    let '(r, ls, ev) := backward_layers (heap w) (rev (layers w)) dout in
    (r, add_calls ev (set_layers (rev ls) w))).
Proof.
  intros w. unfold parameters_of.
  pose proof (backward_layers_statics (heap w) (rev (layers w)) dout) as Hs.
  destruct (backward_layers (heap w) (rev (layers w)) dout) as [[r ls] ev].
  cbn in *. unfold statics in *. rewrite map_rev, Hs, <- map_rev, rev_involutive.
  reflexivity.
Qed.

Lemma keeps_gradient (x t : ndarray) : keeps_parameters (gradient x t).
Proof.
  unfold gradient.
  repeat first [ apply keeps_loss | apply keeps_last_layer_backward
               | apply keeps_backward_pass | apply keeps_get_layer
               | apply keeps_lift | apply keeps_ret
               | apply keeps_bind; [| intros ?]
               | match goal with
                 | |- keeps_parameters (let '(_, _) := ?p in _) => destruct p
                 end ].
Qed.

(** C7. [predict], [loss], [accuracy] and [gradient] leave every
    parameter array, the parameter dictionary and the references held by
    the layers as they found them, whatever their outcome; a [backward]
    that returns has changed nothing of its layer but [dW] and [db]. *)
Theorem methods_leave_parameters_unchanged
    (x t : ndarray) (batch_size : Z) (w : world) :
  parameters_of (snd (predict x w)) = parameters_of w
  /\ parameters_of (snd (loss x t w)) = parameters_of w
  /\ parameters_of (snd (accuracy x t batch_size w)) = parameters_of w
  /\ parameters_of (snd (gradient x t w)) = parameters_of w
  /\ (forall (l : layer) (dout : ndarray),
        match layer_backward (heap w) l dout with
        | Ok (_, l') => static l' = static l /\ cached l' = cached l
        | Raise _ => True
        end).
Proof.
  repeat split.
  - apply keeps_predict.
  - apply keeps_loss.
  - apply keeps_accuracy.
  - apply keeps_gradient.
  - intros l dout.
    destruct (layer_backward (heap w) l dout) as [[dx l']|e] eqn:Hb; [| exact I].
    exact (layer_backward_Ok _ _ _ _ _ Hb).
Qed.

(** C10. A second [predict] on the same input returns what the first
    returned: the result is that of the network with all caches erased,
    so the caches the first call wrote play no part in it. *)
Theorem predict_twice_same (x : ndarray) (w : world) :
  fst (predict x (snd (predict x w))) = fst (predict x w)
  /\ fst (predict x w) = fst (predict x (without_caches w)).
Proof.
  assert (forall w1 w2, heap w1 = heap w2 ->
            statics (layers w1) = statics (layers w2) ->
            fst (predict x w1) = fst (predict x w2)) as Hsame.
  { intros w1 w2 Hh Hs. unfold predict. rewrite Hh.
    pose proof (forward_layers_static (heap w2) _ _ x Hs) as Hf.
    destruct (forward_layers (heap w2) (layers w1) x) as [[r1 ls1] ev1].
    destruct (forward_layers (heap w2) (layers w2) x) as [[r2 ls2] ev2].
    exact Hf. }
  split.
  - pose proof (keeps_predict x w) as Hk. unfold parameters_of in Hk.
    injection Hk as Hh Hp Hs. apply Hsame; assumption.
  - apply Hsame; [reflexivity |].
    unfold without_caches, statics. cbn. rewrite map_map. reflexivity.
Qed.

End Methods.

(** ** The order of the calls and the results of the passes *)

Section Order.
Context `{E : Elt} {LM : LayerMath}.

Lemma topology_statics (w1 w2 : world) :
  statics (layers w1) = statics (layers w2) -> topology w2 -> topology w1.
Proof.
  unfold topology. intros Hs [Hn Ht].
  assert (forall ls : list (string * layer), map fst ls = map fst (statics ls)) as Hfst.
  { intros ls. unfold statics. rewrite map_map. reflexivity. }
  assert (forall ls : list (string * layer),
            map (fun kl => tag_of (kind (snd kl))) ls
            = map (fun ks => tag_of (fst (fst (snd ks)))) (statics ls)) as Htag.
  { intros ls. unfold statics. rewrite map_map. reflexivity. }
  rewrite Hfst, Htag in *. rewrite Hs. auto.
Qed.

Lemma keeps_topology {A : Type} (m : M A) (w : world) :
  keeps_parameters m -> topology w -> topology (snd (m w)).
Proof.
  intros Hk. apply topology_statics.
  specialize (Hk w). unfold parameters_of in Hk. congruence.
Qed.

Lemma topology_inv (w : world) :
  topology w ->
  exists l1 l2 l3 l4 l5 l6 l7 l8 : layer,
    layers w = [ ("Conv1", l1); ("Relu1", l2); ("Pool1", l3); ("Affine1", l4);
                 ("Relu2", l5); ("Affine2", l6); ("Relu3", l7);
                 ("Affine3", l8) ]%string
    /\ tag_of (kind l1) = TConvolution /\ tag_of (kind l4) = TAffine
    /\ tag_of (kind l6) = TAffine /\ tag_of (kind l8) = TAffine.
Proof.
  unfold topology, layer_names, layer_tags. intros [Hn Ht].
  destruct (layers w) as [|[n1 l1] ls]; [discriminate |].
  do 7 (destruct ls as [|[? ?] ls]; [discriminate |]).
  destruct ls; [| discriminate].
  cbn in Hn, Ht. simplify_eq. repeat eexists; eauto.
Qed.

Lemma predict_calls (x : ndarray) (w : world) :
  topology w ->
  exists n : nat,
    (n <= length forward_calls)%nat
    /\ calls (snd (predict x w)) = calls w ++ take n forward_calls
    /\ (is_ok (fst (predict x w)) = true -> n = length forward_calls).
Proof.
  intros Hw. unfold predict.
  destruct (forward_layers_calls (heap w) (layers w) x) as (n & Hle & Hev & Hn).
  destruct (forward_layers (heap w) (layers w) x) as [[r ls] ev].
  exists n. destruct Hw as [Hnames _].
  cbn [fst snd] in Hev, Hn. rewrite Hnames in Hev.
  unfold forward_calls. rewrite firstn_map, length_map.
  cbn [fst snd calls add_calls].
  rewrite <- (length_map fst), Hnames in Hle, Hn.
  repeat split; [exact Hle | by rewrite Hev | exact Hn].
Qed.

(** C5. On the fixed topology, [predict] returns what the eight forward
    functions give when composed in insertion order, making no call on
    the loss layer, and [loss] returns what the forward function of the
    loss layer gives on these scores and the labels. *)
Theorem predict_and_loss_are_compositions (x t : ndarray) (w : world) :
  topology w ->
  fst (predict x w) = predict_composed w x
  /\ fst (loss x t w) = loss_composed w x t
  /\ (exists n : nat,
        calls (snd (predict x w)) = calls w ++ take n forward_calls
        /\ (is_ok (fst (predict x w)) = true -> n = length forward_calls)).
Proof.
  intros Hw.
  assert (fst (predict x w) = predict_composed w x) as Hp.
  { destruct (topology_inv w Hw) as (l1 & l2 & l3 & l4 & l5 & l6 & l7 & l8 & Hl & _).
    unfold predict, predict_composed, forward_of. rewrite Hl.
    cbn [assoc_get String.eqb Ascii.eqb Bool.eqb forward_layers].
    repeat match goal with
           | |- context [layer_forward ?h ?l ?a] =>
               destruct (layer_forward h l a) as [[? ?]|?]; unfold_res;
               cbn [fst snd]; try reflexivity
           end. }
  split; [exact Hp | split].
  - unfold loss_composed. rewrite <- Hp. unfold loss. unfold_M.
    destruct (predict x w) as [[y|e] w1]; cbn [fst]; unfold_res; [| reflexivity].
    unfold last_layer_forward.
    destruct (softmax_loss_forward y t) as [[v c]|e]; reflexivity.
  - destruct (predict_calls x w Hw) as (n & _ & Hc & Hn).
    eauto.
Qed.

Lemma emits_bind {A B : Type} (m : M A) (k : A -> M B) (tr1 tr2 : list event) :
  emits m tr1 -> (forall a, emits (k a) tr2) -> emits (m ≫= k) (tr1 ++ tr2).
Proof.
  intros Hm Hk w Hw. destruct (Hm w Hw) as (Hw1 & n1 & Hle1 & Hc1 & Hok1).
  unfold_M. destruct (m w) as [[a|e] w1]; cbn [fst snd] in *.
  - destruct (Hk a w1 Hw1) as (Hw2 & n2 & Hle2 & Hc2 & Hok2).
    split; [exact Hw2 |]. exists (length tr1 + n2)%nat.
    rewrite Hok1 in Hc1 by reflexivity. rewrite firstn_all in Hc1.
    rewrite length_app, take_app_add, Hc2, Hc1, <- app_assoc.
    repeat split; [lia |]. intros Hr. rewrite (Hok2 Hr). reflexivity.
  - split; [exact Hw1 |]. exists n1.
    rewrite length_app, take_app_le by exact Hle1.
    repeat split; [lia | exact Hc1 | discriminate].
Qed.

Lemma emits_silent {A : Type} (m : M A) :
  (forall w, snd (m w) = w) -> emits m [].
Proof.
  intros Hm w Hw. rewrite Hm. split; [exact Hw |].
  exists 0%nat. cbn. rewrite app_nil_r. auto.
Qed.

Lemma emits_lift {A : Type} (r : res A) : emits (M_lift r) [].
Proof. by apply emits_silent. Qed.

Lemma emits_ret {A : Type} (a : A) : emits (mret a : M A) [].
Proof. by apply emits_silent. Qed.

Lemma emits_get_layer (key : string) : emits (get_layer key) [].
Proof.
  apply emits_silent. intros w. unfold get_layer.
  destruct (assoc_get key (layers w)); reflexivity.
Qed.

Lemma emits_predict (x : ndarray) : emits (predict x) forward_calls.
Proof.
  intros w Hw. split; [apply keeps_topology; [apply keeps_predict | exact Hw] |].
  destruct (predict_calls x w Hw) as (n & Hle & Hc & Hn).
  eauto.
Qed.

Lemma emits_last_layer_forward (y t : ndarray) :
  emits (last_layer_forward y t) [ELossForward].
Proof.
  intros w Hw.
  split; [apply keeps_topology; [apply keeps_last_layer_forward | exact Hw] |].
  exists 1%nat. unfold last_layer_forward.
  destruct (softmax_loss_forward y t) as [[v c]|e]; cbn; auto.
Qed.

Lemma emits_last_layer_backward (dout : ndarray) :
  emits (last_layer_backward dout) [ELossBackward dout].
Proof.
  intros w Hw.
  split; [apply keeps_topology; [apply keeps_last_layer_backward | exact Hw] |].
  exists 1%nat. cbn. auto.
Qed.

Lemma emits_backward_pass (dout : ndarray) :
  emits (fun w =>
           let '(r, ls, ev) := backward_layers (heap w) (rev (layers w)) dout in
           (r, add_calls ev (set_layers (rev ls) w)))
        (map EBackward (rev layer_names)).
Proof.
  intros w Hw.
  split; [apply (keeps_topology _ w (keeps_backward_pass dout) Hw) |].
  destruct (backward_layers_calls (heap w) (rev (layers w)) dout)
    as (n & Hle & Hev & Hn).
  destruct (backward_layers (heap w) (rev (layers w)) dout) as [[r ls] ev].
  exists n. destruct Hw as [Hnames _].
  cbn [fst snd] in Hev, Hn. rewrite map_rev, Hnames in Hev.
  rewrite <- (length_map fst), map_rev, Hnames in Hle, Hn.
  rewrite firstn_map, length_map. cbn [fst snd calls add_calls].
  repeat split; [exact Hle | by rewrite Hev | exact Hn].
Qed.

Lemma emits_loss (x t : ndarray) :
  emits (loss x t) (forward_calls ++ [ELossForward]).
Proof.
  unfold loss. apply emits_bind; [apply emits_predict |].
  intros y. apply emits_last_layer_forward.
Qed.

Lemma emits_eq {A : Type} (m : M A) (tr tr' : list event) :
  emits m tr -> tr = tr' -> emits m tr'.
Proof. by intros Hm <-. Qed.

Lemma emits_gradient (x t : ndarray) : emits (gradient x t) gradient_calls.
Proof.
  unfold gradient. eapply emits_eq.
  - repeat first [ apply emits_loss | apply emits_last_layer_backward
                 | apply emits_backward_pass | apply emits_get_layer
                 | apply emits_lift | apply emits_ret
                 | eapply emits_bind; [| intros ?]
                 | match goal with
                   | |- emits (let '(_, _) := ?p in _) _ => destruct p
                   end ].
  - reflexivity.
Qed.

Lemma cached_Forall_map (ls : list (string * layer)) :
  Forall (fun kl => is_Some (cached (snd kl))) ls
  <-> Forall is_Some (map (fun kl => cached (snd kl)) ls).
Proof. by rewrite Forall_map. Qed.

(** What a call of [gradient] that returns leaves behind. *)
Lemma gradient_Ok (x t : ndarray) (w w' : world)
    (grads : gmap string (option ndarray)) :
  topology w ->
  gradient x t w = (Ok grads, w') ->
  dom grads = param_keys
  /\ Forall (bound_to_layer w' grads) grad_sources
  /\ Forall (fun kl => is_Some (cached (snd kl))) (layers w')
  /\ is_Some (loss_cached (last_layer w')).
Proof.
  intros Hw Hg. unfold gradient in Hg.
  apply M_bind_Ok in Hg as (v & w1 & Hloss & Hg).
  apply M_bind_Ok in Hg as (dout & w2 & Hlb & Hg).
  apply M_bind_Ok in Hg as (dx & w3 & Hbw & Hg).
  (* the forward pass *)
  unfold loss in Hloss. apply M_bind_Ok in Hloss as (y & w0 & Hp & Hlf).
  unfold predict in Hp.
  pose proof (forward_layers_cached (heap w) (layers w) x) as Hc.
  pose proof (forward_layers_statics (heap w) (layers w) x) as Hs.
  destruct (forward_layers (heap w) (layers w) x) as [[r ls] ev].
  cbn [fst snd] in *. injection Hp as -> <-. specialize (Hc eq_refl).
  unfold last_layer_forward in Hlf.
  destruct (softmax_loss_forward y t) as [[v' c]|]; [| discriminate].
  injection Hlf as -> <-.
  unfold last_layer_backward in Hlb. cbn in Hlb. injection Hlb as Hd <-.
  (* the backward pass *)
  cbn in Hbw.
  pose proof (backward_layers_Ok (heap w) (rev ls) dout) as Hb.
  pose proof (backward_layers_statics (heap w) (rev ls) dout) as Hbs.
  destruct (backward_layers (heap w) (rev ls) dout) as [[rb lsb] evb].
  cbn [fst snd] in *. injection Hbw as -> <-.
  destruct (Hb eq_refl) as [Hbc Hbg]. clear Hb.
  assert (statics (rev lsb) = statics (layers w)) as Hs3.
  { unfold statics in *. by rewrite map_rev, Hbs, <- map_rev, rev_involutive. }
  assert (Forall (fun kl => is_Some (cached (snd kl))) (rev lsb)) as Hc3.
  { apply cached_Forall_map. rewrite map_rev, Hbc, <- map_rev, rev_involutive.
    by apply cached_Forall_map. }
  assert (Forall (fun kl => has_grads (snd kl)) (rev lsb)) as Hg3.
  { by apply Forall_rev. }
  (* the layers as [gradient] reads them *)
  match type of Hg with _ ?W3 = _ => set (w3 := W3) in * end.
  assert (layers w3 = rev lsb) as Hlay by reflexivity.
  assert (is_Some (loss_cached (last_layer w3))) as Hll by (cbn; eauto).
  rewrite <- Hlay in Hs3, Hc3, Hg3. clearbody w3.
  assert (topology w3) as Hw3 by (apply (topology_statics w3 w); assumption).
  destruct (topology_inv w3 Hw3)
    as (l1 & l2 & l3 & l4 & l5 & l6 & l7 & l8 & Hl & Ht1 & Ht4 & Ht6 & Ht8).
  rewrite Hl in Hc3, Hg3.
  repeat match goal with
         | H : Forall _ (_ :: _) |- _ => apply Forall_cons in H as [? H]
         end.
  unfold has_grads in *. cbn [snd] in *.
  destruct (kind l1) eqn:Hk1; try discriminate Ht1.
  destruct (kind l4) eqn:Hk4; try discriminate Ht4.
  destruct (kind l6) eqn:Hk6; try discriminate Ht6.
  destruct (kind l8) eqn:Hk8; try discriminate Ht8.
  repeat match goal with
         | H : is_Some _ /\ is_Some _ |- _ => destruct H as [[? ?] [? ?]]
         end.
  do 4 (let Hget := fresh "Hget" in
        let Hgr := fresh "Hgr" in
        apply M_bind_Ok in Hg as (? & ? & Hget & Hg);
        unfold get_layer in Hget; rewrite Hl in Hget;
        cbn [assoc_get String.eqb Ascii.eqb Bool.eqb] in Hget;
        injection Hget as <- <-;
        apply M_bind_Ok in Hg as ([? ?] & ? & Hgr & Hg);
        unfold M_lift, get_grads in Hgr;
        rewrite ?Hk1, ?Hk4, ?Hk6, ?Hk8 in Hgr;
        injection Hgr as <- <- <-).
  injection Hg as <- <-.
  split; [| split; [| split]].
  - rewrite !dom_insert_L, dom_empty_L. unfold param_keys. set_solver.
  - unfold grad_sources, bound_to_layer.
    repeat (apply Forall_cons_2 || apply Forall_nil_2);
      eexists _, _, _; cbn [fst snd]; rewrite Hl;
      cbn [assoc_get String.eqb Ascii.eqb Bool.eqb];
      (split; [reflexivity |]); (split; [eassumption |]);
      (split; [eassumption |]); split; simplify_map_eq; congruence.
  - rewrite Hl.
    repeat (apply Forall_cons_2; [assumption |]). apply Forall_nil_2.
  - exact Hll.
Qed.

End Order.

(** ** The quotient of two integers, rounded to a double and truncated *)

Section DoubleQuotient.

Lemma round_half_even_bounds (n d : Z) :
  0 <= n -> 0 < d ->
  n / d <= round_half_even n d <= n / d + 1
  /\ (round_half_even n d = n / d + 1 -> d <= 2 * (n mod d)).
Proof.
  intros Hn Hd. unfold round_half_even.
  destruct (Z.ltb_spec (2 * (n mod d)) d) as [H1 | H1]; [lia |].
  destruct (Z.ltb_spec d (2 * (n mod d))) as [H2 | H2]; [lia |].
  destruct (Z.even (n / d)); lia.
Qed.

Lemma int_truediv_small (a b : Z) :
  0 < a < b -> a < 2 ^ 53 ->
  (let '(m, e) := double_quot a b in int_of_double m e) = 0.
Proof.
  intros Hab Ha. unfold double_quot, log2_quot.
  destruct (Z.leb_spec b a) as [| _]; [lia |].
  set (j := Z.log2_up ((b + a - 1) / a)).
  assert (1 <= j) as Hj.
  { assert (1 < (b + a - 1) / a) as Hc.
    { apply Z.lt_le_trans with ((a + a) / a).
      - replace (a + a) with (2 * a) by lia. rewrite Z.div_mul by lia. lia.
      - apply Z.div_le_mono; lia. }
    pose proof (Z.log2_up_pos _ Hc). lia. }
  unfold scaled_quot. destruct (Z.leb_spec 0 (- j - 52)) as [| _]; [lia |].
  replace (- (- j - 52)) with (j + 52) by lia.
  unfold int_of_double. destruct (Z.leb_spec 0 (- j - 52)) as [| _]; [lia |].
  replace (- (- j - 52)) with (j + 52) by lia.
  set (T := 2 ^ (j + 52)).
  assert (2 ^ 53 <= T) as HT by (apply Z.pow_le_mono_r; lia).
  assert (0 < T) as HT0 by lia.
  destruct (round_half_even_bounds (a * T) b) as [[Hlo Hhi] Hup]; [nia | lia |].
  pose proof (Z.div_mod (a * T) b ltac:(lia)) as Hdm.
  pose proof (Z.mod_pos_bound (a * T) b ltac:(lia)) as Hmb.
  set (f := a * T / b) in *. set (r := (a * T) mod b) in *.
  set (m := round_half_even (a * T) b) in *.
  assert (0 <= f) as Hf0 by (apply Z.div_pos; nia).
  assert (f < T) as HfT by nia.
  apply Z.div_small. split; [lia |].
  destruct (Z.eq_dec m (f + 1)) as [Hm | Hm]; [| lia].
  specialize (Hup Hm).
  destruct (Z.eq_dec (f + 1) T) as [HfT1 | ?]; [| lia].
  exfalso.
  assert (T * (b - a) = b - r) as Heq by nia.
  assert (1 <= b - a) by lia.
  nia.
Qed.

Lemma round_scaled_quot (a b P Q : Z) :
  0 < b -> 0 < P -> 0 < Q -> P * Q = 2 ^ 52 -> 0 <= a < 2 ^ 53 ->
  Q <= a / b ->
  round_half_even (a * P) b / P = a / b.
Proof.
  intros Hb HP HQ HPQ Ha Hq.
  destruct (round_half_even_bounds (a * P) b) as [[Hlo Hhi] Hup]; [nia | lia |].
  pose proof (Z.div_mod (a * P) b ltac:(lia)) as Hdm.
  pose proof (Z.mod_pos_bound (a * P) b ltac:(lia)) as Hmb.
  pose proof (Z.div_mod a b ltac:(lia)) as Hdq.
  pose proof (Z.mod_pos_bound a b ltac:(lia)) as Hmq.
  set (f := a * P / b) in *. set (r := (a * P) mod b) in *.
  set (m := round_half_even (a * P) b) in *.
  set (q := a / b) in *. set (s := a mod b) in *.
  assert (q * P <= f < (q + 1) * P) as Hf.
  { split.
    - apply Z.div_le_lower_bound; [lia | nia].
    - apply Z.div_lt_upper_bound; [lia | nia]. }
  symmetry. apply Z.div_unique with (m - q * P); [| lia].
  left. split; [lia |].
  destruct (Z.eq_dec m (f + 1)) as [Hm | Hm]; [| lia].
  specialize (Hup Hm).
  destruct (Z.eq_dec (f + 1) ((q + 1) * P)) as [Heq | ?]; [| lia].
  exfalso.
  assert (P * ((q + 1) * b - a) = b - r) as Ht by nia.
  assert (1 <= (q + 1) * b - a) as Ht1 by lia.
  assert (2 * P <= b) as HbP by nia.
  assert (2 ^ 53 = 2 * (P * Q)) as H53 by (rewrite HPQ; reflexivity).
  assert (q * b <= a) by lia.
  assert (Q * (2 * P) <= q * b) by (apply Z.mul_le_mono_nonneg; lia).
  lia.
Qed.

Lemma int_truediv_large (a b : Z) :
  0 < b <= a -> a < 2 ^ 53 ->
  (let '(m, e) := double_quot a b in int_of_double m e) = a / b.
Proof.
  intros Hab Ha. unfold double_quot, log2_quot.
  destruct (Z.leb_spec b a) as [_ |]; [| lia].
  assert (1 <= a / b) as Hq1 by (apply Z.div_le_lower_bound; lia).
  assert (a / b < 2 ^ 53) as Hq53.
  { apply Z.le_lt_trans with a; [| lia]. apply Z.div_le_upper_bound; nia. }
  destruct (Z.log2_spec (a / b) ltac:(lia)) as [HL _].
  pose proof (Z.log2_nonneg (a / b)) as HL0.
  assert (Z.log2 (a / b) < 53) as HL53 by (apply Z.log2_lt_pow2; lia).
  set (L := Z.log2 (a / b)) in *.
  assert (2 ^ (52 - L) * 2 ^ L = 2 ^ 52) as HPQ
    by (rewrite <- Z.pow_add_r by lia; f_equal; lia).
  assert (0 < 2 ^ (52 - L)) as HP by (apply Z.pow_pos_nonneg; lia).
  assert (0 < 2 ^ L) as HQ by (apply Z.pow_pos_nonneg; lia).
  unfold scaled_quot.
  destruct (Z.leb_spec 0 (L - 52)) as [He | He]; unfold int_of_double.
  - destruct (Z.leb_spec 0 (L - 52)) as [_ |]; [| lia].
    assert (L = 52) as HL52 by lia. rewrite HL52 in *.
    change (2 ^ (52 - 52)) with 1 in *. rewrite !Z.mul_1_r.
    pose proof (round_scaled_quot a b 1 (2 ^ 52) ltac:(lia) ltac:(lia) ltac:(lia)
                  ltac:(lia) ltac:(lia) HL) as Hr.
    rewrite Z.mul_1_r, Z.div_1_r in Hr. exact Hr.
  - destruct (Z.leb_spec 0 (L - 52)) as [| _]; [lia |].
    replace (- (L - 52)) with (52 - L) by lia.
    apply (round_scaled_quot a b _ (2 ^ L)); try lia.
Qed.

Lemma py_int_truediv_exact (a b : Z) :
  0 <= a < 2 ^ 53 -> 0 < b -> py_int_truediv a b = Ok (a / b).
Proof.
  intros Ha Hb. unfold py_int_truediv.
  destruct (Z.eqb_spec b 0) as [| _]; [lia |].
  destruct (Z.eqb_spec a 0) as [-> | Ha0]; [rewrite Z.div_0_l by lia; reflexivity |].
  rewrite !Z.abs_eq by lia.
  rewrite !Z.sgn_pos by lia.
  destruct (Z.le_gt_cases b a) as [Hle | Hgt].
  - pose proof (int_truediv_large a b ltac:(lia) ltac:(lia)) as H.
    destruct (double_quot a b) as [m e]. rewrite H. f_equal. lia.
  - pose proof (int_truediv_small a b ltac:(lia) ltac:(lia)) as H.
    destruct (double_quot a b) as [m e]. rewrite H, Z.div_small by lia. reflexivity.
Qed.

Lemma int_of_double_nonneg (a b : Z) :
  0 < a -> 0 < b -> 0 <= (let '(m, e) := double_quot a b in int_of_double m e).
Proof.
  intros Ha Hb. unfold double_quot.
  destruct (scaled_quot a b (log2_quot a b - 52)) as [n d] eqn:Hs.
  assert (0 <= n /\ 0 < d) as [Hn Hd].
  { unfold scaled_quot in Hs. destruct (0 <=? log2_quot a b - 52) eqn:He.
    - injection Hs as <- <-. apply Z.leb_le in He. split; [lia |].
      apply Z.mul_pos_pos; [lia |]. apply Z.pow_pos_nonneg; lia.
    - injection Hs as <- <-. apply Z.leb_gt in He. split; [| lia].
      apply Z.mul_nonneg_nonneg; [lia |]. apply Z.pow_nonneg. lia. }
  destruct (round_half_even_bounds n d Hn Hd) as [[Hlo _] _].
  assert (0 <= n / d) by (apply Z.div_pos; lia).
  unfold int_of_double.
  destruct (Z.leb_spec 0 (log2_quot a b - 52)) as [He | He].
  - apply Z.mul_nonneg_nonneg; [lia |]. apply Z.pow_nonneg. lia.
  - apply Z.div_pos; [lia |]. apply Z.pow_pos_nonneg; lia.
Qed.

(** For a sample count below 2^53, [int(n / batch_size)] is the floor
    quotient. *)
Lemma py_int_truediv_floor (n : nat) (b : Z) :
  Z.of_nat n < 2 ^ 53 -> 0 < b ->
  py_int_truediv (Z.of_nat n) b = Ok (Z.of_nat n / b).
Proof. intros Hn Hb. apply py_int_truediv_exact; lia. Qed.

(** With a negative divisor the truncated quotient is not positive. *)
Lemma py_int_truediv_negative (a b : Z) :
  0 <= a -> b < 0 -> exists k, py_int_truediv a b = Ok k /\ k <= 0.
Proof.
  intros Ha Hb. unfold py_int_truediv.
  destruct (Z.eqb_spec b 0) as [| _]; [lia |].
  destruct (Z.eqb_spec a 0) as [-> | Ha0]; [exists 0; split; [reflexivity | lia] |].
  pose proof (int_of_double_nonneg (Z.abs a) (Z.abs b) ltac:(lia) ltac:(lia)) as Hk.
  destruct (double_quot (Z.abs a) (Z.abs b)) as [m e].
  eexists. split; [reflexivity |].
  rewrite Z.sgn_pos, Z.sgn_neg by lia. lia.
Qed.

End DoubleQuotient.

(** ** Chunks and [accuracy] *)

Section Chunks.
Context {A : Type}.

(** A Python slice from [i * size] to [(i + 1) * size] is the [i]-th
    chunk, cut short at the end of the list. *)
Lemma py_slice_chunk (l : list A) (size : Z) (i : nat) :
  0 < size ->
  py_slice l (Z.of_nat i * size) ((Z.of_nat i + 1) * size)
  = chunk (Z.to_nat size) i l.
Proof.
  intros Hs. unfold py_slice, chunk, clamp_index.
  set (n := Z.of_nat (length l)).
  assert (0 <= Z.of_nat i * size) as Hlo by nia.
  assert (0 <= (Z.of_nat i + 1) * size) as Hhi by nia.
  destruct (Z.ltb_spec (Z.of_nat i * size) 0); [lia |].
  destruct (Z.ltb_spec ((Z.of_nat i + 1) * size) 0); [lia |].
  assert (i * Z.to_nat size = Z.to_nat (Z.of_nat i * size))%nat as Hmul.
  { rewrite Z2Nat.inj_mul, Nat2Z.id by lia. reflexivity. }
  rewrite Hmul.
  destruct (Z.le_gt_cases n (Z.of_nat i * size)) as [Hge | Hlt].
  - (* the chunk starts past the end *)
    rewrite !Z.min_r by lia.
    rewrite (drop_ge l (Z.to_nat n)) by (subst n; lia).
    rewrite (drop_ge l (Z.to_nat (Z.of_nat i * size))) by (subst n; lia).
    by rewrite !take_nil.
  - rewrite (Z.min_l (Z.of_nat i * size)) by lia.
    destruct (Z.le_gt_cases ((Z.of_nat i + 1) * size) n) as [Hin | Hout].
    + rewrite Z.min_l by exact Hin. f_equal. lia.
    + rewrite Z.min_r by lia.
      rewrite !take_ge; [reflexivity | |]; rewrite length_drop; subst n; lia.
Qed.

Lemma chunk_length (l : list A) (size i : nat) :
  (i < length l / size)%nat -> length (chunk size i l) = size.
Proof.
  intros Hi. unfold chunk. rewrite length_take, length_drop.
  destruct (Nat.eq_dec size 0%nat) as [-> | Hs]; [reflexivity |].
  pose proof (Nat.Div0.mul_div_le (length l) size).
  assert ((i + 1) * size <= length l / size * size)%nat by (apply Nat.mul_le_mono_r; lia).
  lia.
Qed.

Lemma chunks_concat (l : list A) (size k : nat) :
  concat (map (fun i => chunk size i l) (seq 0 k)) = take (k * size) l.
Proof.
  induction k as [|k IH]; [reflexivity |].
  rewrite seq_S, map_app, concat_app, IH. cbn [map concat].
  rewrite app_nil_r. unfold chunk. rewrite take_take_drop.
  f_equal. lia.
Qed.

Lemma remainder_length (l : list A) (size : nat) :
  length (drop (length l / size * size) l) = (length l mod size)%nat.
Proof.
  rewrite length_drop.
  destruct (Nat.eq_dec size 0%nat) as [-> | Hs]; [cbn; lia |].
  pose proof (Nat.div_mod_eq (length l) size). lia.
Qed.

(** A chunk among the first [k] is a chunk of the first [k * size]
    items. *)
Lemma chunk_take (l : list A) (size k i : nat) :
  (i < k)%nat -> chunk size i (take (k * size) l) = chunk size i l.
Proof.
  intros Hi. unfold chunk. rewrite !take_drop_commute, take_take.
  do 2 f_equal. nia.
Qed.

End Chunks.

Section Accuracy.
Context `{E : Elt} {LM : LayerMath}.

Lemma label_vector_Arr (t t' : ndarray) :
  label_vector t = Ok t' -> exists ts, t' = Arr ts.
Proof.
  unfold label_vector. destruct (Z.eqb_spec (ndim t) 1) as [Hd | _].
  - intros [= <-]. destruct t as [v | ts]; [discriminate | eauto].
  - destruct t as [v | rows]; [discriminate |]. cbn.
    destruct (res_mapM argmax_row rows); [| discriminate].
    intros [= <-]. unfold int_array. eauto.
Qed.

(** The loop over indices visits the chunks. *)
Lemma accuracy_loop_chunks (xs ts : list ndarray) (batch_size : Z)
    (idx : list nat) (acc : Z) (w : world) :
  0 < batch_size ->
  accuracy_loop (Arr xs) (Arr ts) batch_size (map Z.of_nat idx) acc w
  = count_chunks xs ts (Z.to_nat batch_size) idx acc w.
Proof.
  intros Hb. revert acc w. induction idx as [|i idx IH]; intros acc w;
    [reflexivity |].
  cbn [map accuracy_loop count_chunks slice0].
  rewrite !py_slice_chunk by exact Hb.
  unfold_M.
  destruct (predict (Arr (chunk (Z.to_nat batch_size) i xs)) w) as [[y|e] w1];
    [| reflexivity].
  destruct (np_argmax1 y) as [y'|e]; [| reflexivity].
  destruct (np_sum_eq y' (Arr (chunk (Z.to_nat batch_size) i ts))) as [c|e];
    [| reflexivity].
  apply IH.
Qed.

Lemma accuracy_eq_chunks (x t : ndarray) (batch_size : Z) (w : world) :
  0 < batch_size ->
  Z.of_nat (length (items_of x)) < 2 ^ 53 ->
  accuracy x t batch_size w = accuracy_by_chunks x t batch_size w.
Proof.
  intros Hb Hn. unfold accuracy, accuracy_by_chunks.
  change (if ndim t =? 1 then Ok t else np_argmax1 t) with (label_vector t).
  destruct (label_vector t) as [t'|e] eqn:Ht; [| reflexivity].
  destruct (label_vector_Arr _ _ Ht) as [ts ->].
  destruct x as [v | xs]; [reflexivity |].
  unfold_M. cbn [shape0 items_of] in Hn |- *.
  rewrite py_int_truediv_floor by assumption. unfold py_range.
  rewrite accuracy_loop_chunks by exact Hb.
  reflexivity.
Qed.

(** The matches counted depend on the chunks visited only. *)
Lemma count_chunks_ext (xs xs' ts : list ndarray) (size : nat) (idx : list nat)
    (acc : Z) (w : world) :
  Forall (fun i => chunk size i xs' = chunk size i xs) idx ->
  count_chunks xs' ts size idx acc w = count_chunks xs ts size idx acc w.
Proof.
  intros Hidx. revert acc w.
  induction Hidx as [|i idx Hi _ IH]; intros acc w; [reflexivity |].
  cbn [count_chunks]. rewrite Hi. unfold_M.
  destruct (predict (Arr (chunk size i xs)) w) as [[y|e] w1]; [| reflexivity].
  destruct (np_argmax1 y) as [y'|e]; [| reflexivity].
  destruct (np_sum_eq y' (Arr (chunk size i ts))) as [c|e]; [| reflexivity].
  apply IH.
Qed.

Lemma nat_div_Z (n : nat) (b : Z) :
  0 < b -> Z.to_nat (Z.of_nat n / b) = (n / Z.to_nat b)%nat.
Proof.
  intros Hb. rewrite <- (Z2Nat.id b) at 1 by lia.
  rewrite <- Nat2Z.inj_div, Nat2Z.id. reflexivity.
Qed.

(** C4, as amended. For a positive [batch_size] and fewer than 2^53
    samples, [accuracy] takes the row-wise argmax of the labels unless
    they are one-dimensional, then visits exactly floor (N / batch_size)
    chunks, each of [batch_size] consecutive samples, which together are
    the first floor (N / batch_size) * batch_size samples; it counts the
    matches of the predictions of each chunk and divides their total by N.
    The N mod batch_size samples that remain are in no chunk. *)
Theorem accuracy_counts_full_chunks (x t : ndarray) (batch_size : Z) (w : world) :
  0 < batch_size ->
  Z.of_nat (length (items_of x)) < 2 ^ 53 ->
  let xs := items_of x in
  let size := Z.to_nat batch_size in
  let k := (length xs / size)%nat in
  accuracy x t batch_size w = accuracy_by_chunks x t batch_size w
  /\ py_int_truediv (Z.of_nat (length xs)) batch_size = Ok (Z.of_nat k)
  /\ Z.of_nat k = Z.of_nat (length xs) / batch_size
  /\ (forall i, (i < k)%nat -> length (chunk size i xs) = size)
  /\ concat (map (fun i => chunk size i xs) (seq 0 k)) = take (k * size) xs
  /\ length (drop (k * size) xs) = (length xs mod size)%nat.
Proof.
  intros Hb Hn xs size k. split; [by apply accuracy_eq_chunks |].
  assert (Z.of_nat k = Z.of_nat (length xs) / batch_size) as Hk.
  { subst k size. rewrite <- nat_div_Z by exact Hb.
    rewrite Z2Nat.id; [reflexivity |]. apply Z.div_pos; lia. }
  split; [rewrite Hk; by apply py_int_truediv_floor |].
  split; [| split; [| split]].
  - subst k size. rewrite <- nat_div_Z by exact Hb.
    rewrite Z2Nat.id; [reflexivity |]. apply Z.div_pos; lia.
  - intros i Hi. by apply chunk_length.
  - apply chunks_concat.
  - apply remainder_length.
Qed.

End Accuracy.

Section Remainder.
Context `{E : Elt} {LM : LayerMath}.

Lemma elements_of_nums (items : list ndarray) :
  forallb is_num items = true -> is_ok (elements_of items) = true.
Proof.
  unfold elements_of. induction items as [|a items IH]; [reflexivity |].
  cbn [forallb res_mapM]. intros [Ha Hi]%andb_prop.
  destruct a as [v|]; [| discriminate]. specialize (IH Hi).
  cbv [mbind res_mbind res_bind].
  destruct (res_mapM _ items); [reflexivity | discriminate].
Qed.

Lemma argmax_row_Ok (c : ndarray) (cols : list ndarray) :
  forallb is_num (c :: cols) = true -> is_ok (argmax_row (Arr (c :: cols))) = true.
Proof.
  intros Hr. pose proof (elements_of_nums (c :: cols) Hr) as Hel.
  unfold argmax_row. cbv [mbind res_mbind res_bind].
  destruct (elements_of (c :: cols)) as [[|v vs]|e] eqn:Hvs;
    [| reflexivity | discriminate].
  destruct c as [v|]; [| discriminate].
  unfold elements_of in Hvs. cbn [res_mapM] in Hvs.
  cbv [mbind res_mbind res_bind] in Hvs.
  destruct (res_mapM _ cols); discriminate.
Qed.

Lemma argmax_rows_Ok (rows : list ndarray) :
  forallb (fun r => match r with
                    | Arr (c :: cols) => forallb is_num (c :: cols)
                    | _ => false
                    end) rows = true ->
  is_ok (res_mapM argmax_row rows) = true.
Proof.
  induction rows as [|r rows IH]; [reflexivity |].
  cbn [forallb res_mapM]. intros [Hr Hrows]%andb_prop. specialize (IH Hrows).
  destruct r as [v | [|c cols]]; try discriminate.
  pose proof (argmax_row_Ok c cols Hr) as Hrow.
  cbv [mbind res_mbind res_bind].
  destruct (argmax_row (Arr (c :: cols))); [| discriminate].
  destruct (res_mapM argmax_row rows); [reflexivity | discriminate].
Qed.

(** The labels of the data provider always yield a label vector. *)
Lemma label_tensor_vector (t : ndarray) :
  label_tensor t -> is_ok (label_vector t) = true.
Proof.
  unfold label_tensor, label_vector. destruct t as [v | items]; cbn [is_vector is_matrix].
  - intros [? | ?]; discriminate.
  - intros [Hv | Hm].
    + destruct items as [|a items]; [reflexivity |].
      cbn [forallb] in Hv. apply andb_prop in Hv as [Ha _].
      destruct a; [reflexivity | discriminate].
    + destruct (ndim (Arr items) =? 1); [reflexivity |].
      cbn [np_argmax1]. cbv [mbind res_mbind res_bind].
      pose proof (argmax_rows_Ok items Hm) as Hok.
      destruct (res_mapM argmax_row items); [reflexivity | discriminate].
Qed.

(** C8, as amended. For fewer than 2^53 samples the matches are counted
    inside the complete chunks only while their total is divided by the
    number of all samples: two batches of the same length that agree on
    their complete chunks get the same accuracy, whatever their remaining
    samples are. In particular a batch of at least one and fewer than
    [batch_size] samples gets the accuracy 0 for any label tensor, without
    a single prediction being made. *)
Theorem remainder_counts_as_missed (xs : list ndarray) (t : ndarray)
    (batch_size : Z) (w : world) :
  0 < batch_size ->
  Z.of_nat (length xs) < 2 ^ 53 ->
  let size := Z.to_nat batch_size in
  let k := (length xs / size)%nat in
  (forall xs' : list ndarray,
      length xs' = length xs ->
      take (k * size) xs' = take (k * size) xs ->
      accuracy (Arr xs') t batch_size w = accuracy (Arr xs) t batch_size w)
  /\ ((0 < length xs)%nat -> Z.of_nat (length xs) < batch_size ->
      accuracy (Arr xs) t batch_size w
      = (res_map (fun _ => Qmake 0 (Z.to_pos (Z.of_nat (length xs))))
                 (label_vector t), w)
      /\ (label_tensor t ->
          exists q : Q,
            accuracy (Arr xs) t batch_size w = (Ok q, w) /\ (q == 0)%Q)).
Proof.
  intros Hb Hn size k. split.
  - intros xs' Hlen Htake.
    rewrite !accuracy_eq_chunks by (cbn [items_of]; first [exact Hb | lia]).
    unfold accuracy_by_chunks. unfold_M.
    destruct (label_vector t) as [t'|e]; [| reflexivity].
    cbn [shape0 items_of]. rewrite Hlen.
    rewrite (count_chunks_ext xs xs'); [reflexivity |].
    apply Forall_forall. intros i Hi%elem_of_seq.
    rewrite nat_div_Z in Hi by exact Hb. subst size k.
    rewrite <- (chunk_take xs' _ (length xs / Z.to_nat batch_size) i) by lia.
    rewrite <- (chunk_take xs _ (length xs / Z.to_nat batch_size) i) by lia.
    by rewrite Htake.
  - intros Hpos Hsmall.
    assert (accuracy (Arr xs) t batch_size w
            = (res_map (fun _ => Qmake 0 (Z.to_pos (Z.of_nat (length xs))))
                       (label_vector t), w)) as Hacc.
    { unfold accuracy.
      change (if ndim t =? 1 then Ok t else np_argmax1 t) with (label_vector t).
      unfold_M. destruct (label_vector t) as [t'|e]; [| reflexivity].
      cbn [shape0]. rewrite py_int_truediv_floor by assumption.
      unfold py_range, py_float_div.
      rewrite Z.div_small by lia. cbn [Z.to_nat seq map accuracy_loop].
      destruct (Z.eqb_spec (Z.of_nat (length xs)) 0); [lia | reflexivity]. }
    split; [exact Hacc |].
    intros Ht%label_tensor_vector. rewrite Hacc.
    destruct (label_vector t) as [t'|e]; [| discriminate].
    eexists. split; reflexivity.
Qed.

End Remainder.

(** ** [load_params] *)

Section Loading.
Context `{E : Elt} {LM : LayerMath}.

(** What the first loop of [load_params] leaves: every loaded array is a
    new object, under its key; nothing else has changed. *)
Lemma store_loaded_spec (loaded : list (string * ndarray)) (w : world) :
  NoDup (map fst loaded) ->
  layers (store_loaded loaded w) = layers w
  /\ (forall key a, (key, a) ∈ loaded ->
        exists r, params (store_loaded loaded w) !! key = Some r
                  /\ heap (store_loaded loaded w) !! r = Some a
                  /\ r ∉ dom (heap w))
  /\ (forall r, r ∈ dom (heap w) ->
        heap (store_loaded loaded w) !! r = heap w !! r)
  /\ (forall key, key ∉ map fst loaded ->
        params (store_loaded loaded w) !! key = params w !! key).
Proof.
  revert w. induction loaded as [|[key val] loaded IH]; intros w Hnd.
  - repeat split; try reflexivity. intros key a Hin. by apply elem_of_nil in Hin.
  - cbn [map fst] in Hnd. apply NoDup_cons in Hnd as [Hkey Hnd].
    cbn [store_loaded alloc].
    set (r0 := fresh (dom (heap w))).
    set (w1 := set_params (<[key:=r0]> (params w)) (set_heap (<[r0:=val]> (heap w)) w)).
    destruct (IH w1 Hnd) as (Hl & Hin & Hold & Hother).
    assert (r0 ∉ dom (heap w)) as Hfresh by apply is_fresh.
    assert (dom (heap w1) = {[r0]} ∪ dom (heap w)) as Hdom
      by (subst w1; cbn; apply dom_insert_L).
    split; [exact Hl | split; [| split]].
    + intros key' a [[= -> ->] | Hrest]%elem_of_cons.
      * exists r0. rewrite Hother by exact Hkey.
        rewrite Hold by (rewrite Hdom; set_solver).
        subst w1. cbn. by rewrite !lookup_insert_eq.
      * destruct (Hin key' a Hrest) as (r & Hp & Hh & Hr).
        exists r. repeat split; [exact Hp | exact Hh |].
        rewrite Hdom in Hr. set_solver.
    + intros r Hr. rewrite Hold by (rewrite Hdom; set_solver).
      subst w1. cbn. apply lookup_insert_ne. set_solver.
    + intros key' Hk. cbn [map fst] in Hk. apply not_elem_of_cons in Hk as [Hne Hk].
      rewrite Hother by exact Hk. subst w1. cbn. by apply lookup_insert_ne.
Qed.

Lemma param_key_names :
  ("W" +:+ py_str (0 + 1), "b" +:+ py_str (0 + 1),
   ("W" +:+ py_str (1 + 1), "b" +:+ py_str (1 + 1)),
   ("W" +:+ py_str (2 + 1), "b" +:+ py_str (2 + 1)),
   ("W" +:+ py_str (3 + 1), "b" +:+ py_str (3 + 1)))
  = ("W1", "b1", ("W2", "b2"), ("W3", "b3"), ("W4", "b4"))%string.
Proof. vm_compute. reflexivity. Qed.

Lemma assoc_get_update {A : Type} (key : string) (f : A -> A)
    (d : list (string * A)) :
  assoc_get key (assoc_update key f d) = f <$> assoc_get key d.
Proof.
  induction d as [|[k v] d IH]; [reflexivity |].
  cbn [assoc_update assoc_get].
  destruct (String.eqb k key) eqn:Hk; cbn [assoc_get]; rewrite Hk;
    [reflexivity | exact IH].
Qed.

(** One round of the second loop of [load_params]. *)
Lemma rebind_step (i : Z) (key : string) (keys : list (Z * string)) (w : world)
    (rW rb : loc) (l : layer) :
  params w !! ("W" +:+ py_str (i + 1)) = Some rW ->
  params w !! ("b" +:+ py_str (i + 1)) = Some rb ->
  assoc_get key (layers w) = Some l ->
  rebind_layers ((i, key) :: keys) w
  = rebind_layers keys
      (set_layers (assoc_update key (set_b rb)
                     (assoc_update key (set_W rW) (layers w))) w).
Proof.
  intros HW Hb Hl. cbn [rebind_layers]. unfold_M. unfold get_param, get_layer.
  rewrite HW, Hl. cbn [params set_layers layers]. rewrite Hb.
  cbn [set_layers layers]. rewrite assoc_get_update, Hl. reflexivity.
Qed.

Lemma elem_of_fst_loaded (loaded : list (string * ndarray)) (key : string) :
  key ∈ map fst loaded -> exists a, (key, a) ∈ loaded.
Proof.
  intros ([k a] & -> & Hin)%list_elem_of_fmap. eauto.
Qed.

(** C9. When the dictionary read from the file has the eight keys, on
    the fixed topology [load_params] returns, the parameter dictionary
    holds the loaded arrays under W1..W4 and b1..b4, and [W] and [b] of
    Conv1, Affine1, Affine2 and Affine3 refer to these very objects, so
    that the next forward pass reads the loaded values. *)
Theorem load_params_rebinds (loaded : list (string * ndarray)) (w : world) :
  topology w ->
  NoDup (map fst loaded) ->
  (forall key, key ∈ param_keys -> key ∈ map fst loaded) ->
  fst (load_params loaded w) = Ok tt
  /\ Forall (rebound_to w (snd (load_params loaded w)) loaded) grad_sources
  /\ topology (snd (load_params loaded w))
  /\ (forall r, r ∈ dom (heap w) ->
        heap (snd (load_params loaded w)) !! r = heap w !! r).
Proof.
  intros Hw Hnd Hkeys.
  destruct (store_loaded_spec loaded w Hnd) as (Hl & Hin & Hold & _).
  assert (forall key, key ∈ param_keys ->
            exists a r, (key, a) ∈ loaded
                        /\ params (store_loaded loaded w) !! key = Some r
                        /\ heap (store_loaded loaded w) !! r = Some a
                        /\ r ∉ dom (heap w)) as Hget.
  { intros key Hk. destruct (elem_of_fst_loaded _ _ (Hkeys key Hk)) as [a Ha].
    destruct (Hin key a Ha) as (r & ? & ? & ?). eauto 10. }
  destruct (Hget "W1"%string) as (aW1 & rW1 & ? & HW1 & ? & ?); [set_solver |].
  destruct (Hget "b1"%string) as (ab1 & rb1 & ? & Hb1 & ? & ?); [set_solver |].
  destruct (Hget "W2"%string) as (aW2 & rW2 & ? & HW2 & ? & ?); [set_solver |].
  destruct (Hget "b2"%string) as (ab2 & rb2 & ? & Hb2 & ? & ?); [set_solver |].
  destruct (Hget "W3"%string) as (aW3 & rW3 & ? & HW3 & ? & ?); [set_solver |].
  destruct (Hget "b3"%string) as (ab3 & rb3 & ? & Hb3 & ? & ?); [set_solver |].
  destruct (Hget "W4"%string) as (aW4 & rW4 & ? & HW4 & ? & ?); [set_solver |].
  destruct (Hget "b4"%string) as (ab4 & rb4 & ? & Hb4 & ? & ?); [set_solver |].
  clear Hget Hin Hkeys.
  destruct (topology_inv w Hw)
    as (l1 & l2 & l3 & l4 & l5 & l6 & l7 & l8 & Hlay & Ht1 & Ht4 & Ht6 & Ht8).
  rewrite Hlay in Hl.
  set (w1 := store_loaded loaded w) in *.
  assert (load_params loaded w
          = (Ok tt,
             set_layers
               [ ("Conv1", set_b rb1 (set_W rW1 l1)); ("Relu1", l2);
                 ("Pool1", l3); ("Affine1", set_b rb2 (set_W rW2 l4));
                 ("Relu2", l5); ("Affine2", set_b rb3 (set_W rW3 l6));
                 ("Relu3", l7);
                 ("Affine3", set_b rb4 (set_W rW4 l8)) ]%string w1)) as Hload.
  { unfold load_params. unfold_M. fold w1.
    change (py_enumerate ["Conv1"; "Affine1"; "Affine2"; "Affine3"]%string)
      with [(0, "Conv1"); (1, "Affine1"); (2, "Affine2"); (3, "Affine3")]%string.
    rewrite (rebind_step 0 _ _ _ rW1 rb1 l1);
      [| exact HW1 | exact Hb1 | by rewrite Hl].
    rewrite (rebind_step 1 _ _ _ rW2 rb2 l4);
      [| exact HW2 | exact Hb2 | cbn [layers set_layers]; by rewrite Hl].
    rewrite (rebind_step 2 _ _ _ rW3 rb3 l6);
      [| exact HW3 | exact Hb3 | cbn [layers set_layers]; by rewrite Hl].
    rewrite (rebind_step 3 _ _ _ rW4 rb4 l8);
      [| exact HW4 | exact Hb4 | cbn [layers set_layers]; by rewrite Hl].
    cbn [rebind_layers layers set_layers]. rewrite Hl. reflexivity. }
  rewrite Hload. cbn [fst snd].
  split; [reflexivity | split; [| split]].
  - unfold grad_sources, rebound_to.
    repeat (apply Forall_cons_2 || apply Forall_nil_2);
      eexists _, _, _, _, _; cbn [fst snd layers set_layers params heap];
      cbn [assoc_get String.eqb Ascii.eqb Bool.eqb];
      (split; [reflexivity |]); (split; [eassumption |]);
      (split; [eassumption |]); (split; [eassumption |]);
      (split; [eassumption |]); (split; [reflexivity |]);
      (split; [reflexivity |]);
      cbn [deref W b set_W set_b];
      repeat match goal with
             | H : heap w1 !! _ = Some _ |- _ => rewrite H; clear H
             end;
      auto.
  - destruct Hw as [_ Htags]. rewrite Hlay in Htags.
    split; [reflexivity | exact Htags].
  - intros r Hr. cbn [heap set_layers]. by apply Hold.
Qed.

End Loading.

(** ** The first update of Adam *)

Section AdamFirstUpdate.
Local Open Scope R_scope.

Lemma one_minus_beta2_pos : 0 < 1 - Adam.default_beta2.
Proof. unfold Adam.default_beta2. lra. Qed.

Lemma sqrt_one_minus_beta2_pos : 0 < sqrt (1 - Adam.default_beta2).
Proof. apply sqrt_lt_R0, one_minus_beta2_pos. Qed.

(** sqrt (1 - beta2) lies below 1/30. *)
Lemma sqrt_one_minus_beta2_small : sqrt (1 - Adam.default_beta2) < 1 / 30.
Proof.
  replace (1 / 30) with (sqrt ((1 / 30) * (1 / 30))) by (apply sqrt_square; lra).
  apply sqrt_lt_1; unfold Adam.default_beta2; lra.
Qed.

Lemma eps_pos : 0 < Adam.eps.
Proof. unfold Adam.eps. lra. Qed.

(** What the rule computes at the first step is [first_delta]. *)
Lemma first_step_delta (lr pi gi : R) :
  pi - Adam.lr_t (Adam.init lr) 1
       * (0 + (1 - Adam.default_beta1) * (gi - 0))
       / (sqrt (0 + (1 - Adam.default_beta2) * (gi * gi - 0)) + Adam.eps)
  - pi
  = Adam.first_delta lr gi.
Proof.
  unfold Adam.lr_t, Adam.first_delta. cbn [Adam.lr Adam.beta1 Adam.beta2 Adam.init].
  replace (0 + (1 - Adam.default_beta2) * (gi * gi - 0))
    with ((1 - Adam.default_beta2) * Rsqr gi) by (unfold Rsqr; ring).
  rewrite sqrt_mult by (try apply Rle_0_sqr; pose proof one_minus_beta2_pos; lra).
  rewrite sqrt_Rsqr_abs.
  replace (Adam.default_beta2 ^ 1) with Adam.default_beta2 by ring.
  replace (Adam.default_beta1 ^ 1) with Adam.default_beta1 by ring.
  pose proof sqrt_one_minus_beta2_pos as Hs. pose proof eps_pos as He.
  pose proof (Rabs_pos gi) as Hg.
  assert (0 < sqrt (1 - Adam.default_beta2) * Rabs gi + Adam.eps) as Hd by nra.
  unfold Adam.default_beta1 in *. field. lra.
Qed.

(** [first_delta] is the step -lr * sign g, up to the floor eps. *)
Lemma first_delta_near_sign (lr g : R) :
  0 <= lr -> g <> 0 ->
  Rabs (Adam.first_delta lr g - (- lr * Adam.sign g))
  <= lr * Adam.eps / (sqrt (1 - Adam.default_beta2) * Rabs g).
Proof.
  intros Hlr Hg. unfold Adam.first_delta, Adam.sign.
  pose proof sqrt_one_minus_beta2_pos as Hs. pose proof eps_pos as He.
  set (s := sqrt (1 - Adam.default_beta2)) in *.
  assert (0 < Rabs g) as Hag by (by apply Rabs_pos_lt).
  set (a := s * Rabs g). assert (0 < a) as Ha by (subst a; nra).
  assert (lr * Adam.eps / (a + Adam.eps) <= lr * Adam.eps / a) as Hbound.
  { unfold Rdiv. apply Rmult_le_compat_l; [nra |].
    apply Rinv_le_contravar; lra. }
  destruct (Rlt_dec 0 g) as [Hpos | Hnpos].
  - fold a.
    assert (s * g = a) as -> by (subst a; rewrite (Rabs_right g) by lra; ring).
    replace (- (lr * a / (a + Adam.eps)) - - lr * 1)
      with (lr * Adam.eps / (a + Adam.eps)) by (field; lra).
    rewrite Rabs_right; [exact Hbound |].
    apply Rle_ge. unfold Rdiv.
    apply Rmult_le_pos; [nra | left; apply Rinv_0_lt_compat; lra].
  - destruct (Rlt_dec g 0) as [Hneg | Hnneg]; [| lra]. fold a.
    assert (s * g = - a) as -> by (subst a; rewrite (Rabs_left g) by lra; ring).
    replace (- (lr * - a / (a + Adam.eps)) - - lr * -1)
      with (- (lr * Adam.eps / (a + Adam.eps))) by (field; lra).
    rewrite Rabs_Ropp, Rabs_right; [exact Hbound |].
    apply Rle_ge. unfold Rdiv.
    apply Rmult_le_pos; [nra | left; apply Rinv_0_lt_compat; lra].
Qed.

(** The entry of a parameter after the first update. *)
Lemma first_update_entry (lr : R) (params grads : gmap string (list R))
    (key : string) (p g : list R) (i : nat) (pi gi : R) :
  params !! key = Some p -> grads !! key = Some g ->
  p !! i = Some pi -> g !! i = Some gi ->
  exists p' : list R,
    snd (Adam.update (Adam.init lr) params grads) !! key = Some p'
    /\ p' !! i
       = Some (pi - Adam.lr_t (Adam.init lr) 1
                    * (0 + (1 - Adam.default_beta1) * (gi - 0))
                    / (sqrt (0 + (1 - Adam.default_beta2) * (gi * gi - 0))
                       + Adam.eps)).
Proof.
  intros Hp Hg Hpi Hgi. unfold Adam.update.
  cbn [snd Adam.m Adam.v Adam.init Adam.iter Adam.beta1 Adam.beta2 default].
  rewrite map_lookup_imap, Hp. cbn [mbind option_bind].
  rewrite !map_lookup_imap, !lookup_fmap, Hp, Hg. cbn [fmap option_fmap option_map mbind option_bind].
  eexists. split; [reflexivity |].
  unfold Adam.step_param, Adam.step_m, Adam.step_v, Adam.zeros_like.
  rewrite lookup_zip_with, Hpi. cbn [mbind option_bind].
  rewrite !lookup_zip_with.
  assert (replicate (length p) 0 !! i = Some 0) as ->.
  { apply lookup_replicate_2. by apply lookup_lt_Some in Hpi. }
  rewrite Hgi. reflexivity.
Qed.

(** C6, as amended. From zero moments and step counter 0, one update
    with gradient g follows the rule m <- m + (1 - beta1)(g - m),
    v <- v + (1 - beta2)(g^2 - v), param <- param - lr_t * m / (sqrt v + eps)
    with lr_t = lr * sqrt (1 - beta2^t) / (1 - beta1^t) and t = 1; every
    update increments the one step counter by one. The change of the
    parameter is -lr * sqrt (1 - beta2) * g / (sqrt (1 - beta2) * |g| + eps)
    elementwise, which is -lr * sign g up to the floor eps: the two differ
    by at most lr * eps / (sqrt (1 - beta2) * |g|). *)
Theorem adam_first_update_is_lr_sign (lr : R) (params grads : gmap string (list R))
    (key : string) (p g : list R) (i : nat) (pi gi : R) :
  params !! key = Some p -> grads !! key = Some g ->
  p !! i = Some pi -> g !! i = Some gi ->
  (forall st ps gs, Adam.iter (fst (Adam.update st ps gs)) = S (Adam.iter st))
  /\ Adam.iter (fst (Adam.update (Adam.init lr) params grads)) = 1%nat
  /\ exists (p' : list R) (pi' : R),
       snd (Adam.update (Adam.init lr) params grads) !! key = Some p'
       /\ p' !! i = Some pi'
       /\ pi' = pi - Adam.lr_t (Adam.init lr) 1
                     * (0 + (1 - Adam.default_beta1) * (gi - 0))
                     / (sqrt (0 + (1 - Adam.default_beta2) * (gi * gi - 0))
                        + Adam.eps)
       /\ pi' - pi = Adam.first_delta lr gi
       /\ (0 <= lr -> gi <> 0 ->
           Rabs (pi' - pi - (- lr * Adam.sign gi))
           <= lr * Adam.eps / (sqrt (1 - Adam.default_beta2) * Rabs gi)).
Proof.
  intros Hp Hg Hpi Hgi. split; [reflexivity | split; [reflexivity |]].
  destruct (first_update_entry lr params grads key p g i pi gi Hp Hg Hpi Hgi)
    as (p' & Hp' & Hpi').
  exists p'. eexists. split; [exact Hp' | split; [exact Hpi' |]].
  split; [reflexivity |].
  rewrite first_step_delta. split; [reflexivity |].
  apply first_delta_near_sign.
Qed.

(** The counterexample to C6: for lr = 0.001 and g = 1 the parameter
    moves by about -0.001, more than twice the learning rate away from the
    announced -lr * sign g * (1 - beta1) / sqrt (1 - beta2), which is
    about -0.00316. *)
Lemma adam_announced_delta_is_off :
  exists (p' : list R) (p1 : R),
    snd (Adam.update (Adam.init (1 / 1000)) {["W1" := [0]]} {["W1" := [1]]})
      !! "W1" = Some p'
    /\ p' !! 0%nat = Some p1
    /\ p1 - 0 = Adam.first_delta (1 / 1000) 1
    /\ - (1 / 1000) <= p1 - 0
    /\ Adam.announced_delta (1 / 1000) 1 < - (3 / 1000)
    /\ 2 * (1 / 1000) < Rabs (p1 - 0 - Adam.announced_delta (1 / 1000) 1).
Proof.
  destruct (first_update_entry (1 / 1000) {["W1" := [0]]} {["W1" := [1]]}
              "W1" [0] [1] 0%nat 0 1) as (p' & Hp' & Hp1);
    try apply lookup_singleton_eq; try reflexivity.
  exists p'. eexists. split; [exact Hp' | split; [exact Hp1 |]].
  rewrite first_step_delta.
  pose proof sqrt_one_minus_beta2_pos as Hs.
  pose proof sqrt_one_minus_beta2_small as Hsmall.
  pose proof eps_pos as He.
  assert (- (1 / 1000) <= Adam.first_delta (1 / 1000) 1) as Hlow.
  { unfold Adam.first_delta. rewrite Rabs_R1, !Rmult_1_r.
    set (s := sqrt (1 - Adam.default_beta2)) in *.
    apply Ropp_le_contravar.
    apply (Rmult_le_reg_r (s + Adam.eps)); [lra |].
    unfold Rdiv. rewrite Rmult_assoc, Rinv_l by lra. nra. }
  assert (Adam.announced_delta (1 / 1000) 1 < - (3 / 1000)) as Hhigh.
  { unfold Adam.announced_delta, Adam.sign, Adam.default_beta1.
    destruct (Rlt_dec 0 1) as [_ | ?]; [| lra].
    set (s := sqrt (1 - Adam.default_beta2)) in *.
    apply (Rmult_lt_reg_r s); [lra |].
    unfold Rdiv. rewrite Rmult_assoc, Rinv_l by lra. nra. }
  split; [reflexivity | split; [exact Hlow | split; [exact Hhigh |]]].
  rewrite Rabs_right; lra.
Qed.

End AdamFirstUpdate.

(** ** Witnesses on the small network *)

Lemma small_world_topology : topology small_world.
Proof. split; reflexivity. Qed.

Lemma accuracy_counts_full_chunks_witness :
  0 < 2
  /\ Z.of_nat (length (items_of x3)) < 2 ^ 53
  /\ accuracy x3 t3 2 small_world = accuracy_by_chunks x3 t3 2 small_world
  /\ fst (accuracy x3 t3 2 small_world) = Ok (Qmake 2 3)
  /\ py_int_truediv 3 2 = Ok 1
  /\ concat (map (fun i => chunk 2 i (items_of x3)) (seq 0 1))
     = take 2 (items_of x3)
  /\ length (drop 2 (items_of x3)) = 1%nat.
Proof.
  assert (0 < 2) as Hb by lia.
  assert (Z.of_nat (length (items_of x3)) < 2 ^ 53) as Hn by reflexivity.
  destruct (accuracy_counts_full_chunks x3 t3 2 small_world Hb Hn)
    as (Heq & Hk & _ & _ & Hcat & Hrem).
  split; [exact Hb | split; [exact Hn | split; [exact Heq |]]].
  split; [vm_compute; reflexivity |].
  split; [exact Hk | split; [exact Hcat | exact Hrem]].
Defined.

(** The counterexample to C4: for N = 2^55 - 1 samples and a batch size
    of 2^55 the quotient N / batch_size is the double 1.0, so that the loop
    of [accuracy] runs over [range(1)], one chunk, while
    floor (N / batch_size) is 0. *)
Lemma rounded_quotient_adds_a_chunk :
  py_range <$> py_int_truediv (2 ^ 55 - 1) (2 ^ 55) = Ok [0]
  /\ (2 ^ 55 - 1) / 2 ^ 55 = 0
  /\ py_range ((2 ^ 55 - 1) / 2 ^ 55) = [].
Proof. repeat split; vm_compute; reflexivity. Qed.

Lemma predict_and_loss_are_compositions_witness :
  topology small_world
  /\ fst (predict x3 small_world) = predict_composed small_world x3
  /\ fst (predict x3 small_world) = Ok x3
  /\ fst (loss x3 t3 small_world) = loss_composed small_world x3 t3.
Proof.
  assert (topology small_world) as Hw by (split; reflexivity).
  destruct (predict_and_loss_are_compositions x3 t3 small_world Hw)
    as (Hp & Hl & _).
  split; [exact Hw | split; [exact Hp | split; [| exact Hl]]].
  vm_compute. reflexivity.
Defined.

Lemma remainder_counts_as_missed_witness :
  0 < default_batch_size
  /\ Z.of_nat (length (items_of x3)) < 2 ^ 53
  /\ (0 < length (items_of x3))%nat
  /\ Z.of_nat (length (items_of x3)) < default_batch_size
  /\ label_tensor t3_one_hot
  /\ exists q : Q,
       accuracy x3 t3_one_hot default_batch_size small_world = (Ok q, small_world)
       /\ (q == 0)%Q.
Proof.
  assert (0 < default_batch_size) as Hb by reflexivity.
  assert (0 < length (items_of x3))%nat as Hpos by (cbn; lia).
  assert (Z.of_nat (length (items_of x3)) < default_batch_size) as Hsmall
    by reflexivity.
  assert (label_tensor t3_one_hot) as Ht by (right; reflexivity).
  assert (Z.of_nat (length (items_of x3)) < 2 ^ 53) as Hn by reflexivity.
  destruct (remainder_counts_as_missed (items_of x3) t3_one_hot
              default_batch_size small_world Hb Hn) as [_ Hzero].
  destruct (Hzero Hpos Hsmall) as [_ Hq].
  split; [exact Hb | split; [exact Hn |]].
  split; [exact Hpos | split; [exact Hsmall | split; [exact Ht |]]].
  exact (Hq Ht).
Defined.

Lemma load_params_rebinds_witness :
  topology small_world
  /\ NoDup (map fst small_file)
  /\ fst (load_params small_file small_world) = Ok tt
  /\ Forall (rebound_to small_world (snd (load_params small_file small_world))
               small_file) grad_sources.
Proof.
  assert (topology small_world) as Hw by (split; reflexivity).
  assert (NoDup (map fst small_file)) as Hnd.
  { refine (bool_decide_unpack (NoDup (map fst small_file)) _).
    vm_compute. exact I. }
  assert (forall key, key ∈ param_keys -> key ∈ map fst small_file) as Hkeys.
  { intros key Hk. unfold param_keys in Hk. cbn. set_solver. }
  destruct (load_params_rebinds small_file small_world Hw Hnd Hkeys)
    as (Hok & Hre & _).
  split; [exact Hw | split; [exact Hnd | split; [exact Hok | exact Hre]]].
Defined.

Lemma adam_first_update_is_lr_sign_witness :
  exists (p' : list R) (p1 : R),
    snd (Adam.update (Adam.init (1 / 1000)) {["W1" := [0%R]]} {["W1" := [1%R]]})
      !! "W1" = Some p'
    /\ p' !! 0%nat = Some p1
    /\ (p1 - 0 = Adam.first_delta (1 / 1000) 1)%R
    /\ (Rabs (p1 - 0 - - (1 / 1000) * Adam.sign 1)
        <= 1 / 1000 * Adam.eps / (sqrt (1 - Adam.default_beta2) * Rabs 1))%R.
Proof.
  destruct (adam_first_update_is_lr_sign (1 / 1000)
              {["W1" := [0%R]]} {["W1" := [1%R]]} "W1" [0%R] [1%R] 0%nat 0%R 1%R)
    as (_ & _ & p' & p1 & Hp' & Hp1 & _ & Hd & Hnear);
    try apply lookup_singleton_eq; try reflexivity.
  exists p', p1.
  split; [exact Hp' | split; [exact Hp1 | split; [exact Hd |]]].
  apply Hnear; lra.
Defined.

(** The counterexample to C8: a batch without samples has fewer samples
    than the default [batch_size], and its accuracy is the
    ZeroDivisionError of 0.0 / 0, not 0.0. *)
Lemma empty_batch_accuracy_raises :
  Z.of_nat (length (items_of (Arr []))) < default_batch_size
  /\ label_tensor (Arr [])
  /\ accuracy (Arr []) (Arr []) default_batch_size small_world
     = (Raise ZeroDivisionError, small_world).
Proof.
  split; [reflexivity | split; [left; reflexivity |]].
  vm_compute. reflexivity.
Qed.

(** * Further properties *)

(** ** Construction *)

Section ConstructionFurther.
Context `{E : Elt} {LM : LayerMath} {RN : Random}.

Lemma he_normal_Ok_inv (g : rng) (shape : list Z) (fan_in : Z) :
  is_ok (he_normal g shape fan_in) = true ->
  Forall (fun d => 0 <= d) shape /\ fan_in <> 0
  /\ alloc_error shape = None.
Proof.
  unfold he_normal. destruct (existsb _ shape) eqn:Hneg; [discriminate |].
  destruct (alloc_error shape); [discriminate |].
  destruct (randn g shape). destruct (Z.eqb_spec fan_in 0); [discriminate |].
  intros _. split; [| by split].
  induction shape as [|d shape IH]; [constructor |].
  cbn [existsb] in Hneg. apply orb_false_elim in Hneg as [Hd Hrest].
  constructor; [by apply Z.ltb_ge | auto].
Qed.

Lemma np_zeros_Ok_inv (n : Z) :
  is_ok (np_zeros n) = true -> 0 <= n /\ alloc_error [n] = None.
Proof.
  unfold np_zeros. destruct (Z.ltb_spec n 0); [discriminate |].
  destruct (alloc_error [n]); [discriminate | auto].
Qed.

Lemma is_ok_bind {A B : Type} (r : res A) (k : A -> res B) :
  is_ok (r ≫= k) = true -> exists a, r = Ok a /\ is_ok (k a) = true.
Proof. destruct r as [a|e]; intros Hk; [eauto | discriminate Hk]. Qed.

Lemma derive_dims_zero_stride (dim : input_dim) (cp : conv_param) :
  stride cp = 0 -> derive_dims dim cp = Raise ZeroDivisionError.
Proof. unfold derive_dims, py_floordiv. by intros ->. Qed.

(** Construction succeeds exactly when the stride is not zero, the pooled
    feature count, the channels, the filter size and the hidden size are
    positive, the number of filters and of outputs are not negative, and
    each of the eight arrays can be created; with a zero stride it raises
    ZeroDivisionError. *)
Theorem construction_succeeds_iff
    (dim : input_dim) (cp : conv_param) (hs os : Z) (g : rng) :
  (is_ok (SimpleConvNet_init dim cp hs os g) = true <->
   exists d, derive_dims dim cp = Ok d
             /\ 0 <= filter_num cp /\ 0 < in_channels dim /\ 0 < filter_size cp
             /\ 0 < pool_output_size d /\ 0 < hs /\ 0 <= os
             /\ arrays_fit dim cp hs os d)
  /\ (stride cp = 0 ->
      SimpleConvNet_init dim cp hs os g = Raise ZeroDivisionError).
Proof.
  split; [split |].
  - unfold SimpleConvNet_init. intros Hi.
    apply is_ok_bind in Hi as (d & Hd & Hi).
    apply is_ok_bind in Hi as ([aW1 g1] & HW1 & Hi).
    apply is_ok_bind in Hi as (ab1 & Hb1 & Hi).
    apply is_ok_bind in Hi as ([aW2 g2] & HW2 & Hi).
    apply is_ok_bind in Hi as (ab2 & Hb2 & Hi).
    apply is_ok_bind in Hi as ([aW3 g3] & HW3 & Hi).
    apply is_ok_bind in Hi as (ab3 & Hb3 & Hi).
    apply is_ok_bind in Hi as ([aW4 g4] & HW4 & Hi).
    apply is_ok_bind in Hi as (ab4 & Hb4 & _).
    assert (forall g sh f a, he_normal g sh f = Ok a ->
              Forall (fun d => 0 <= d) sh /\ f <> 0
              /\ alloc_error sh = None) as Hhe.
    { intros ? ? ? ? Hk. apply (he_normal_Ok_inv g0). by rewrite Hk. }
    assert (forall n a, np_zeros n = Ok a -> 0 <= n /\ alloc_error [n] = None)
      as Hz.
    { intros ? ? Hk. apply np_zeros_Ok_inv. by rewrite Hk. }
    apply Hhe in HW1 as (HW1 & Hf1 & Ha1). apply Hhe in HW2 as (HW2 & Hf2 & Ha2).
    apply Hhe in HW3 as (HW3 & Hf3 & Ha3). apply Hhe in HW4 as (HW4 & Hf4 & Ha4).
    apply Hz in Hb1 as [_ Hz1]. apply Hz in Hb2 as [_ Hz2].
    apply Hz in Hb3 as [_ Hz3]. apply Hz in Hb4 as [Hb4 Hz4].
    repeat match goal with
           | H : Forall _ (_ :: _) |- _ => apply Forall_cons in H as [? H]
           end.
    exists d. split; [exact Hd |].
    do 6 (split; [lia || nia |]).
    unfold arrays_fit.
    repeat (apply Forall_cons_2 || apply Forall_nil_2); assumption.
  - intros (d & Hd & Hfn & Hc & Hfs & Hpos & Hhs & Hos & Hfit).
    apply (init_Ok dim cp hs os g d); try assumption; try lia; nia.
  - intros Hs. unfold SimpleConvNet_init.
    by rewrite derive_dims_zero_stride.
Qed.

End ConstructionFurther.

(** ** Well-formed networks *)

Section WellFormed.
Context `{E : Elt} {LM : LayerMath}.

Lemma well_formed_topology (cp : conv_param) (w : world) :
  well_formed cp w -> topology w.
Proof.
  intros (Hn & Hk & _). split; [exact Hn |].
  rewrite <- (map_map (fun kl => kind (snd kl)) tag_of), Hk. reflexivity.
Qed.

Lemma shares_params_deref (w : world) (src : string * (string * string)) :
  (forall key r, params w !! key = Some r -> r ∈ dom (heap w)) ->
  shares_params w src ->
  exists (l : layer) (aW ab : ndarray),
    assoc_get (fst src) (layers w) = Some l
    /\ param_array w (fst (snd src)) = Ok aW
    /\ param_array w (snd (snd src)) = Ok ab
    /\ deref (heap w) (W l) = Ok aW /\ deref (heap w) (b l) = Ok ab.
Proof.
  intros Hval (l & rW & rb & Hl & HW & Hb & HpW & Hpb).
  pose proof (Hval _ _ HpW) as HinW. apply elem_of_dom in HinW as [aW HaW].
  pose proof (Hval _ _ Hpb) as Hinb. apply elem_of_dom in Hinb as [ab Hab].
  exists l, aW, ab. unfold param_array, deref.
  rewrite HpW, Hpb, HW, Hb, HaW, Hab. auto.
Qed.

(** What a well-formed network consists of. *)
Lemma well_formed_inv (cp : conv_param) (w : world) :
  well_formed cp w ->
  exists (l1 l2 l3 l4 l5 l6 l7 l8 : layer) (θ : parameters),
    layers w = [ ("Conv1", l1); ("Relu1", l2); ("Pool1", l3); ("Affine1", l4);
                 ("Relu2", l5); ("Affine2", l6); ("Relu3", l7);
                 ("Affine3", l8) ]%string
    /\ kind l1 = Convolution (stride cp) (pad cp) /\ kind l2 = Relu
    /\ kind l3 = Pooling pool_height pool_width pool_stride
    /\ kind l4 = Affine /\ kind l5 = Relu /\ kind l6 = Affine
    /\ kind l7 = Relu /\ kind l8 = Affine
    /\ read_parameters w = Ok θ
    /\ deref (heap w) (W l1) = Ok (pW1 θ) /\ deref (heap w) (b l1) = Ok (pb1 θ)
    /\ deref (heap w) (W l4) = Ok (pW2 θ) /\ deref (heap w) (b l4) = Ok (pb2 θ)
    /\ deref (heap w) (W l6) = Ok (pW3 θ) /\ deref (heap w) (b l6) = Ok (pb3 θ)
    /\ deref (heap w) (W l8) = Ok (pW4 θ) /\ deref (heap w) (b l8) = Ok (pb4 θ).
Proof.
  intros (Hn & Hk & Hsh & Hval & _).
  unfold grad_sources in Hsh.
  apply Forall_cons in Hsh as [H1 Hsh]. apply Forall_cons in Hsh as [H2 Hsh].
  apply Forall_cons in Hsh as [H3 Hsh]. apply Forall_cons in Hsh as [H4 _].
  apply (shares_params_deref w _ Hval) in H1
    as (c1 & aW1 & ab1 & Hc1 & HpW1 & Hpb1 & HW1 & Hb1).
  apply (shares_params_deref w _ Hval) in H2
    as (c2 & aW2 & ab2 & Hc2 & HpW2 & Hpb2 & HW2 & Hb2).
  apply (shares_params_deref w _ Hval) in H3
    as (c3 & aW3 & ab3 & Hc3 & HpW3 & Hpb3 & HW3 & Hb3).
  apply (shares_params_deref w _ Hval) in H4
    as (c4 & aW4 & ab4 & Hc4 & HpW4 & Hpb4 & HW4 & Hb4).
  unfold layer_names, layer_kinds in *.
  destruct (layers w) as [|[n1 l1] ls]; [discriminate |].
  do 7 (destruct ls as [|[? ?] ls]; [discriminate |]).
  destruct ls; [| discriminate].
  cbn [map fst snd] in Hn, Hk, Hc1, Hc2, Hc3, Hc4. simplify_eq.
  cbn [assoc_get String.eqb Ascii.eqb Bool.eqb] in Hc1, Hc2, Hc3, Hc4.
  simplify_eq.
  do 8 eexists. exists (Parameters aW1 ab1 aW2 ab2 aW3 ab3 aW4 ab4).
  split; [reflexivity |].
  repeat (split; [assumption |]).
  unfold read_parameters. cbn [fst snd] in *.
  rewrite HpW1, Hpb1, HpW2, Hpb2, HpW3, Hpb3, HpW4, Hpb4.
  cbn [mbind res_mbind res_bind pW1 pb1 pW2 pb2 pW3 pb3 pW4 pb4].
  repeat split; assumption.
Qed.

Lemma well_formed_predict (cp : conv_param) (w : world) :
  well_formed cp w ->
  exists θ : parameters,
    read_parameters w = Ok θ
    /\ forall x : ndarray, fst (predict x w) = network_function cp θ x.
Proof.
  intros Hw.
  destruct (well_formed_inv cp w Hw)
    as (l1 & l2 & l3 & l4 & l5 & l6 & l7 & l8 & θ & Hl & Hk1 & Hk2 & Hk3 & Hk4
        & Hk5 & Hk6 & Hk7 & Hk8 & Hθ & HW1 & Hb1 & HW2 & Hb2 & HW3 & Hb3
        & HW4 & Hb4).
  exists θ. split; [exact Hθ |]. intros x.
  unfold predict, network_function. rewrite Hl.
  cbn [forward_layers]. unfold layer_forward.
  rewrite Hk1, Hk2, Hk3, Hk4, Hk5, Hk6, Hk7, Hk8.
  rewrite HW1, Hb1, HW2, Hb2, HW3, Hb3, HW4, Hb4.
  unfold_res.
  repeat match goal with
         | |- context [match ?f with Ok _ => _ | Raise _ => _ end] =>
             lazymatch f with
             | context [match _ with _ => _ end] => fail
             | _ => destruct f as [[? ?]|?]; cbn [fst snd]; try reflexivity
             end
         end.
Qed.

Lemma loss_of_predict (x t : ndarray) (w : world) :
  fst (loss x t w)
  = (y ← fst (predict x w); fst <$> softmax_loss_forward y t).
Proof.
  unfold loss. unfold_M.
  destruct (predict x w) as [[y|e] w1]; cbn [fst]; unfold_res; [| reflexivity].
  unfold last_layer_forward.
  destruct (softmax_loss_forward y t) as [[v c]|e]; reflexivity.
Qed.

(** On a well-formed network [predict] computes [network_function] of the
    arrays that the parameter dictionary holds under W1..b4, and [loss]
    the loss layer's forward of these scores. *)
Theorem predict_is_network_function (cp : conv_param) (w : world) :
  well_formed cp w ->
  exists θ : parameters,
    read_parameters w = Ok θ
    /\ forall x t : ndarray,
         fst (predict x w) = network_function cp θ x
         /\ fst (loss x t w)
            = (y ← network_function cp θ x; fst <$> softmax_loss_forward y t).
Proof.
  intros Hw.
  destruct (well_formed_predict cp w Hw) as (θ & Hθ & Hpred).
  exists θ. split; [exact Hθ |]. intros x t.
  pose proof (Hpred x) as Hp.
  split; [exact Hp |].
  rewrite <- Hp. unfold loss. unfold_M.
  destruct (predict x w) as [[y|e] w1]; cbn [fst]; unfold_res; [| reflexivity].
  unfold last_layer_forward.
  destruct (softmax_loss_forward y t) as [[v c]|e]; reflexivity.
Qed.

End WellFormed.

Section ConstructedNetwork.
Context `{E : Elt} {LM : LayerMath} {RN : Random}.

Lemma np_zeros_Ok_eq (n : Z) (a : ndarray) :
  np_zeros n = Ok a -> a = Arr (replicate (Z.to_nat n) (Num (elt_of_Z 0))).
Proof.
  unfold np_zeros. destruct (n <? 0); [discriminate |].
  destruct (alloc_error [n]); congruence.
Qed.

(** The steps of [__init__] that can fail, then its world computed. *)
Ltac compute_init_world Hi :=
  unfold SimpleConvNet_init in Hi;
  apply res_bind_Ok in Hi as (?d & _ & Hi);
  apply res_bind_Ok in Hi as ([?aW1 ?g1] & _ & Hi);
  apply res_bind_Ok in Hi as (?ab1 & ?Hb1 & Hi);
  apply res_bind_Ok in Hi as ([?aW2 ?g2] & _ & Hi);
  apply res_bind_Ok in Hi as (?ab2 & ?Hb2 & Hi);
  apply res_bind_Ok in Hi as ([?aW3 ?g3] & _ & Hi);
  apply res_bind_Ok in Hi as (?ab3 & ?Hb3 & Hi);
  apply res_bind_Ok in Hi as ([?aW4 ?g4] & _ & Hi);
  apply res_bind_Ok in Hi as (?ab4 & ?Hb4 & Hi);
  vm_compute in Hi; injection Hi as <- _.

Lemma init_well_formed
    (dim : input_dim) (cp : conv_param) (hs os : Z) (g g' : rng) (w : world) :
  SimpleConvNet_init dim cp hs os g = Ok (w, g') -> well_formed cp w.
Proof.
  intros Hi. compute_init_world Hi.
  split; [reflexivity | split; [reflexivity | split; [| split]]].
  - unfold grad_sources, shares_params.
    repeat (apply Forall_cons_2 || apply Forall_nil_2);
      eexists _, _, _; repeat split; vm_compute; reflexivity.
  - intros key r Hkr.
    refine (map_Forall_lookup_1 (fun _ r => r ∈ dom _) _ key r _ Hkr).
    refine (bool_decide_unpack _ _). vm_compute. exact I.
  - intros k1 k2 r H1 H2.
    refine (map_Forall_lookup_1
              (fun k1 r1 => map_Forall (fun k2 r2 => r1 = r2 -> k1 = k2) _)
              _ k1 r _ H1 k2 r H2 eq_refl).
    refine (bool_decide_unpack _ _). vm_compute. exact I.
Qed.

(** A network that [__init__] has returned is well-formed; its parameter
    dictionary has the keys W1..b4 and refers to eight arrays, the four
    biases being zero vectors of filter_num, hidden_size, hidden_size and
    output_size entries; no layer holds a cache or a gradient yet. *)
Theorem construction_leaves_well_formed
    (dim : input_dim) (cp : conv_param) (hs os : Z) (g g' : rng) (w : world) :
  SimpleConvNet_init dim cp hs os g = Ok (w, g') ->
  well_formed cp w
  /\ dom (params w) = param_keys
  /\ size (heap w) = 8%nat
  /\ param_array w "b1" = np_zeros (filter_num cp)
  /\ param_array w "b2" = np_zeros hs
  /\ param_array w "b3" = np_zeros hs
  /\ param_array w "b4" = np_zeros os
  /\ Forall (fun kl => cached (snd kl) = None /\ dW (snd kl) = None
                       /\ db (snd kl) = None) (layers w)
  /\ loss_cached (last_layer w) = None
  /\ calls w = [].
Proof.
  intros Hi. split; [exact (init_well_formed _ _ _ _ _ _ _ Hi) |].
  compute_init_world Hi.
  assert (ab3 = ab2) as -> by congruence.
  rewrite ?Hb1, ?Hb2, ?Hb4. clear Hb1 Hb2 Hb3 Hb4.
  repeat split. cbn [layers].
  repeat (apply Forall_cons_2 || apply Forall_nil_2); repeat split.
Qed.

End ConstructedNetwork.

(** ** [gradient] and what earlier calls have left *)

Section GradientValue.
Context `{E : Elt} {LM : LayerMath}.

(** The last lines of [gradient] read the layers only. *)
Lemma gradient_tail_eq (w : world) :
  (conv1 ← get_layer "Conv1";
   '(gW, gb) ← M_lift (get_grads conv1);
   let grads := <["b1" := gb]> (<["W1" := gW]> (∅ : gmap string (option ndarray))) in
   affine1 ← get_layer "Affine1";
   '(gW, gb) ← M_lift (get_grads affine1);
   let grads := <["b2" := gb]> (<["W2" := gW]> grads) in
   affine2 ← get_layer "Affine2";
   '(gW, gb) ← M_lift (get_grads affine2);
   let grads := <["b3" := gb]> (<["W3" := gW]> grads) in
   affine3 ← get_layer "Affine3";
   '(gW, gb) ← M_lift (get_grads affine3);
   let grads := <["b4" := gb]> (<["W4" := gW]> grads) in
   mret grads) w
  = (grads_of (layers w), w).
Proof.
  unfold grads_of, get_layer. unfold_M. unfold_res.
  destruct (assoc_get "Conv1" (layers w)) as [l1|]; [| reflexivity].
  destruct (get_grads l1) as [[gW1 gb1]|e]; [| reflexivity].
  destruct (assoc_get "Affine1" (layers w)) as [l2|]; [| reflexivity].
  destruct (get_grads l2) as [[gW2 gb2]|e]; [| reflexivity].
  destruct (assoc_get "Affine2" (layers w)) as [l3|]; [| reflexivity].
  destruct (get_grads l3) as [[gW3 gb3]|e]; [| reflexivity].
  destruct (assoc_get "Affine3" (layers w)) as [l4|]; [| reflexivity].
  destruct (get_grads l4) as [[gW4 gb4]|e]; reflexivity.
Qed.

(** The passes of [gradient], followed by any reading [K] of the layers. *)
Lemma gradient_passes_eq {B : Type} (K : M B)
    (kv : list (string * layer) -> res B) (x t : ndarray) (w : world) :
  (forall w0, K w0 = (kv (layers w0), w0)) ->
  fst ((_ ← loss x t;
        dout ← last_layer_backward (Num (elt_of_Z 1));
        _ ← (fun w =>
               let '(r, ls, ev) := backward_layers (heap w) (rev (layers w)) dout in
               (r, add_calls ev (set_layers (rev ls) w)));
        K) w)
  = (y ← fst (fst (forward_layers (heap w) (layers w) x));
     '(_, c) ← softmax_loss_forward y t;
     dout ← softmax_loss_backward c (Num (elt_of_Z 1));
     _ ← fst (fst (backward_layers (heap w)
                     (rev (snd (fst (forward_layers (heap w) (layers w) x)))) dout));
     kv (rev (snd (fst (backward_layers (heap w)
                          (rev (snd (fst (forward_layers (heap w) (layers w) x))))
                          dout))))).
Proof.
  intros HK. unfold loss, predict, last_layer_forward, last_layer_backward.
  unfold_M.
  destruct (forward_layers (heap w) (layers w) x) as [[[y|e] ls] ev];
    cbn [fst snd]; [| reflexivity].
  unfold_res.
  destruct (softmax_loss_forward y t) as [[v c]|e]; cbn [fst snd]; [| reflexivity].
  cbn [last_layer loss_cached set_last_layer add_calls set_layers heap layers].
  destruct (softmax_loss_backward c (Num (elt_of_Z 1))) as [dout|e];
    [| reflexivity].
  destruct (backward_layers (heap w) (rev ls) dout) as [[[dx|e] lsb] evb];
    cbn [fst snd]; [| reflexivity].
  rewrite HK. reflexivity.
Qed.

(** What [gradient] returns is [gradient_value] of the heap and the
    layers. *)
Lemma gradient_value_eq (x t : ndarray) (w : world) :
  fst (gradient x t w) = gradient_value (heap w) (layers w) x t.
Proof.
  unfold gradient, gradient_value.
  apply (gradient_passes_eq _ grads_of). apply gradient_tail_eq.
Qed.

Lemma layer_forward_same (h : gmap loc ndarray) (l1 l2 : layer) (x : ndarray) :
  static l1 = static l2 ->
  match layer_forward h l1 x, layer_forward h l2 x with
  | Ok (y1, l1'), Ok (y2, l2') =>
      y1 = y2 /\ static l1' = static l2' /\ cached l1' = cached l2'
  | Raise e1, Raise e2 => e1 = e2
  | _, _ => False
  end.
Proof.
  unfold static, layer_forward. intros [= Hk HW Hb].
  rewrite Hk, HW, Hb. unfold_res.
  repeat case_match; simplify_eq; unfold static; cbn;
    rewrite ?Hk, ?HW, ?Hb; auto; repeat split; congruence.
Qed.

Lemma layer_backward_same (h : gmap loc ndarray) (l1 l2 : layer) (dout : ndarray) :
  static l1 = static l2 -> cached l1 = cached l2 ->
  match layer_backward h l1 dout, layer_backward h l2 dout with
  | Ok (d1, l1'), Ok (d2, l2') =>
      d1 = d2 /\ static l1' = static l2' /\ cached l1' = cached l2'
      /\ get_grads l1' = get_grads l2'
  | Raise e1, Raise e2 => e1 = e2
  | _, _ => False
  end.
Proof.
  unfold static, layer_backward, get_cached. intros [= Hk HW Hb] Hc.
  rewrite Hk, HW, Hc. unfold_res.
  destruct (kind l2) eqn:Hk2; repeat case_match; simplify_eq;
    unfold static, get_grads; cbn [kind W b cached dW db set_grads];
    rewrite ?Hk, ?HW, ?Hb, ?Hc, ?Hk2; auto.
Qed.

Lemma forward_layers_same (h : gmap loc ndarray)
    (ls1 ls2 : list (string * layer)) (x : ndarray) :
  statics ls1 = statics ls2 ->
  fst (fst (forward_layers h ls1 x)) = fst (fst (forward_layers h ls2 x))
  /\ (is_ok (fst (fst (forward_layers h ls1 x))) = true ->
      Forall2 same_cache (snd (fst (forward_layers h ls1 x)))
                         (snd (fst (forward_layers h ls2 x)))).
Proof.
  revert ls2 x. induction ls1 as [|[n1 l1] ls1 IH]; intros [|[n2 l2] ls2] x Hs;
    try discriminate; [split; [reflexivity | constructor] |].
  injection Hs as Hn Hk HW Hb Hs. subst n2. cbn [forward_layers].
  assert (static l1 = static l2) as Hl by (unfold static; congruence).
  pose proof (layer_forward_same h l1 l2 x Hl) as Hf.
  destruct (layer_forward h l1 x) as [[y1 l1']|e1];
    destruct (layer_forward h l2 x) as [[y2 l2']|e2];
    try contradiction.
  - destruct Hf as (-> & Hs' & Hc'). specialize (IH ls2 y2 Hs).
    destruct (forward_layers h ls1 y2) as [[r1 ls1'] ev1].
    destruct (forward_layers h ls2 y2) as [[r2 ls2'] ev2].
    cbn [fst snd] in *. destruct IH as [Hr Hall].
    split; [exact Hr |]. intros Hok. constructor; [by repeat split | auto].
  - subst. split; [reflexivity | discriminate].
Qed.

Lemma backward_layers_same (h : gmap loc ndarray)
    (ls1 ls2 : list (string * layer)) (dout : ndarray) :
  Forall2 same_cache ls1 ls2 ->
  fst (fst (backward_layers h ls1 dout)) = fst (fst (backward_layers h ls2 dout))
  /\ (is_ok (fst (fst (backward_layers h ls1 dout))) = true ->
      Forall2 same_grads (snd (fst (backward_layers h ls1 dout)))
                         (snd (fst (backward_layers h ls2 dout)))).
Proof.
  intros Hall. revert dout.
  induction Hall as [|[n1 l1] [n2 l2] ls1 ls2 (Hn & Hs & Hc) _ IH]; intros dout;
    [split; [reflexivity | constructor] |].
  cbn [fst snd] in Hn, Hs, Hc. subst n2. cbn [backward_layers].
  pose proof (layer_backward_same h l1 l2 dout Hs Hc) as Hb.
  destruct (layer_backward h l1 dout) as [[d1 l1']|e1];
    destruct (layer_backward h l2 dout) as [[d2 l2']|e2];
    try contradiction.
  - destruct Hb as (-> & Hs' & Hc' & Hg'). specialize (IH d2).
    destruct (backward_layers h ls1 d2) as [[r1 ls1'] ev1].
    destruct (backward_layers h ls2 d2) as [[r2 ls2'] ev2].
    cbn [fst snd] in *. destruct IH as [Hr Hall'].
    split; [exact Hr |]. intros Hok.
    constructor; [by repeat split | auto].
  - subst. split; [reflexivity | discriminate].
Qed.

Lemma Forall2_rev {A B : Type} (P : A -> B -> Prop) (l : list A) (k : list B) :
  Forall2 P l k -> Forall2 P (rev l) (rev k).
Proof.
  induction 1 as [|a b l k Hab _ IH]; [constructor |].
  cbn [rev]. apply Forall2_app; [exact IH | by constructor].
Qed.

Lemma assoc_get_same_grads (ls1 ls2 : list (string * layer)) (name : string) :
  Forall2 same_grads ls1 ls2 ->
  match assoc_get name ls1, assoc_get name ls2 with
  | Some l1, Some l2 => get_grads l1 = get_grads l2
  | None, None => True
  | _, _ => False
  end.
Proof.
  induction 1 as [|[n1 l1] [n2 l2] ls1 ls2 ((Hn & _) & Hg) _ IH]; [exact I |].
  cbn [fst snd] in Hn, Hg. subst n2. cbn [assoc_get].
  destruct (String.eqb n1 name); [exact Hg | exact IH].
Qed.

Lemma grads_of_same (ls1 ls2 : list (string * layer)) :
  Forall2 same_grads ls1 ls2 -> grads_of ls1 = grads_of ls2.
Proof.
  intros Hall. unfold grads_of.
  pose proof (assoc_get_same_grads ls1 ls2 "Conv1" Hall) as H1.
  pose proof (assoc_get_same_grads ls1 ls2 "Affine1" Hall) as H2.
  pose proof (assoc_get_same_grads ls1 ls2 "Affine2" Hall) as H3.
  pose proof (assoc_get_same_grads ls1 ls2 "Affine3" Hall) as H4.
  repeat match goal with
         | H : match assoc_get ?n ls1 with _ => _ end |- _ =>
             destruct (assoc_get n ls1), (assoc_get n ls2);
             try contradiction; try rewrite H; clear H
         end; reflexivity.
Qed.

Lemma gradient_value_same (h : gmap loc ndarray)
    (ls1 ls2 : list (string * layer)) (x t : ndarray) :
  statics ls1 = statics ls2 ->
  gradient_value h ls1 x t = gradient_value h ls2 x t.
Proof.
  intros Hs. unfold gradient_value.
  destruct (forward_layers_same h ls1 ls2 x Hs) as [Hr Hall].
  rewrite <- Hr.
  destruct (fst (fst (forward_layers h ls1 x))) as [y|e]; [| reflexivity].
  specialize (Hall eq_refl). unfold_res.
  destruct (softmax_loss_forward y t) as [[v c]|e]; [| reflexivity].
  destruct (softmax_loss_backward c (Num (elt_of_Z 1))) as [dout|e];
    [| reflexivity].
  apply Forall2_rev in Hall.
  destruct (backward_layers_same h _ _ dout Hall) as [Hrb Hallb].
  rewrite <- Hrb.
  destruct (fst (fst (backward_layers h (rev (snd (fst (forward_layers h ls1 x)))) dout)))
    as [dx|e]; [| reflexivity].
  apply grads_of_same, Forall2_rev, Hallb. reflexivity.
Qed.

(** What [gradient] returns does not depend on what earlier calls have
    left in the caches and in the gradients of the layers: it is the
    result on the network with all of them erased, and the result it has
    after any other call of [gradient]. *)
Theorem gradient_ignores_earlier_calls (x t : ndarray) (w : world) :
  fst (gradient x t w) = fst (gradient x t (without_caches w))
  /\ forall x0 t0 : ndarray,
       fst (gradient x t (snd (gradient x0 t0 w))) = fst (gradient x t w).
Proof.
  split.
  - rewrite !gradient_value_eq. apply gradient_value_same.
    unfold without_caches, statics. cbn. rewrite map_map. reflexivity.
  - intros x0 t0. rewrite !gradient_value_eq.
    pose proof (keeps_gradient x0 t0 w) as Hk. unfold parameters_of in Hk.
    injection Hk as Hh _ Hs. rewrite Hh. by apply gradient_value_same.
Qed.

End GradientValue.

(** ** [gradient] as a function of the parameters *)

Section GradientExplicit.
Context `{E : Elt} {LM : LayerMath}.

Lemma gradient_is_function (cp : conv_param) (w : world) (x t : ndarray) :
  well_formed cp w ->
  exists θ : parameters,
    read_parameters w = Ok θ
    /\ fst (gradient x t w) = gradient_function cp θ x t.
Proof.
  intros Hw.
  destruct (well_formed_inv cp w Hw)
    as (l1 & l2 & l3 & l4 & l5 & l6 & l7 & l8 & θ & Hl & Hk1 & Hk2 & Hk3 & Hk4
        & Hk5 & Hk6 & Hk7 & Hk8 & Hθ & HW1 & Hb1 & HW2 & Hb2 & HW3 & Hb3
        & HW4 & Hb4).
  exists θ. split; [exact Hθ |].
  rewrite gradient_value_eq. unfold gradient_value, gradient_function.
  rewrite Hl. cbn [forward_layers]. unfold layer_forward.
  rewrite Hk1, Hk2, Hk3, Hk4, Hk5, Hk6, Hk7, Hk8.
  rewrite HW1, Hb1, HW2, Hb2, HW3, Hb3, HW4, Hb4.
  unfold_res.
  repeat first
    [ reflexivity
    | progress cbn [fst snd rev app backward_layers kind W b cached dW db
                    set_cached set_grads assoc_get String.eqb Ascii.eqb
                    Bool.eqb]
    | progress rewrite ?Hk1, ?Hk2, ?Hk3, ?Hk4, ?Hk5, ?Hk6, ?Hk7, ?Hk8,
                       ?HW1, ?HW2, ?HW3, ?HW4
    | progress unfold layer_backward, get_cached, grads_of, get_grads
    | progress unfold_res
    | match goal with
      | |- context [match ?f with Ok _ => _ | Raise _ => _ end] =>
          lazymatch f with
          | context [match _ with _ => _ end] => fail
          | _ => destruct f as [?r|?e];
                 repeat match goal with
                        | p : (_ * _)%type |- _ => destruct p
                        end
          end
      end ].
Qed.

(** C1. On the fixed topology, [gradient] makes its calls in this order:
    the forward pass over the eight layers in insertion order, the forward
    of the loss layer, the backward of the loss layer seeded with 1, and
    the backward of the eight layers in reverse insertion order; if a
    call raises, the calls made are a prefix of this sequence. When
    [gradient] returns, every cache is filled and the mapping it returns
    has exactly the keys W1, b1, ..., W4, b4, bound to the [dW] and [db]
    that the Convolution layer and the three Affine layers hold. On a
    network whose layers hold the arrays of [params], what [gradient]
    returns or raises is [gradient_function]: each forward applied to the
    output of the one before, the backward of the loss layer applied to 1,
    each backward applied to the result of the one after it and to what
    the forward of its own layer kept, and the mapping made of the
    weight and bias gradients of these backward calls. *)
Theorem gradient_order_and_result (x t : ndarray) (w : world) :
  topology w ->
  (exists n : nat,
      (n <= length gradient_calls)%nat
      /\ calls (snd (gradient x t w)) = calls w ++ take n gradient_calls
      /\ (is_ok (fst (gradient x t w)) = true -> n = length gradient_calls))
  /\ (forall grads : gmap string (option ndarray),
        fst (gradient x t w) = Ok grads ->
        calls (snd (gradient x t w)) = calls w ++ gradient_calls
        /\ dom grads = param_keys
        /\ Forall (bound_to_layer (snd (gradient x t w)) grads) grad_sources
        /\ Forall (fun kl => is_Some (cached (snd kl)))
                  (layers (snd (gradient x t w)))
        /\ is_Some (loss_cached (last_layer (snd (gradient x t w)))))
  /\ (forall cp : conv_param,
        well_formed cp w ->
        exists θ : parameters,
          read_parameters w = Ok θ
          /\ fst (gradient x t w) = gradient_function cp θ x t).
Proof.
  intros Hw. destruct (emits_gradient x t w Hw) as (_ & n & Hle & Hc & Hn).
  split; [eauto |]. split.
  - intros grads Hr. split.
    + rewrite Hc, Hn by (by rewrite Hr). by rewrite firstn_all.
    + apply (gradient_Ok x t w); [exact Hw |].
      destruct (gradient x t w) as [r w']. cbn in Hr. by subst.
  - intros cp Hwf. by apply gradient_is_function.
Qed.

End GradientExplicit.

(** ** Further properties of [accuracy] *)

Section AccuracyFurther.
Context `{E : Elt} {LM : LayerMath}.







(** With a batch size of zero [accuracy] raises ZeroDivisionError, and
    with a negative one it returns 0 for a batch with samples; in both
    cases no prediction is made. *)
Theorem accuracy_without_chunks (xs : list ndarray) (t : ndarray)
    (batch_size : Z) (w : world) :
  batch_size <= 0 ->
  accuracy (Arr xs) t batch_size w
  = (_ ← label_vector t;
     if batch_size =? 0 then Raise ZeroDivisionError
     else py_float_div 0 (Z.of_nat (length xs)),
     w).
Proof.
  intros Hb. unfold accuracy.
  change (if ndim t =? 1 then Ok t else np_argmax1 t) with (label_vector t).
  unfold_M. unfold_res.
  destruct (label_vector t) as [t'|e]; [| reflexivity].
  cbn [shape0].
  destruct (Z.eqb_spec batch_size 0) as [-> | Hnz]; [reflexivity |].
  destruct (py_int_truediv_negative (Z.of_nat (length xs)) batch_size)
    as (k & -> & Hk); [lia | lia |].
  unfold py_range. replace (Z.to_nat k) with 0%nat by lia.
  reflexivity.
Qed.

End AccuracyFurther.

(** ** One-hot labels *)

Section OneHot.
Context `{E : Elt} {LM : LayerMath}.
Hypothesis gt_1_0 : elt_gtb (elt_of_Z 1) (elt_of_Z 0) = true.
Hypothesis gt_0_0 : elt_gtb (elt_of_Z 0) (elt_of_Z 0) = false.
Hypothesis gt_0_1 : elt_gtb (elt_of_Z 0) (elt_of_Z 1) = false.

Lemma elements_of_Num (vs : list elt) : elements_of (map Num vs) = Ok vs.
Proof.
  unfold elements_of. induction vs as [|v vs IH]; [reflexivity |].
  cbn [map res_mapM]. unfold_res. cbn in *. by rewrite IH.
Qed.

(** Past the one, the running maximum stays. *)
Lemma argmax_from_after (k besti : Z) (m s : nat) :
  k < Z.of_nat s ->
  argmax_from (elt_of_Z 1) besti (Z.of_nat s) (map (one_hot_entry k) (seq s m))
  = besti.
Proof.
  revert s. induction m as [|m IH]; intros s Hk; [reflexivity |].
  cbn [seq map argmax_from].
  change (one_hot_entry k s) with (elt_of_Z (if Z.of_nat s =? k then 1 else 0)).
  destruct (Z.eqb_spec (Z.of_nat s) k) as [| _]; [lia |].
  rewrite gt_0_1. replace (Z.of_nat s + 1) with (Z.of_nat (S s)) by lia.
  apply IH. lia.
Qed.

(** Before the one, the running maximum is a zero and moves to the one. *)
Lemma argmax_from_before (k besti : Z) (m s : nat) :
  Z.of_nat s <= k < Z.of_nat (s + m) ->
  argmax_from (elt_of_Z 0) besti (Z.of_nat s) (map (one_hot_entry k) (seq s m))
  = k.
Proof.
  revert s. induction m as [|m IH]; intros s Hk; [lia |].
  cbn [seq map argmax_from].
  change (one_hot_entry k s) with (elt_of_Z (if Z.of_nat s =? k then 1 else 0)).
  replace (Z.of_nat s + 1) with (Z.of_nat (S s)) by lia.
  destruct (Z.eqb_spec (Z.of_nat s) k) as [Heq | Hne].
  - rewrite gt_1_0, Heq. apply argmax_from_after. lia.
  - rewrite gt_0_0. apply IH. lia.
Qed.

Lemma argmax_row_one_hot (classes : nat) (k : Z) :
  0 <= k < Z.of_nat classes -> argmax_row (one_hot classes k) = Ok k.
Proof.
  intros Hk. unfold one_hot, argmax_row.
  rewrite <- (map_map (one_hot_entry k) Num), elements_of_Num. unfold_res.
  destruct classes as [|m]; [lia |]. cbn [seq map]. f_equal.
  change (one_hot_entry k 0) with (elt_of_Z (if Z.of_nat 0 =? k then 1 else 0)).
  destruct (Z.eqb_spec (Z.of_nat 0) k) as [Heq | Hne].
  - rewrite <- Heq. apply (argmax_from_after _ _ m 1). lia.
  - apply (argmax_from_before k 0 m 1). lia.
Qed.

Lemma label_vector_one_hot (classes : nat) (labels : list Z) :
  Forall (fun k => 0 <= k < Z.of_nat classes) labels ->
  label_vector (one_hot_labels classes labels) = Ok (int_array labels).
Proof.
  intros Hl. unfold label_vector, one_hot_labels.
  destruct Hl as [|k labels Hk Hl]; [reflexivity |].
  assert (ndim (Arr (map (one_hot classes) (k :: labels))) = 2) as ->.
  { cbn [map ndim]. unfold one_hot. destruct classes as [|m]; [lia |]. reflexivity. }
  change (2 =? 1) with false. cbn iota.
  assert (res_mapM argmax_row (map (one_hot classes) (k :: labels))
          = Ok (k :: labels)) as Hm.
  { assert (Forall (fun k => 0 <= k < Z.of_nat classes) (k :: labels)) as Hall
      by by constructor.
    clear Hk Hl. induction Hall as [|k' l' Hk' _ IH]; [reflexivity |].
    cbn [map res_mapM]. rewrite (argmax_row_one_hot _ _ Hk'), IH. reflexivity. }
  unfold np_argmax1. rewrite Hm. reflexivity.
Qed.

(** [accuracy] gives the same for one-hot labels as for the labels
    themselves, and makes the same calls. *)
Theorem accuracy_of_one_hot_labels (classes : nat) (labels : list Z)
    (x : ndarray) (batch_size : Z) (w : world) :
  Forall (fun k => 0 <= k < Z.of_nat classes) labels ->
  accuracy x (one_hot_labels classes labels) batch_size w
  = accuracy x (int_array labels) batch_size w.
Proof.
  intros Hl. unfold accuracy.
  change (if ndim (one_hot_labels classes labels) =? 1
          then Ok (one_hot_labels classes labels)
          else np_argmax1 (one_hot_labels classes labels))
    with (label_vector (one_hot_labels classes labels)).
  rewrite (label_vector_one_hot _ _ Hl).
  assert (ndim (int_array labels) = 1) as ->
    by (unfold int_array; destruct labels; reflexivity).
  reflexivity.
Qed.

End OneHot.

(** ** Saving and loading *)

Section Persisting.
Context `{E : Elt} {LM : LayerMath}.

Lemma store_loaded_frame (loaded : list (string * ndarray)) (w : world) :
  layers (store_loaded loaded w) = layers w
  /\ last_layer (store_loaded loaded w) = last_layer w
  /\ calls (store_loaded loaded w) = calls w.
Proof.
  revert w. induction loaded as [|[key val] loaded IH]; intros w; [done |].
  cbn [store_loaded alloc]. destruct (IH
    (set_params (<[key:=fresh (dom (heap w))]> (params w))
       (set_heap (<[fresh (dom (heap w)):=val]> (heap w)) w))) as (-> & -> & ->).
  done.
Qed.

(** The first loop of [load_params] leaves no reference without an array
    and no array under two keys, and removes no key. *)
Lemma store_loaded_valid (loaded : list (string * ndarray)) (w : world) :
  (forall key r, params w !! key = Some r -> r ∈ dom (heap w)) ->
  (forall k1 k2 r, params w !! k1 = Some r -> params w !! k2 = Some r -> k1 = k2) ->
  (forall key r, params (store_loaded loaded w) !! key = Some r ->
     r ∈ dom (heap (store_loaded loaded w)))
  /\ (forall k1 k2 r, params (store_loaded loaded w) !! k1 = Some r ->
        params (store_loaded loaded w) !! k2 = Some r -> k1 = k2)
  /\ (forall key, is_Some (params w !! key) ->
        is_Some (params (store_loaded loaded w) !! key)).
Proof.
  revert w. induction loaded as [|[key val] loaded IH]; intros w Hval Hinj; [done |].
  cbn [store_loaded alloc].
  set (r0 := fresh (dom (heap w))).
  assert (r0 ∉ dom (heap w)) as Hfresh by apply is_fresh.
  set (w1 := set_params _ _).
  destruct (IH w1) as (Hv & Hi & Hk).
  - intros key' r. subst w1. cbn. rewrite dom_insert_L.
    destruct (decide (key = key')) as [<- | Hne].
    + rewrite lookup_insert_eq. intros [= <-]. set_solver.
    + rewrite lookup_insert_ne by exact Hne. intros Hr%Hval. set_solver.
  - intros k1 k2 r. subst w1. cbn.
    destruct (decide (key = k1)) as [<- | Hne1];
      destruct (decide (key = k2)) as [<- | Hne2];
      rewrite ?lookup_insert_eq, ?lookup_insert_ne by assumption.
    + done.
    + intros [= <-] Hr%Hval. done.
    + intros Hr%Hval [= <-]. done.
    + apply Hinj.
  - split; [exact Hv | split; [exact Hi |]].
    intros key' Hs. apply Hk. subst w1. cbn.
    destruct (decide (key = key')) as [<- | Hne].
    + rewrite lookup_insert_eq. eauto.
    + by rewrite lookup_insert_ne.
Qed.

(** The second loop of [load_params], when the first has left the eight
    keys. *)
Lemma load_params_result (loaded : list (string * ndarray)) (w : world)
    (l1 l2 l3 l4 l5 l6 l7 l8 : layer) (rW1 rb1 rW2 rb2 rW3 rb3 rW4 rb4 : loc) :
  layers w = [ ("Conv1", l1); ("Relu1", l2); ("Pool1", l3); ("Affine1", l4);
               ("Relu2", l5); ("Affine2", l6); ("Relu3", l7);
               ("Affine3", l8) ]%string ->
  params (store_loaded loaded w) !! "W1"%string = Some rW1 ->
  params (store_loaded loaded w) !! "b1"%string = Some rb1 ->
  params (store_loaded loaded w) !! "W2"%string = Some rW2 ->
  params (store_loaded loaded w) !! "b2"%string = Some rb2 ->
  params (store_loaded loaded w) !! "W3"%string = Some rW3 ->
  params (store_loaded loaded w) !! "b3"%string = Some rb3 ->
  params (store_loaded loaded w) !! "W4"%string = Some rW4 ->
  params (store_loaded loaded w) !! "b4"%string = Some rb4 ->
  load_params loaded w
  = (Ok tt,
     set_layers
       [ ("Conv1", set_b rb1 (set_W rW1 l1)); ("Relu1", l2);
         ("Pool1", l3); ("Affine1", set_b rb2 (set_W rW2 l4));
         ("Relu2", l5); ("Affine2", set_b rb3 (set_W rW3 l6));
         ("Relu3", l7);
         ("Affine3", set_b rb4 (set_W rW4 l8)) ]%string (store_loaded loaded w)).
Proof.
  intros Hlay HW1 Hb1 HW2 Hb2 HW3 Hb3 HW4 Hb4.
  destruct (store_loaded_frame loaded w) as (Hl & _ & _). rewrite Hlay in Hl.
  unfold load_params. unfold_M.
  set (w1 := store_loaded loaded w) in *.
  change (py_enumerate ["Conv1"; "Affine1"; "Affine2"; "Affine3"]%string)
    with [(0, "Conv1"); (1, "Affine1"); (2, "Affine2"); (3, "Affine3")]%string.
  rewrite (rebind_step 0 _ _ _ rW1 rb1 l1);
    [| exact HW1 | exact Hb1 | by rewrite Hl].
  rewrite (rebind_step 1 _ _ _ rW2 rb2 l4);
    [| exact HW2 | exact Hb2 | cbn [layers set_layers]; by rewrite Hl].
  rewrite (rebind_step 2 _ _ _ rW3 rb3 l6);
    [| exact HW3 | exact Hb3 | cbn [layers set_layers]; by rewrite Hl].
  rewrite (rebind_step 3 _ _ _ rW4 rb4 l8);
    [| exact HW4 | exact Hb4 | cbn [layers set_layers]; by rewrite Hl].
  cbn [rebind_layers layers set_layers]. rewrite Hl. reflexivity.
Qed.

Lemma shares_params_keys (w : world) (src : string * (string * string)) :
  shares_params w src ->
  is_Some (params w !! fst (snd src)) /\ is_Some (params w !! snd (snd src)).
Proof. intros (l & rW & rb & _ & _ & _ & -> & ->). eauto. Qed.

(** On a well-formed network the first loop of [load_params] leaves the
    eight keys, and the second rebinds the four layers to them. *)
Lemma load_params_world (cp : conv_param) (loaded : list (string * ndarray))
    (w : world) :
  well_formed cp w ->
  exists (l1 l2 l3 l4 l5 l6 l7 l8 : layer) (rW1 rb1 rW2 rb2 rW3 rb3 rW4 rb4 : loc),
    layers w = [ ("Conv1", l1); ("Relu1", l2); ("Pool1", l3); ("Affine1", l4);
                 ("Relu2", l5); ("Affine2", l6); ("Relu3", l7);
                 ("Affine3", l8) ]%string
    /\ load_params loaded w
       = (Ok tt,
          set_layers
            [ ("Conv1", set_b rb1 (set_W rW1 l1)); ("Relu1", l2);
              ("Pool1", l3); ("Affine1", set_b rb2 (set_W rW2 l4));
              ("Relu2", l5); ("Affine2", set_b rb3 (set_W rW3 l6));
              ("Relu3", l7);
              ("Affine3", set_b rb4 (set_W rW4 l8)) ]%string
            (store_loaded loaded w))
    /\ params (store_loaded loaded w) !! "W1"%string = Some rW1
    /\ params (store_loaded loaded w) !! "b1"%string = Some rb1
    /\ params (store_loaded loaded w) !! "W2"%string = Some rW2
    /\ params (store_loaded loaded w) !! "b2"%string = Some rb2
    /\ params (store_loaded loaded w) !! "W3"%string = Some rW3
    /\ params (store_loaded loaded w) !! "b3"%string = Some rb3
    /\ params (store_loaded loaded w) !! "W4"%string = Some rW4
    /\ params (store_loaded loaded w) !! "b4"%string = Some rb4.
Proof.
  intros Hw.
  destruct (well_formed_inv cp w Hw)
    as (l1 & l2 & l3 & l4 & l5 & l6 & l7 & l8 & θ & Hlay & _).
  destruct Hw as (_ & _ & Hsh & Hval & Hinj).
  destruct (store_loaded_valid loaded w Hval Hinj) as (_ & _ & Hkeys).
  unfold grad_sources in Hsh.
  apply Forall_cons in Hsh as [H1 Hsh]. apply Forall_cons in Hsh as [H2 Hsh].
  apply Forall_cons in Hsh as [H3 Hsh]. apply Forall_cons in Hsh as [H4 _].
  apply shares_params_keys in H1 as [[rW1 HW1]%Hkeys [rb1 Hb1]%Hkeys].
  apply shares_params_keys in H2 as [[rW2 HW2]%Hkeys [rb2 Hb2]%Hkeys].
  apply shares_params_keys in H3 as [[rW3 HW3]%Hkeys [rb3 Hb3]%Hkeys].
  apply shares_params_keys in H4 as [[rW4 HW4]%Hkeys [rb4 Hb4]%Hkeys].
  cbn [fst snd] in *.
  exists l1, l2, l3, l4, l5, l6, l7, l8, rW1, rb1, rW2, rb2, rW3, rb3, rW4, rb4.
  split; [exact Hlay |].
  split; [by apply load_params_result |].
  repeat split; assumption.
Qed.

(** [load_params] on a well-formed network: it returns, the network stays
    well-formed and holds the loaded arrays. *)
Lemma load_params_spec (cp : conv_param) (loaded : list (string * ndarray))
    (w : world) :
  well_formed cp w ->
  NoDup (map fst loaded) ->
  fst (load_params loaded w) = Ok tt
  /\ well_formed cp (snd (load_params loaded w))
  /\ (forall key a, (key, a) ∈ loaded ->
        param_array (snd (load_params loaded w)) key = Ok a).
Proof.
  intros Hw Hnd.
  destruct (load_params_world cp loaded w Hw)
    as (l1 & l2 & l3 & l4 & l5 & l6 & l7 & l8
        & rW1 & rb1 & rW2 & rb2 & rW3 & rb3 & rW4 & rb4
        & Hlay & -> & HW1 & Hb1 & HW2 & Hb2 & HW3 & Hb3 & HW4 & Hb4).
  destruct Hw as (Hn & Hk & _ & Hval & Hinj).
  destruct (store_loaded_spec loaded w Hnd) as (_ & Hin & _ & _).
  destruct (store_loaded_valid loaded w Hval Hinj) as (Hval1 & Hinj1 & _).
  cbn [fst snd].
  split; [reflexivity | split].
  - unfold well_formed. cbn [layers params heap set_layers].
    split; [reflexivity |]. split.
    { rewrite Hlay in Hk. cbn [map snd] in Hk |- *. exact Hk. }
    split; [| split; [exact Hval1 | exact Hinj1]].
    unfold grad_sources, shares_params.
    repeat (apply Forall_cons_2 || apply Forall_nil_2);
      cbn [fst snd layers params set_layers assoc_get String.eqb Ascii.eqb Bool.eqb];
      do 3 eexists; repeat split; eauto.
  - intros key a Hka. destruct (Hin key a Hka) as (r & Hp & Hh & _).
    unfold param_array, deref. cbn [params heap set_layers].
    by rewrite Hp, Hh.
Qed.

(** The first loop for a file without shared arrays. *)
Lemma store_pickled_unshared (items : pickled) (memo : gmap nat loc) (w : world) :
  NoDup (identities items) ->
  (forall id, id ∈ identities items -> memo !! id = None) ->
  store_pickled items memo w = store_loaded (contents items) w.
Proof.
  revert memo w. induction items as [|[key [id val]] items IH]; intros memo w Hnd Hm;
    [reflexivity |].
  cbn [identities map fst snd] in Hnd. apply NoDup_cons in Hnd as [Hid Hnd].
  cbn [store_pickled contents map fst snd store_loaded].
  rewrite (Hm id) by (cbn; set_solver).
  cbn [alloc]. apply IH; [exact Hnd |].
  intros id' Hid'. rewrite lookup_insert_ne by (intros ->; contradiction).
  apply Hm. cbn. set_solver.
Qed.

Lemma load_pickled_unshared (items : pickled) (w : world) :
  NoDup (identities items) ->
  load_pickled items w = load_params (contents items) w.
Proof.
  intros Hnd. unfold load_pickled, load_params. unfold_M.
  by rewrite (store_pickled_unshared items ∅ w Hnd).
Qed.

(** What the first loop leaves alone, for any file. *)
Lemma store_pickled_frame (items : pickled) (memo : gmap nat loc) (w : world) :
  layers (store_pickled items memo w) = layers w
  /\ last_layer (store_pickled items memo w) = last_layer w
  /\ calls (store_pickled items memo w) = calls w
  /\ (forall key, is_Some (params w !! key) ->
        is_Some (params (store_pickled items memo w) !! key))
  /\ (forall key, key ∉ map fst items ->
        params (store_pickled items memo w) !! key = params w !! key)
  /\ (forall r, r ∈ dom (heap w) ->
        heap (store_pickled items memo w) !! r = heap w !! r).
Proof.
  revert memo w. induction items as [|[key [id val]] items IH]; intros memo w.
  - repeat split; auto.
  - cbn [store_pickled alloc].
    assert (forall (w1 : world) (memo1 : gmap nat loc) (r : loc),
              layers w1 = layers w -> last_layer w1 = last_layer w ->
              calls w1 = calls w -> params w1 = <[key:=r]> (params w) ->
              (forall r0, r0 ∈ dom (heap w) -> heap w1 !! r0 = heap w !! r0) ->
              (forall r0, r0 ∈ dom (heap w) -> r0 ∈ dom (heap w1)) ->
              layers (store_pickled items memo1 w1) = layers w
              /\ last_layer (store_pickled items memo1 w1) = last_layer w
              /\ calls (store_pickled items memo1 w1) = calls w
              /\ (forall key0, is_Some (params w !! key0) ->
                    is_Some (params (store_pickled items memo1 w1) !! key0))
              /\ (forall key0, key0 ∉ map fst ((key, (id, val)) :: items) ->
                    params (store_pickled items memo1 w1) !! key0
                    = params w !! key0)
              /\ (forall r0, r0 ∈ dom (heap w) ->
                    heap (store_pickled items memo1 w1) !! r0 = heap w !! r0))
      as Hstep.
    { intros w1 memo1 r Hl Hll Hc Hp Hh Hd.
      destruct (IH memo1 w1) as (Hl' & Hll' & Hc' & Hk' & Ho' & Hh').
      split; [congruence | split; [congruence | split; [congruence |]]].
      split; [| split].
      - intros key0 Hs. apply Hk'. rewrite Hp.
        destruct (decide (key = key0)) as [<- | Hne];
          [rewrite lookup_insert_eq; eauto | by rewrite lookup_insert_ne].
      - intros key0 Hk0. cbn [map fst] in Hk0.
        apply not_elem_of_cons in Hk0 as [Hne Hk0].
        rewrite Ho' by exact Hk0. rewrite Hp. by apply lookup_insert_ne.
      - intros r0 Hr0. rewrite Hh' by (by apply Hd). by apply Hh. }
    destruct (memo !! id) as [r|].
    + apply (Hstep _ _ r); auto.
    + apply (Hstep _ _ (fresh (dom (heap w)))); try reflexivity.
      * intros r0 Hr0. cbn. apply lookup_insert_ne.
        intros <-. by apply (is_fresh (dom (heap w))).
      * intros r0 Hr0. cbn. rewrite dom_insert_L. set_solver.
Qed.

(** An array object that unpickling has created is what every later key
    of its identity is bound to. *)
Lemma store_pickled_memo (items : pickled) (memo : gmap nat loc) (w : world)
    (key : string) (id : nat) (a : ndarray) (r : loc) :
  NoDup (map fst items) ->
  memo !! id = Some r ->
  (key, (id, a)) ∈ items ->
  params (store_pickled items memo w) !! key = Some r.
Proof.
  revert memo w. induction items as [|[k0 [id0 a0]] items IH]; intros memo w Hnd Hm Hin;
    [by apply elem_of_nil in Hin |].
  cbn [map fst] in Hnd. apply NoDup_cons in Hnd as [Hk0 Hnd].
  cbn [store_pickled alloc].
  apply elem_of_cons in Hin as [[= <- <- <-] | Hin].
  - rewrite Hm.
    destruct (store_pickled_frame items memo
                (set_params (<[key:=r]> (params w)) w)) as (_ & _ & _ & _ & Ho & _).
    rewrite Ho by exact Hk0. cbn. apply lookup_insert_eq.
  - destruct (memo !! id0) as [r0|] eqn:Hm0.
    + by apply IH.
    + apply IH; [exact Hnd | | exact Hin].
      rewrite lookup_insert_ne; [exact Hm |]. intros ->. congruence.
Qed.

(** Two keys of one identity are bound to one array object. *)
Lemma store_pickled_shared (items : pickled) (memo : gmap nat loc) (w : world)
    (k1 k2 : string) (id : nat) (a1 a2 : ndarray) :
  NoDup (map fst items) ->
  (k1, (id, a1)) ∈ items -> (k2, (id, a2)) ∈ items ->
  exists r, params (store_pickled items memo w) !! k1 = Some r
            /\ params (store_pickled items memo w) !! k2 = Some r.
Proof.
  revert memo w. induction items as [|[k0 [id0 a0]] items IH]; intros memo w Hnd H1 H2;
    [by apply elem_of_nil in H1 |].
  pose proof Hnd as Hnd0.
  cbn [map fst] in Hnd. apply NoDup_cons in Hnd as [Hk0 Hnd].
  assert (forall (k : string) (a : ndarray) (memo1 : gmap nat loc) (w1 : world)
                 (r : loc),
            memo1 !! id0 = Some r -> params w1 !! k0 = Some r ->
            (k, (id0, a)) ∈ (k0, (id0, a0)) :: items ->
            params (store_pickled items memo1 w1) !! k = Some r) as Hhead.
  { intros k a memo1 w1 r Hm Hp [[= -> _] | Hin]%elem_of_cons.
    - destruct (store_pickled_frame items memo1 w1) as (_ & _ & _ & _ & Ho & _).
      by rewrite Ho.
    - by apply (store_pickled_memo items memo1 w1 k id0 a r). }
  cbn [store_pickled alloc].
  destruct (decide (id = id0)) as [-> | Hid].
  - destruct (memo !! id0) as [r|] eqn:Hm.
    + exists r. split; eapply Hhead; eauto; cbn; apply lookup_insert_eq.
    + exists (fresh (dom (heap w))).
      split; eapply Hhead; eauto; cbn; apply lookup_insert_eq.
  - apply elem_of_cons in H1 as [[= _ Heq _] | H1]; [congruence |].
    apply elem_of_cons in H2 as [[= _ Heq _] | H2]; [congruence |].
    destruct (memo !! id0); by apply IH.
Qed.

(** On a well-formed network [load_params] returns for any file;
    the layers are rebound to what the parameter dictionary holds. *)
Lemma load_pickled_world (cp : conv_param) (items : pickled) (w : world) :
  well_formed cp w ->
  exists ls : list (string * layer),
    load_pickled items w = (Ok tt, set_layers ls (store_pickled items ∅ w))
    /\ map (fun kl => (cached (snd kl), dW (snd kl), db (snd kl))) ls
       = map (fun kl => (cached (snd kl), dW (snd kl), db (snd kl))) (layers w).
Proof.
  intros Hw.
  destruct (well_formed_inv cp w Hw)
    as (l1 & l2 & l3 & l4 & l5 & l6 & l7 & l8 & θ & Hlay & _).
  destruct Hw as (_ & _ & Hsh & _ & _).
  destruct (store_pickled_frame items ∅ w) as (Hl & _ & _ & Hkeys & _ & _).
  unfold grad_sources in Hsh.
  apply Forall_cons in Hsh as [H1 Hsh]. apply Forall_cons in Hsh as [H2 Hsh].
  apply Forall_cons in Hsh as [H3 Hsh]. apply Forall_cons in Hsh as [H4 _].
  apply shares_params_keys in H1 as [[rW1 HW1]%Hkeys [rb1 Hb1]%Hkeys].
  apply shares_params_keys in H2 as [[rW2 HW2]%Hkeys [rb2 Hb2]%Hkeys].
  apply shares_params_keys in H3 as [[rW3 HW3]%Hkeys [rb3 Hb3]%Hkeys].
  apply shares_params_keys in H4 as [[rW4 HW4]%Hkeys [rb4 Hb4]%Hkeys].
  cbn [fst snd] in *. rewrite Hlay in Hl.
  eexists. split.
  - unfold load_pickled. unfold_M.
    set (w1 := store_pickled items ∅ w) in *.
    change (py_enumerate ["Conv1"; "Affine1"; "Affine2"; "Affine3"]%string)
      with [(0, "Conv1"); (1, "Affine1"); (2, "Affine2"); (3, "Affine3")]%string.
    rewrite (rebind_step 0 _ _ _ rW1 rb1 l1);
      [| exact HW1 | exact Hb1 | by rewrite Hl].
    rewrite (rebind_step 1 _ _ _ rW2 rb2 l4);
      [| exact HW2 | exact Hb2 | cbn [layers set_layers]; by rewrite Hl].
    rewrite (rebind_step 2 _ _ _ rW3 rb3 l6);
      [| exact HW3 | exact Hb3 | cbn [layers set_layers]; by rewrite Hl].
    rewrite (rebind_step 3 _ _ _ rW4 rb4 l8);
      [| exact HW4 | exact Hb4 | cbn [layers set_layers]; by rewrite Hl].
    cbn [rebind_layers layers set_layers]. rewrite Hl. reflexivity.
  - rewrite Hlay. reflexivity.
Qed.

(** On a well-formed network [load_params] never raises, whatever the
    dictionary read from the file holds: every parameter outside the file
    keeps its array, and caches, gradients and the record of calls stay as
    they were. When no array of the file is held under two keys, the
    network stays well-formed and the parameters of the file hold the
    loaded arrays; an array that the file holds under two keys is one
    array object under both afterwards, and the network is no longer
    well-formed. *)
Theorem load_params_keeps_well_formed (cp : conv_param) (items : pickled)
    (w : world) :
  well_formed cp w ->
  NoDup (map fst items) ->
  fst (load_pickled items w) = Ok tt
  /\ (NoDup (identities items) ->
      well_formed cp (snd (load_pickled items w))
      /\ forall key id a, (key, (id, a)) ∈ items ->
           param_array (snd (load_pickled items w)) key = Ok a)
  /\ (forall k1 k2 id a1 a2,
        (k1, (id, a1)) ∈ items -> (k2, (id, a2)) ∈ items -> k1 <> k2 ->
        params (snd (load_pickled items w)) !! k1
        = params (snd (load_pickled items w)) !! k2
        /\ ~ well_formed cp (snd (load_pickled items w)))
  /\ (forall key, key ∉ map fst items ->
        param_array (snd (load_pickled items w)) key = param_array w key)
  /\ map (fun kl => (cached (snd kl), dW (snd kl), db (snd kl)))
         (layers (snd (load_pickled items w)))
     = map (fun kl => (cached (snd kl), dW (snd kl), db (snd kl))) (layers w)
  /\ last_layer (snd (load_pickled items w)) = last_layer w
  /\ calls (snd (load_pickled items w)) = calls w.
Proof.
  intros Hw Hnd.
  destruct (load_pickled_world cp items w Hw) as (ls & Hload & Hls).
  destruct (store_pickled_frame items ∅ w) as (_ & Hll & Hcalls & _ & Hother & Hold).
  split; [by rewrite Hload |].
  split; [| split; [| split; [| split; [| split]]]].
  - intros Hids. rewrite (load_pickled_unshared items w Hids).
    assert (NoDup (map fst (contents items))) as Hnd'
      by (unfold contents; rewrite map_map; exact Hnd).
    destruct (load_params_spec cp (contents items) w Hw Hnd') as (_ & Hwf & Hin).
    split; [exact Hwf |].
    intros key id a Hk. apply Hin. unfold contents.
    apply (list_elem_of_fmap_2 (fun kv : string * (nat * ndarray) =>
                                  (fst kv, snd (snd kv))) _ _ Hk).
  - intros k1 k2 id a1 a2 H1 H2 Hne. rewrite Hload. cbn [snd params set_layers].
    destruct (store_pickled_shared items ∅ w k1 k2 id a1 a2 Hnd H1 H2)
      as (r & Hr1 & Hr2).
    split; [by rewrite Hr1, Hr2 |].
    intros (_ & _ & _ & _ & Hinj). apply Hne.
    apply (Hinj k1 k2 r); cbn [params set_layers]; assumption.
  - intros key Hkey. rewrite Hload. unfold param_array, deref.
    cbn [snd params heap set_layers]. rewrite (Hother key Hkey).
    destruct (params w !! key) as [r|] eqn:Hr; [| reflexivity].
    destruct Hw as (_ & _ & _ & Hval & _).
    by rewrite (Hold r (Hval key r Hr)).
  - rewrite Hload. exact Hls.
  - rewrite Hload. exact Hll.
  - rewrite Hload. exact Hcalls.
Qed.

End Persisting.

Section RoundTrip.
Context `{E : Elt} {LM : LayerMath}.

Lemma res_mapM_Forall2 {A B : Type} (f : A -> res B) (l : list A) :
  (forall x, x ∈ l -> exists y, f x = Ok y) ->
  exists l', res_mapM f l = Ok l' /\ Forall2 (fun x y => f x = Ok y) l l'.
Proof.
  induction l as [|a l IH]; intros Hf.
  - exists []. split; [reflexivity | constructor].
  - destruct (Hf a) as [y Hy]; [set_solver |].
    destruct IH as (l' & Hl' & Hall); [intros x Hx; apply Hf; set_solver |].
    exists (y :: l'). cbn [res_mapM]. rewrite Hy, Hl'.
    split; [reflexivity | by constructor].
Qed.

(** [save_params] hands over every array of the parameter dictionary under
    its key, and changes nothing. *)
Lemma save_params_spec (w : world) :
  (forall key r, params w !! key = Some r -> r ∈ dom (heap w)) ->
  exists file,
    save_params w = (Ok file, w)
    /\ NoDup (map fst file)
    /\ (forall key a, (key, a) ∈ file <-> param_array w key = Ok a).
Proof.
  intros Hval. unfold save_params.
  destruct (res_mapM_Forall2
              (fun kr : string * loc =>
                 a ← deref (heap w) (Some (snd kr)); Ok (fst kr, a))
              (map_to_list (params w))) as (file & Hfile & Hall).
  { intros [key r] Hin%elem_of_map_to_list. cbn [fst snd].
    apply Hval, elem_of_dom in Hin as [a Ha]. exists (key, a).
    unfold deref. by rewrite Ha. }
  exists file. rewrite Hfile. split; [reflexivity |].
  assert (forall (kr : string * loc) (ka : string * ndarray),
            (a ← deref (heap w) (Some (snd kr)); Ok (fst kr, a)) = Ok ka ->
            fst ka = fst kr /\ heap w !! snd kr = Some (snd ka)) as Hstep.
  { intros [k r] [k' a]. unfold deref. cbn [fst snd]. unfold_res.
    destruct (heap w !! r); [| discriminate]. by intros [= -> ->]. }
  split.
  - assert (map fst file = map fst (map_to_list (params w))) as ->.
    { clear Hfile. induction Hall as [|kr ka l l' Hka _ IH]; [reflexivity |].
      cbn [map]. apply Hstep in Hka as [-> _]. by rewrite IH. }
    apply NoDup_fst_map_to_list.
  - intros key a. unfold param_array, deref. split.
    + intros (i & Hi)%list_elem_of_lookup.
      destruct (Forall2_lookup_r _ _ _ _ _ Hall Hi) as ([k r] & Hkr & Hf).
      apply Hstep in Hf as [Hk Hr]. cbn [fst snd] in Hk, Hr. subst k.
      apply list_elem_of_lookup_2, elem_of_map_to_list in Hkr.
      by rewrite Hkr, Hr.
    + destruct (params w !! key) as [r|] eqn:Hkr; [| discriminate].
      destruct (heap w !! r) as [a'|] eqn:Hr; [| discriminate]. intros [= ->].
      apply elem_of_map_to_list, list_elem_of_lookup in Hkr as [i Hi].
      destruct (Forall2_lookup_l _ _ _ _ _ Hall Hi) as ([k' a'] & Hka & Hf).
      apply Hstep in Hf as [Hk Hr']. cbn [fst snd] in Hk, Hr'. subst k'.
      rewrite Hr in Hr'. injection Hr' as <-.
      by apply list_elem_of_lookup_2 in Hka.
Qed.

(** Saving the parameters of one network and loading them into another
    of the same layers (or into the same one) makes the second compute
    what the first computes: [save_params] returns and changes nothing,
    [load_params] returns and leaves a well-formed network, every key of
    the first network holds the first network's array, and [predict] gives
    the same outcome on every input. *)
Theorem save_then_load_gives_same_predictions (cp : conv_param) (w1 w2 : world) :
  well_formed cp w1 ->
  well_formed cp w2 ->
  exists file,
    save_params w1 = (Ok file, w1)
    /\ fst (load_params file w2) = Ok tt
    /\ well_formed cp (snd (load_params file w2))
    /\ (forall key, is_Some (params w1 !! key) ->
          param_array (snd (load_params file w2)) key = param_array w1 key)
    /\ read_parameters (snd (load_params file w2)) = read_parameters w1
    /\ forall x, fst (predict x (snd (load_params file w2))) = fst (predict x w1).
Proof.
  intros Hw1 Hw2.
  pose proof Hw1 as (_ & _ & Hsh & Hval & _).
  destruct (save_params_spec w1 Hval) as (file & Hsave & Hnd & Hfile).
  exists file. split; [exact Hsave |].
  destruct (load_params_spec cp file w2 Hw2 Hnd) as (Hok & Hwf & Hin).
  split; [exact Hok |]. split; [exact Hwf |].
  assert (forall key, is_Some (params w1 !! key) ->
            param_array (snd (load_params file w2)) key = param_array w1 key)
    as Hkeys.
  { intros key [r Hr].
    pose proof (Hval key r Hr) as Hdom. apply elem_of_dom in Hdom as [a Ha].
    assert (param_array w1 key = Ok a) as Hpa
      by (unfold param_array, deref; by rewrite Hr, Ha).
    rewrite Hpa. apply Hin, Hfile, Hpa. }
  split; [exact Hkeys |].
  assert (read_parameters (snd (load_params file w2)) = read_parameters w1) as Hread.
  { unfold grad_sources in Hsh.
    apply Forall_cons in Hsh as [H1 Hsh]. apply Forall_cons in Hsh as [H2 Hsh].
    apply Forall_cons in Hsh as [H3 Hsh]. apply Forall_cons in Hsh as [H4 _].
    apply shares_params_keys in H1 as [HW1%Hkeys Hb1%Hkeys].
    apply shares_params_keys in H2 as [HW2%Hkeys Hb2%Hkeys].
    apply shares_params_keys in H3 as [HW3%Hkeys Hb3%Hkeys].
    apply shares_params_keys in H4 as [HW4%Hkeys Hb4%Hkeys].
    cbn [fst snd] in *. unfold read_parameters.
    by rewrite HW1, Hb1, HW2, Hb2, HW3, Hb3, HW4, Hb4. }
  split; [exact Hread |].
  intros x.
  destruct (well_formed_predict cp w1 Hw1) as (θ1 & Hθ1 & Hp1).
  destruct (well_formed_predict cp _ Hwf) as (θ2 & Hθ2 & Hp2).
  rewrite Hp1, Hp2. rewrite Hread, Hθ1 in Hθ2. by injection Hθ2 as ->.
Qed.

End RoundTrip.

(** ** The methods on a well-formed network *)

Section KeptWellFormed.
Context `{E : Elt} {LM : LayerMath}.

Lemma assoc_get_statics (ls ls' : list (string * layer)) (name : string) (l : layer) :
  statics ls' = statics ls ->
  assoc_get name ls = Some l ->
  exists l', assoc_get name ls' = Some l' /\ static l' = static l.
Proof.
  revert ls'. induction ls as [|[k v] ls IH]; intros [|[k' v'] ls'] Hs;
    try discriminate.
  cbn [statics map fst snd] in Hs. apply (f_equal head) in Hs as Hhd.
  apply (f_equal tail) in Hs. cbn [head tail] in Hhd, Hs.
  assert (k' = k /\ static v' = static v) as [-> Hst] by (split; congruence).
  cbn [assoc_get]. destruct (String.eqb k name).
  - intros [= <-]. eauto.
  - by apply IH.
Qed.

(** Being well-formed depends on the arrays that exist, on the parameter
    dictionary and on the class and the references of the layers only. *)
Lemma well_formed_frame (cp : conv_param) (w w' : world) :
  dom (heap w') = dom (heap w) ->
  params w' = params w ->
  statics (layers w') = statics (layers w) ->
  well_formed cp w -> well_formed cp w'.
Proof.
  intros Hh Hp Hs (Hn & Hk & Hsh & Hval & Hinj).
  unfold well_formed. rewrite Hh, Hp.
  assert (forall ls : list (string * layer), map fst ls = map fst (statics ls)) as Hfst
    by (intros ls; unfold statics; by rewrite map_map).
  assert (forall ls : list (string * layer),
            map (fun kl => kind (snd kl)) ls
            = map (fun ks => fst (fst (snd ks))) (statics ls)) as Hkind
    by (intros ls; unfold statics; by rewrite map_map).
  split; [by rewrite Hfst, Hs, <- Hfst |].
  split; [by rewrite Hkind, Hs, <- Hkind |].
  split; [| done].
  eapply Forall_impl; [exact Hsh |].
  intros src (l & rW & rb & Hl & HW & Hb & HpW & Hpb).
  destruct (assoc_get_statics _ _ _ _ Hs Hl) as (l' & Hl' & Hst).
  unfold static in Hst. injection Hst as _ HW' Hb'.
  exists l', rW, rb. rewrite Hp. repeat split; congruence.
Qed.

Lemma read_parameters_frame (w w' : world) :
  heap w' = heap w -> params w' = params w ->
  read_parameters w' = read_parameters w.
Proof.
  intros Hh Hp. unfold read_parameters, param_array. by rewrite Hh, Hp.
Qed.

Lemma keeps_well_formed {A : Type} (m : M A) (cp : conv_param) (w : world) :
  keeps_parameters m -> well_formed cp w ->
  well_formed cp (snd (m w))
  /\ read_parameters (snd (m w)) = read_parameters w.
Proof.
  intros Hk Hw. specialize (Hk w). unfold parameters_of in Hk.
  injection Hk as Hh Hp Hs. split.
  - apply (well_formed_frame cp w); [by rewrite Hh | exact Hp | exact Hs | exact Hw].
  - by apply read_parameters_frame.
Qed.

(** Whatever has been called on a well-formed network ([predict], [loss],
    [accuracy] or [gradient], returning or raising), the network stays
    well-formed and [predict] still computes the network function of the
    same parameter arrays. *)
Theorem methods_keep_the_network_function (cp : conv_param) (w : world)
    (θ : parameters) (x t : ndarray) (batch_size : Z) :
  well_formed cp w ->
  read_parameters w = Ok θ ->
  Forall (fun w' => well_formed cp w'
                    /\ read_parameters w' = Ok θ
                    /\ forall x', fst (predict x' w') = network_function cp θ x')
         [ snd (predict x w); snd (loss x t w);
           snd (accuracy x t batch_size w); snd (gradient x t w) ].
Proof.
  intros Hw Hθ.
  assert (forall (A : Type) (m : M A), keeps_parameters m ->
            well_formed cp (snd (m w))
            /\ read_parameters (snd (m w)) = Ok θ
            /\ forall x', fst (predict x' (snd (m w))) = network_function cp θ x')
    as Hall.
  { intros A m Hk. destruct (keeps_well_formed m cp w Hk Hw) as [Hw' Hr].
    rewrite Hθ in Hr. split; [exact Hw' | split; [exact Hr |]].
    destruct (well_formed_predict cp _ Hw') as (θ' & Hθ' & Hp).
    rewrite Hr in Hθ'. injection Hθ' as <-. exact Hp. }
  repeat (apply Forall_cons_2 || apply Forall_nil_2); apply Hall.
  - apply keeps_predict.
  - apply keeps_loss.
  - apply keeps_accuracy.
  - apply keeps_gradient.
Qed.

End KeptWellFormed.

(** ** The training loop *)

Section Schedule.

(** [i % q == 0] when the float [q] holds the whole number [k]. *)
Lemma py_mod_is_zero_whole (i k : Z) (q : Q) :
  0 < k -> (q == inject_Z k)%Q ->
  py_mod_is_zero i q = Ok (i mod k =? 0).
Proof.
  intros Hk Hq. unfold py_mod_is_zero.
  rewrite Hq.
  assert (Qeq_bool (inject_Z k) 0 = false) as ->.
  { destruct (Qeq_bool (inject_Z k) 0) eqn:Hz; [| reflexivity].
    apply Qeq_bool_eq in Hz. unfold Qeq in Hz. cbn in Hz. lia. }
  f_equal.
  assert (Qfloor (inject_Z i / q) = i / k) as ->.
  { rewrite Zdiv_Qdiv. apply Qfloor_comp, Qdiv_comp; [reflexivity | exact Hq]. }
  assert (inject_Z i - inject_Z (i / k) * q == inject_Z (i mod k))%Q as Hm.
  { transitivity (inject_Z i - inject_Z (i / k) * inject_Z k)%Q.
    - apply Qplus_comp; [reflexivity |].
      apply Qopp_comp, Qmult_comp; [reflexivity | exact Hq].
    - unfold Qminus.
      rewrite <- inject_Z_mult, <- inject_Z_opp, <- inject_Z_plus.
      rewrite Z.mod_eq by lia. apply inject_Z_injective. lia. }
  rewrite (Qeqb_comp _ _ Hm 0%Q 0%Q (Qeq_refl 0)).
  destruct (Z.eqb_spec (i mod k) 0) as [-> | Hne]; [reflexivity |].
  destruct (Qeq_bool (inject_Z (i mod k)) 0) eqn:Hz; [| reflexivity].
  apply Qeq_bool_eq in Hz. unfold Qeq in Hz. cbn in Hz. lia.
Qed.

Lemma py_max_1_whole (k a b : Z) :
  0 < b -> 0 < k -> a = k * b ->
  (py_max_1 (inject_Z a / inject_Z b) == inject_Z k)%Q.
Proof.
  intros Hb Hk ->.
  assert (inject_Z (k * b) / inject_Z b == inject_Z k)%Q as Hq.
  { rewrite inject_Z_mult. field. unfold Qeq. cbn. lia. }
  unfold py_max_1. destruct (Qlt_le_dec _ 1) as [Hlt | _]; [| exact Hq].
  rewrite Hq in Hlt. unfold Qlt in Hlt. cbn in Hlt. lia.
Qed.

Lemma py_max_1_small (a b : Z) :
  0 <= a < b -> py_max_1 (inject_Z a / inject_Z b) = 1%Q.
Proof.
  intros Hab. unfold py_max_1. destruct (Qlt_le_dec _ 1) as [_ | Hle]; [reflexivity |].
  exfalso. apply (Qmult_le_r _ _ (inject_Z b)) in Hle;
    [| unfold Qlt; cbn; lia].
  assert (inject_Z a / inject_Z b * inject_Z b == inject_Z a)%Q as Hq
    by (field; unfold Qeq; cbn; lia).
  rewrite Hq in Hle. unfold Qle in Hle. cbn in Hle. lia.
Qed.

(** The multiples of [k] below [n] are ceil(n / k) many. *)
Lemma count_multiples (k : Z) (n : nat) :
  0 < k ->
  length (filter (fun i => (i mod k =? 0) = true) (map Z.of_nat (seq 0 n)))
  = Z.to_nat ((Z.of_nat n + k - 1) / k).
Proof.
  intros Hk. induction n as [|n IH].
  - cbn. rewrite Z.div_small by lia. reflexivity.
  - rewrite seq_S, map_app, filter_app, length_app, IH. cbn [map Nat.add].
    pose proof (Z.div_mod (Z.of_nat n) k ltac:(lia)) as Hdm.
    pose proof (Z.mod_pos_bound (Z.of_nat n) k Hk) as Hb.
    set (a := Z.of_nat n / k) in *. set (r := Z.of_nat n mod k) in *.
    assert (0 <= a) as Ha by (apply Z.div_pos; lia).
    assert ((Z.of_nat (S n) + k - 1) / k = a + 1) as ->
      by (symmetry; apply (Z.div_unique _ _ _ r); lia).
    destruct (Z.eqb_spec r 0) as [Hr | Hr].
    + assert ((Z.of_nat n + k - 1) / k = a) as ->
        by (symmetry; apply (Z.div_unique _ _ _ (k - 1)); lia).
      rewrite filter_cons_True by (apply Z.eqb_eq; exact Hr). cbn. lia.
    + assert ((Z.of_nat n + k - 1) / k = a + 1) as ->
        by (symmetry; apply (Z.div_unique _ _ _ (r - 1)); lia).
      rewrite filter_cons_False by (intros Heq%Z.eqb_eq; contradiction). cbn. lia.
Qed.

End Schedule.

Section TrainingLoop.
Context `{E : Elt} {LM : LayerMath} {RN : Random} {DR : Driver}.

Lemma call_Ok {A : Type} (m : M A) (w w' : world) (a : A) :
  call m w = Ok (a, w') -> m w = (Ok a, w').
Proof. unfold call. destruct (m w) as [[a'|e] w1]; by intros [= -> ->]. Qed.

(** An iteration that ends: its steps in turn. *)
Lemma train_iteration_Ok (x_train t_train x_test t_test : ndarray)
    (train_size batch_size : Z) (iter_per_epoch : Q) (i : Z) (s s' : progress) :
  train_iteration x_train t_train x_test t_test train_size batch_size
    iter_per_epoch i s = Ok s' ->
  exists (mask : list Z) (x_batch t_batch : ndarray)
         (grad : gmap string (option ndarray)) (w1 w2 w3 : world) (l : elt)
         (epoch : bool),
    choice (generator s) train_size batch_size = Ok (mask, generator s')
    /\ np_take x_train mask = Ok x_batch
    /\ np_take t_train mask = Ok t_batch
    /\ gradient x_batch t_batch (network s) = (Ok grad, w1)
    /\ optimizer_update (adam s) grad w1 = Ok (adam s', w2)
    /\ loss x_batch t_batch w2 = (Ok l, w3)
    /\ py_mod_is_zero i iter_per_epoch = Ok epoch
    /\ train_loss_list s' = train_loss_list s ++ [l]
    /\ if epoch
       then exists (a1 a2 : Q) (w4 : world),
              accuracy x_train t_train default_batch_size w3 = (Ok a1, w4)
              /\ accuracy x_test t_test default_batch_size w4 = (Ok a2, network s')
              /\ train_acc_list s' = train_acc_list s ++ [a1]
              /\ test_acc_list s' = test_acc_list s ++ [a2]
       else network s' = w3
            /\ train_acc_list s' = train_acc_list s
            /\ test_acc_list s' = test_acc_list s.
Proof.
  unfold train_iteration. intros H.
  apply res_bind_Ok in H as ([mask g] & Hc & H).
  apply res_bind_Ok in H as (x_batch & Hx & H).
  apply res_bind_Ok in H as (t_batch & Ht & H).
  apply res_bind_Ok in H as ([grad w1] & Hg%call_Ok & H).
  apply res_bind_Ok in H as ([o w2] & Ho & H).
  apply res_bind_Ok in H as ([l w3] & Hl%call_Ok & H).
  apply res_bind_Ok in H as (epoch & He & H).
  exists mask, x_batch, t_batch, grad, w1, w2, w3, l, epoch.
  destruct epoch.
  - apply res_bind_Ok in H as ([a1 w4] & Ha1%call_Ok & H).
    apply res_bind_Ok in H as ([a2 w5] & Ha2%call_Ok & H).
    injection H as <-. cbn.
    repeat (split; [assumption || reflexivity |]).
    exists a1, a2, w4. auto.
  - injection H as <-. cbn.
    repeat (split; [assumption || reflexivity |]). auto.
Qed.

Lemma write_back_dom (ps : gmap string loc) (vals : gmap string ndarray)
    (h : gmap loc ndarray) :
  (forall key r, ps !! key = Some r -> r ∈ dom h) ->
  dom (write_back ps vals h) = dom h.
Proof.
  intros Hval. unfold write_back.
  assert (forall kr, kr ∈ map_to_list ps -> snd kr ∈ dom h) as Hl
    by (intros [k r] Hin%elem_of_map_to_list; eapply Hval; exact Hin).
  induction (map_to_list ps) as [|[k r] l IH]; [reflexivity |].
  cbn [foldr fst snd].
  assert (r ∈ dom h) as Hr by (apply (Hl (k, r)); set_solver).
  assert (dom (foldr (fun kr h0 => match vals !! fst kr with
                                   | Some a => <[snd kr:=a]> h0
                                   | None => h0
                                   end) h l) = dom h) as Hd
    by (apply IH; intros kr Hkr; apply Hl; set_solver).
  destruct (vals !! k); [| exact Hd].
  rewrite dom_insert_L, Hd. set_solver.
Qed.

(** The array under a key after the in-place update. *)
Lemma write_back_lookup (ps : gmap string loc) (vals : gmap string ndarray)
    (h : gmap loc ndarray) (key : string) (r : loc) :
  (forall k1 k2 r, ps !! k1 = Some r -> ps !! k2 = Some r -> k1 = k2) ->
  ps !! key = Some r ->
  write_back ps vals h !! r
  = match vals !! key with Some a => Some a | None => h !! r end.
Proof.
  intros Hinj Hkey. unfold write_back.
  assert (forall k', (k', r) ∈ map_to_list ps -> k' = key) as Huniq
    by (intros k' Hin%elem_of_map_to_list; by apply (Hinj k' key r)).
  assert ((key, r) ∈ map_to_list ps) as Hin by by apply elem_of_map_to_list.
  set (step := fun (kr : string * loc) (h0 : gmap loc ndarray) =>
                 match vals !! fst kr with
                 | Some a => <[snd kr:=a]> h0
                 | None => h0
                 end).
  assert (forall l : list (string * loc),
            (forall k', (k', r) ∈ l -> k' = key) ->
            foldr step h l !! r
            = match vals !! key with
              | Some a => if bool_decide ((key, r) ∈ l) then Some a else h !! r
              | None => h !! r
              end) as Hgen.
  { induction l as [|[k' r'] l IH]; intros Hu.
    - cbn. by destruct (vals !! key).
    - cbn [foldr]. unfold step at 1. cbn [fst snd].
      assert (forall k'0, (k'0, r) ∈ l -> k'0 = key) as Hu'
        by (intros k0 Hk0; apply Hu; set_solver).
      specialize (IH Hu').
      destruct (decide (r' = r)) as [-> | Hne].
      + assert (k' = key) as -> by (apply Hu; set_solver).
        destruct (vals !! key) as [a|] eqn:Hv.
        * rewrite lookup_insert_eq.
          rewrite bool_decide_eq_true_2 by set_solver. reflexivity.
        * exact IH.
      + assert (foldr step h l !! r
                = match vals !! key with
                  | Some a => if bool_decide ((key, r) ∈ (k', r') :: l)
                              then Some a else h !! r
                  | None => h !! r
                  end) as Hgoal.
        { rewrite IH. destruct (vals !! key); [| reflexivity].
          destruct (decide ((key, r) ∈ l)) as [Hl | Hl].
          - rewrite !bool_decide_eq_true_2 by set_solver. reflexivity.
          - rewrite !bool_decide_eq_false_2; [reflexivity | | exact Hl].
            intros [[= _ Heq] | ?]%elem_of_cons; [by apply Hne | contradiction]. }
        destruct (vals !! k'); [| exact Hgoal].
        rewrite lookup_insert_ne by exact Hne. exact Hgoal. }
  rewrite (Hgen _ Huniq). destruct (vals !! key); [| reflexivity].
  by rewrite bool_decide_eq_true_2.
Qed.

(** The in-place update changes the contents of arrays, nothing else. *)
Lemma optimizer_update_Ok (o o' : optimizer)
    (grads : gmap string (option ndarray)) (w w' : world) :
  optimizer_update o grads w = Ok (o', w') ->
  exists vals,
    opt_step o (arrays_of w) grads = Ok (o', vals)
    /\ w' = set_heap (write_back (params w) vals (heap w)) w.
Proof.
  unfold optimizer_update. intros H.
  apply res_bind_Ok in H as ([o1 vals] & Hs & H). injection H as <- <-.
  eauto.
Qed.

Lemma same_objects_refl (w : world) : same_objects w w.
Proof. by repeat split. Qed.

Lemma same_objects_trans (w1 w2 w3 : world) :
  same_objects w1 w2 -> same_objects w2 w3 -> same_objects w1 w3.
Proof. intros (? & ? & ?) (? & ? & ?). repeat split; congruence. Qed.

Lemma keeps_same_objects {A : Type} (m : M A) (w w' : world) (r : res A) :
  keeps_parameters m -> m w = (r, w') -> same_objects w w'.
Proof.
  intros Hk Hm. specialize (Hk w). rewrite Hm in Hk. unfold parameters_of in Hk.
  injection Hk as Hh Hp Hs. repeat split; congruence.
Qed.

Lemma well_formed_same_objects (cp : conv_param) (w w' : world) :
  same_objects w w' -> well_formed cp w -> well_formed cp w'.
Proof. intros (Hh & Hp & Hs). by apply well_formed_frame. Qed.

Lemma optimizer_update_same_objects (cp : conv_param) (o o' : optimizer)
    (grads : gmap string (option ndarray)) (w w' : world) :
  well_formed cp w ->
  optimizer_update o grads w = Ok (o', w') -> same_objects w w'.
Proof.
  intros (_ & _ & _ & Hval & _) (vals & _ & ->)%optimizer_update_Ok.
  repeat split. cbn. by apply write_back_dom.
Qed.

Lemma train_iteration_same_objects (cp : conv_param)
    (x_train t_train x_test t_test : ndarray)
    (train_size batch_size : Z) (iter_per_epoch : Q) (i : Z) (s s' : progress) :
  well_formed cp (network s) ->
  train_iteration x_train t_train x_test t_test train_size batch_size
    iter_per_epoch i s = Ok s' ->
  same_objects (network s) (network s').
Proof.
  intros Hw (mask & x_batch & t_batch & grad & w1 & w2 & w3 & l & epoch
             & _ & _ & _ & Hg & Ho & Hl & _ & _ & He)%train_iteration_Ok.
  pose proof (keeps_same_objects _ _ _ _ (keeps_gradient _ _) Hg) as H1.
  pose proof (well_formed_same_objects cp _ _ H1 Hw) as Hw1.
  pose proof (optimizer_update_same_objects cp _ _ _ _ _ Hw1 Ho) as H2.
  pose proof (keeps_same_objects _ _ _ _ (keeps_loss _ _) Hl) as H3.
  assert (same_objects (network s) w3) as H13
    by (eapply same_objects_trans; [eapply same_objects_trans |]; eassumption).
  destruct epoch.
  - destruct He as (a1 & a2 & w4 & Ha1 & Ha2 & _).
    pose proof (keeps_same_objects _ _ _ _ (keeps_accuracy _ _ _) Ha1) as H4.
    pose proof (keeps_same_objects _ _ _ _ (keeps_accuracy _ _ _) Ha2) as H5.
    eapply same_objects_trans; [eapply same_objects_trans |]; eassumption.
  - destruct He as (-> & _). exact H13.
Qed.

Lemma train_loop_same_objects (cp : conv_param)
    (x_train t_train x_test t_test : ndarray)
    (train_size batch_size : Z) (iter_per_epoch : Q) (idx : list Z)
    (s s' : progress) :
  well_formed cp (network s) ->
  train_loop x_train t_train x_test t_test train_size batch_size
    iter_per_epoch idx s = Ok s' ->
  same_objects (network s) (network s').
Proof.
  revert s. induction idx as [|i idx IH]; intros s Hw.
  - cbn. intros [= <-]. apply same_objects_refl.
  - cbn [train_loop]. intros H.
    apply res_bind_Ok in H as (s1 & H1 & H).
    pose proof (train_iteration_same_objects cp _ _ _ _ _ _ _ _ _ _ Hw H1) as Hs.
    eapply same_objects_trans; [exact Hs |].
    apply IH; [| exact H]. by apply (well_formed_same_objects cp (network s)).
Qed.

(** Training leaves the network as [__init__] has wired it: when the loop
    ends, the network is well-formed, with the array objects, the
    parameter dictionary and the layers' references it started with, so
    that [predict] computes the network function of the arrays that the
    optimizer has left in the parameter dictionary. *)
Theorem training_keeps_well_formed (cp : conv_param)
    (x_train t_train x_test t_test : ndarray) (iters_num batch_size : Z)
    (lr : Q) (w : world) (g : rng) (s' : progress) :
  well_formed cp w ->
  training x_train t_train x_test t_test iters_num batch_size lr w g = Ok s' ->
  well_formed cp (network s')
  /\ same_objects w (network s')
  /\ exists θ : parameters,
       read_parameters (network s') = Ok θ
       /\ forall x, fst (predict x (network s')) = network_function cp θ x.
Proof.
  intros Hw H. unfold training in H.
  apply res_bind_Ok in H as (train_size & _ & H).
  apply res_bind_Ok in H as (q & _ & H).
  apply (train_loop_same_objects cp) in H; [| exact Hw]. cbn [network] in H.
  assert (well_formed cp (network s')) as Hw'
    by by apply (well_formed_same_objects cp w).
  split; [exact Hw' | split; [exact H |]].
  by apply well_formed_predict.
Qed.

Lemma py_max_1_nonzero (q : Q) : Qeq_bool (py_max_1 q) 0 = false.
Proof.
  destruct (Qeq_bool (py_max_1 q) 0) eqn:Hz; [| reflexivity].
  apply Qeq_bool_eq in Hz. unfold py_max_1 in Hz.
  destruct (Qlt_le_dec q 1) as [_ | Hle].
  - unfold Qeq in Hz. cbn in Hz. lia.
  - unfold Qeq in Hz. unfold Qle in Hle. cbn in Hz, Hle. lia.
Qed.

(** The lists that the loop appends to. *)
Lemma train_loop_lists (x_train t_train x_test t_test : ndarray)
    (train_size batch_size : Z) (iter_per_epoch : Q) (ev : Z -> bool)
    (idx : list Z) (s s' : progress) :
  (forall i, py_mod_is_zero i iter_per_epoch = Ok (ev i)) ->
  train_loop x_train t_train x_test t_test train_size batch_size
    iter_per_epoch idx s = Ok s' ->
  length (train_loss_list s') = (length (train_loss_list s) + length idx)%nat
  /\ length (train_acc_list s')
     = (length (train_acc_list s)
        + length (filter (fun i => ev i = true) idx))%nat
  /\ length (test_acc_list s')
     = (length (test_acc_list s)
        + length (filter (fun i => ev i = true) idx))%nat.
Proof.
  intros Hev. revert s. induction idx as [|i idx IH]; intros s.
  - cbn. intros [= <-]. lia.
  - cbn [train_loop]. intros H.
    apply res_bind_Ok in H as (s1 & H1 & H).
    apply IH in H as (Hl & Ha & Ht). rewrite Hl, Ha, Ht. clear IH Hl Ha Ht.
    apply train_iteration_Ok in H1
      as (mask & x_batch & t_batch & grad & w1 & w2 & w3 & l & epoch
          & _ & _ & _ & _ & _ & _ & He & -> & Hep).
    rewrite Hev in He. injection He as <-.
    rewrite length_app. cbn [length].
    destruct (ev i) eqn:Hi.
    + destruct Hep as (a1 & a2 & w4 & _ & _ & -> & ->).
      rewrite filter_cons_True by exact Hi. rewrite !length_app. cbn [length]. lia.
    + destruct Hep as (_ & -> & ->).
      rewrite filter_cons_False by (rewrite Hi; discriminate). lia.
Qed.

(** The loop records one loss per iteration, and one pair of accuracies
    for each iteration whose number is a multiple of iter_per_epoch: for
    a training set of k full batches, at the iterations 0, k, 2k, ...,
    ceil(iters_num / k) times in all; for a training set smaller than a
    batch, at every iteration. With the script's 12000 iterations and
    batches of 100 on 60000 samples, that is 20 times. *)
Theorem training_schedule
    (x_train t_train x_test t_test : ndarray) (iters_num batch_size : Z)
    (lr : Q) (w : world) (g : rng) (s' : progress) :
  training x_train t_train x_test t_test iters_num batch_size lr w g = Ok s' ->
  exists train_size : Z,
    shape0 x_train = Ok train_size
    /\ batch_size <> 0
    /\ length (train_loss_list s') = Z.to_nat iters_num
    /\ length (test_acc_list s') = length (train_acc_list s')
    /\ (forall k : Z,
          0 < batch_size -> 0 < k -> train_size = k * batch_size ->
          length (train_acc_list s')
          = Z.to_nat ((Z.max 0 iters_num + k - 1) / k))
    /\ (0 <= train_size < batch_size ->
        length (train_acc_list s') = Z.to_nat iters_num)
    /\ (iters_num = script_iters_num -> batch_size = script_batch_size ->
        train_size = 60000 -> length (train_acc_list s') = 20%nat).
Proof.
  intros H. unfold training in H.
  apply res_bind_Ok in H as (train_size & Hn & H).
  apply res_bind_Ok in H as (q & Hq & H).
  exists train_size. split; [exact Hn |].
  unfold py_true_div in Hq.
  destruct (Z.eqb_spec batch_size 0) as [| Hb]; [discriminate |].
  injection Hq as <-. split; [exact Hb |].
  set (ipe := py_max_1 (inject_Z train_size / inject_Z batch_size)) in *.
  assert (length (py_range iters_num) = Z.to_nat iters_num) as Hlen
    by (unfold py_range; by rewrite length_map, length_seq).
  assert (forall ev : Z -> bool,
            (forall i, py_mod_is_zero i ipe = Ok (ev i)) ->
            length (train_loss_list s') = Z.to_nat iters_num
            /\ length (train_acc_list s')
               = length (filter (fun i => ev i = true) (py_range iters_num))
            /\ length (test_acc_list s')
               = length (filter (fun i => ev i = true) (py_range iters_num)))
    as Hlists.
  { intros ev Hev.
    destruct (train_loop_lists _ _ _ _ _ _ _ ev _ _ _ Hev H) as (Hl & Ha & Ht).
    cbn [train_loss_list train_acc_list test_acc_list length] in Hl, Ha, Ht.
    rewrite Hl, Ha, Ht, Hlen. auto. }
  assert (forall k : Z,
            0 < batch_size -> 0 < k -> train_size = k * batch_size ->
            length (train_acc_list s')
            = Z.to_nat ((Z.max 0 iters_num + k - 1) / k)) as Hfull.
  { intros k Hbp Hk Hts.
    destruct (Hlists (fun i => i mod k =? 0)) as (_ & -> & _).
    { intros i. apply py_mod_is_zero_whole; [exact Hk |].
      by apply py_max_1_whole. }
    unfold py_range. rewrite (count_multiples k _ Hk).
    f_equal. f_equal. lia. }
  split; [| split; [| split; [exact Hfull | split]]].
  - destruct (Hlists (fun i =>
               Qeq_bool (inject_Z i - inject_Z (Qfloor (inject_Z i / ipe)) * ipe) 0))
      as (Hl & _ & _); [| exact Hl].
    intros i. unfold py_mod_is_zero. subst ipe. by rewrite py_max_1_nonzero.
  - destruct (Hlists (fun i =>
               Qeq_bool (inject_Z i - inject_Z (Qfloor (inject_Z i / ipe)) * ipe) 0))
      as (_ & Ha & Ht); [| congruence].
    intros i. unfold py_mod_is_zero. subst ipe. by rewrite py_max_1_nonzero.
  - intros Hsmall.
    destruct (Hlists (fun i => i mod 1 =? 0)) as (_ & -> & _).
    { intros i. apply py_mod_is_zero_whole; [lia |].
      subst ipe. by rewrite py_max_1_small. }
    unfold py_range. rewrite (count_multiples 1 _ ltac:(lia)).
    rewrite Z.div_1_r. lia.
  - intros -> -> ->. rewrite (Hfull 600); reflexivity.
Qed.

Lemma keeps_heap_params {A : Type} (m : M A) (w w' : world) (r : res A) :
  keeps_parameters m -> m w = (r, w') ->
  heap w' = heap w /\ params w' = params w.
Proof.
  intros Hk Hm. specialize (Hk w). rewrite Hm in Hk. unfold parameters_of in Hk.
  by injection Hk as Hh Hp _.
Qed.

Lemma param_array_frame (w w' : world) (key : string) :
  heap w' = heap w /\ params w' = params w ->
  param_array w' key = param_array w key.
Proof. intros [Hh Hp]. unfold param_array. by rewrite Hh, Hp. Qed.

(** One iteration on a well-formed network: the optimizer is given the
    parameter arrays and the gradient of the minibatch, the values it
    returns are what the parameters hold afterwards (a parameter without a
    value keeps its array), and the loss recorded is that of the updated
    network on the minibatch. *)
Theorem train_iteration_installs_optimizer_values (cp : conv_param)
    (x_train t_train x_test t_test : ndarray)
    (train_size batch_size : Z) (iter_per_epoch : Q) (i : Z) (s s' : progress) :
  well_formed cp (network s) ->
  train_iteration x_train t_train x_test t_test train_size batch_size
    iter_per_epoch i s = Ok s' ->
  exists (mask : list Z) (x_batch t_batch : ndarray)
         (grad : gmap string (option ndarray)) (vals : gmap string ndarray)
         (l : elt) (θ' : parameters),
    choice (generator s) train_size batch_size = Ok (mask, generator s')
    /\ np_take x_train mask = Ok x_batch
    /\ np_take t_train mask = Ok t_batch
    /\ fst (gradient x_batch t_batch (network s)) = Ok grad
    /\ opt_step (adam s) (arrays_of (network s)) grad = Ok (adam s', vals)
    /\ (forall key, is_Some (params (network s) !! key) ->
          param_array (network s') key
          = match vals !! key with
            | Some a => Ok a
            | None => param_array (network s) key
            end)
    /\ train_loss_list s' = train_loss_list s ++ [l]
    /\ read_parameters (network s') = Ok θ'
    /\ (y ← network_function cp θ' x_batch; fst <$> softmax_loss_forward y t_batch)
       = Ok l.
Proof.
  intros Hw Hit.
  pose proof (train_iteration_Ok _ _ _ _ _ _ _ _ _ _ Hit)
    as (mask & x_batch & t_batch & grad & w1 & w2 & w3 & l & epoch
        & Hc & Hx & Ht & Hg & Ho & Hl & _ & Hlist & He).
  pose proof (keeps_heap_params _ _ _ _ (keeps_gradient _ _) Hg) as [Hh1 Hp1].
  pose proof (keeps_same_objects _ _ _ _ (keeps_gradient _ _) Hg) as Hs1.
  pose proof (well_formed_same_objects cp _ _ Hs1 Hw) as Hw1.
  pose proof (optimizer_update_same_objects cp _ _ _ _ _ Hw1 Ho) as Hs2.
  pose proof (well_formed_same_objects cp _ _ Hs2 Hw1) as Hw2.
  apply optimizer_update_Ok in Ho as (vals & Hstep & Hw2eq).
  assert (arrays_of w1 = arrays_of (network s)) as Harr
    by (unfold arrays_of; by rewrite Hh1, Hp1).
  rewrite Harr in Hstep.
  pose proof (keeps_heap_params _ _ _ _ (keeps_loss _ _) Hl) as H3.
  assert (heap (network s') = heap w2 /\ params (network s') = params w2) as Hfin.
  { destruct epoch.
    - destruct He as (a1 & a2 & w4 & Ha1 & Ha2 & _).
      pose proof (keeps_heap_params _ _ _ _ (keeps_accuracy _ _ _) Ha1) as [? ?].
      pose proof (keeps_heap_params _ _ _ _ (keeps_accuracy _ _ _) Ha2) as [? ?].
      destruct H3. split; congruence.
    - destruct He as (-> & _). exact H3. }
  destruct (well_formed_predict cp w2 Hw2) as (θ' & Hθ' & Hpred).
  exists mask, x_batch, t_batch, grad, vals, l, θ'.
  split; [exact Hc | split; [exact Hx | split; [exact Ht |]]].
  split; [by rewrite Hg |]. split; [exact Hstep |].
  split; [| split; [exact Hlist | split]].
  - intros key [r Hr].
    rewrite (param_array_frame w2 _ key Hfin).
    destruct Hw1 as (_ & _ & _ & _ & Hinj).
    assert (params w1 !! key = Some r) as Hr1 by (by rewrite Hp1).
    unfold param_array. rewrite Hr, Hw2eq. cbn [params heap set_heap].
    rewrite Hr1. unfold deref.
    rewrite (write_back_lookup _ vals _ key r Hinj Hr1).
    destruct (vals !! key); [reflexivity |]. by rewrite Hh1.
  - destruct Hfin as [Hh Hp]. by rewrite (read_parameters_frame w2 _ Hh Hp).
  - rewrite <- Hpred.
    pose proof (loss_of_predict x_batch t_batch w2) as Hloss.
    rewrite Hl in Hloss. cbn [fst] in Hloss. by rewrite <- Hloss.
Qed.

End TrainingLoop.

(** ** The further properties on the small network *)

Lemma small_world_init :
  SimpleConvNet_init (InputDim 1 4 4) (ConvParam 1 1 0 1) 2 2 (7 : Z)
  = Ok (small_world, (11 : Z)).
Proof. vm_compute. reflexivity. Qed.

Lemma small_world_well_formed : well_formed (ConvParam 1 1 0 1) small_world.
Proof.
  exact (init_well_formed _ _ _ _ _ _ _ small_world_init).
Qed.

Lemma gradient_order_and_result_witness :
  topology small_world
  /\ well_formed (ConvParam 1 1 0 1) small_world
  /\ exists (grads : gmap string (option ndarray)) (θ : parameters),
       fst (gradient x3 t3 small_world) = Ok grads
       /\ calls (snd (gradient x3 t3 small_world))
          = calls small_world ++ gradient_calls
       /\ dom grads = param_keys
       /\ Forall (bound_to_layer (snd (gradient x3 t3 small_world)) grads)
                 grad_sources
       /\ read_parameters small_world = Ok θ
       /\ gradient_function (ConvParam 1 1 0 1) θ x3 t3 = Ok grads.
Proof.
  split; [split; reflexivity |].
  split; [exact small_world_well_formed |].
  destruct (gradient_order_and_result x3 t3 small_world) as (_ & Hok & Hfun);
    [split; reflexivity |].
  destruct (Hfun _ small_world_well_formed) as (θ & Hθ & Hg).
  assert (exists grads, fst (gradient x3 t3 small_world) = Ok grads)
    as [grads Hgr] by (eexists; vm_compute; reflexivity).
  exists grads, θ.
  destruct (Hok _ Hgr) as (Hc & Hd & Hb & _).
  split; [exact Hgr | split; [exact Hc | split; [exact Hd | split; [exact Hb |]]]].
  split; [exact Hθ |]. rewrite <- Hg. exact Hgr.
Defined.






Lemma partial_file_NoDup : NoDup (map fst partial_file).
Proof.
  refine (bool_decide_unpack (NoDup (map fst partial_file)) _).
  vm_compute. exact I.
Qed.

Lemma loaded_small_world_well_formed :
  well_formed (ConvParam 1 1 0 1) (snd (load_params small_file small_world)).
Proof.
  apply load_params_spec; [exact small_world_well_formed |].
  refine (bool_decide_unpack (NoDup (map fst small_file)) _).
  vm_compute. exact I.
Qed.

Lemma construction_leaves_well_formed_witness :
  SimpleConvNet_init (InputDim 1 4 4) (ConvParam 1 1 0 1) 2 2 (7 : Z)
  = Ok (small_world, (11 : Z))
  /\ well_formed (ConvParam 1 1 0 1) small_world
  /\ dom (params small_world) = param_keys
  /\ param_array small_world "b2" = Ok (vec [0; 0]).
Proof.
  destruct (construction_leaves_well_formed (RN := toy_random)
              (InputDim 1 4 4) (ConvParam 1 1 0 1) 2 2 (7 : Z) (11 : Z) small_world
              small_world_init) as (Hw & Hd & _ & _ & Hb2 & _).
  split; [exact small_world_init | split; [exact Hw | split; [exact Hd |]]].
  rewrite Hb2. reflexivity.
Defined.

Lemma predict_is_network_function_witness :
  well_formed (ConvParam 1 1 0 1) small_world
  /\ exists θ : parameters,
       read_parameters small_world = Ok θ
       /\ forall x t : ndarray,
            fst (predict x small_world) = network_function (ConvParam 1 1 0 1) θ x
            /\ fst (loss x t small_world)
               = (y ← network_function (ConvParam 1 1 0 1) θ x;
                  fst <$> softmax_loss_forward y t).
Proof.
  split; [exact small_world_well_formed |].
  exact (predict_is_network_function (ConvParam 1 1 0 1) small_world
           small_world_well_formed).
Defined.


Lemma accuracy_without_chunks_witness :
  -1 <= 0
  /\ accuracy (Arr (items_of x3)) t3 (-1) small_world
     = (_ ← label_vector t3;
        if -1 =? 0 then Raise ZeroDivisionError
        else py_float_div 0 (Z.of_nat (length (items_of x3))),
        small_world).
Proof.
  assert (-1 <= 0) as Hb by lia.
  split; [exact Hb |].
  exact (accuracy_without_chunks (items_of x3) t3 (-1) small_world Hb).
Defined.

Lemma accuracy_of_one_hot_labels_witness :
  Forall (fun k => 0 <= k < Z.of_nat 2) [1; 0; 1]
  /\ one_hot_labels 2 [1; 0; 1] = t3_one_hot
  /\ accuracy x3 (one_hot_labels 2 [1; 0; 1]) 2 small_world
     = accuracy x3 (int_array [1; 0; 1]) 2 small_world.
Proof.
  assert (Forall (fun k => 0 <= k < Z.of_nat 2) [1; 0; 1]) as Hl
    by (repeat (apply Forall_cons_2 || apply Forall_nil_2); lia).
  split; [exact Hl | split; [reflexivity |]].
  exact (accuracy_of_one_hot_labels eq_refl eq_refl eq_refl 2 [1; 0; 1] x3 2
           small_world Hl).
Defined.

Lemma partial_file_unshared : NoDup (identities partial_file).
Proof.
  refine (bool_decide_unpack (NoDup (identities partial_file)) _).
  vm_compute. exact I.
Qed.

Lemma load_params_keeps_well_formed_witness :
  well_formed (ConvParam 1 1 0 1) small_world
  /\ NoDup (map fst partial_file)
  /\ NoDup (identities partial_file)
  /\ fst (load_pickled partial_file small_world) = Ok tt
  /\ well_formed (ConvParam 1 1 0 1) (snd (load_pickled partial_file small_world))
  /\ param_array (snd (load_pickled partial_file small_world)) "W1"
     = Ok (vec [11])
  /\ param_array (snd (load_pickled partial_file small_world)) "W2"
     = param_array small_world "W2".
Proof.
  destruct (load_params_keeps_well_formed (ConvParam 1 1 0 1) partial_file
              small_world small_world_well_formed partial_file_NoDup)
    as (Hok & Hun & _ & Hout & _).
  destruct (Hun partial_file_unshared) as [Hw Hin].
  split; [exact small_world_well_formed | split; [exact partial_file_NoDup |]].
  split; [exact partial_file_unshared |].
  split; [exact Hok | split; [exact Hw | split]].
  - apply (Hin "W1"%string 0%nat). unfold partial_file. apply list_elem_of_here.
  - apply Hout.
    refine (bool_decide_unpack ("W2"%string ∉ map fst partial_file) _).
    vm_compute. exact I.
Defined.

(** A file that holds one array under b2 and b3 leaves one array object
    under both keys. *)
Lemma shared_file_is_shared :
  NoDup (map fst shared_file)
  /\ fst (load_pickled shared_file small_world) = Ok tt
  /\ params (snd (load_pickled shared_file small_world)) !! "b2"%string
     = params (snd (load_pickled shared_file small_world)) !! "b3"%string
  /\ is_Some (params (snd (load_pickled shared_file small_world)) !! "b2"%string).
Proof.
  split; [| split; [| split]].
  - refine (bool_decide_unpack (NoDup (map fst shared_file)) _).
    vm_compute. exact I.
  - vm_compute. reflexivity.
  - vm_compute. reflexivity.
  - vm_compute. eauto.
Qed.

Lemma save_then_load_gives_same_predictions_witness :
  well_formed (ConvParam 1 1 0 1) (snd (load_params small_file small_world))
  /\ well_formed (ConvParam 1 1 0 1) small_world
  /\ exists file,
       save_params (snd (load_params small_file small_world))
       = (Ok file, snd (load_params small_file small_world))
       /\ fst (load_params file small_world) = Ok tt
       /\ read_parameters (snd (load_params file small_world))
          = read_parameters (snd (load_params small_file small_world))
       /\ forall x,
            fst (predict x (snd (load_params file small_world)))
            = fst (predict x (snd (load_params small_file small_world))).
Proof.
  split; [exact loaded_small_world_well_formed |].
  split; [exact small_world_well_formed |].
  destruct (save_then_load_gives_same_predictions (ConvParam 1 1 0 1)
              (snd (load_params small_file small_world)) small_world
              loaded_small_world_well_formed small_world_well_formed)
    as (file & Hsave & Hok & _ & _ & Hread & Hpred).
  exists file. split; [exact Hsave | split; [exact Hok | split; [exact Hread |]]].
  exact Hpred.
Defined.

Lemma methods_keep_the_network_function_witness :
  well_formed (ConvParam 1 1 0 1) small_world
  /\ exists θ : parameters,
       read_parameters small_world = Ok θ
       /\ Forall (fun w' => well_formed (ConvParam 1 1 0 1) w'
                            /\ read_parameters w' = Ok θ
                            /\ forall x',
                                 fst (predict x' w')
                                 = network_function (ConvParam 1 1 0 1) θ x')
                 [ snd (predict x3 small_world); snd (loss x3 t3 small_world);
                   snd (accuracy x3 t3 2 small_world);
                   snd (gradient x3 t3 small_world) ].
Proof.
  split; [exact small_world_well_formed |].
  eexists. split; [vm_compute; reflexivity |].
  apply (methods_keep_the_network_function (ConvParam 1 1 0 1) small_world);
    [exact small_world_well_formed | vm_compute; reflexivity].
Defined.


Lemma small_training :
  training x4 t4 x3 t3 3 2 script_lr small_world (11 : Z) = Ok small_trained.
Proof. vm_compute. reflexivity. Qed.

Lemma small_iteration :
  train_iteration x4 t4 x3 t3 4 2 (inject_Z 2) 0 small_start = Ok small_step.
Proof. vm_compute. reflexivity. Qed.

Lemma training_keeps_well_formed_witness :
  well_formed (ConvParam 1 1 0 1) small_world
  /\ training x4 t4 x3 t3 3 2 script_lr small_world (11 : Z) = Ok small_trained
  /\ well_formed (ConvParam 1 1 0 1) (network small_trained)
  /\ same_objects small_world (network small_trained)
  /\ exists θ : parameters,
       read_parameters (network small_trained) = Ok θ
       /\ forall x, fst (predict x (network small_trained))
                    = network_function (ConvParam 1 1 0 1) θ x.
Proof.
  split; [exact small_world_well_formed | split; [exact small_training |]].
  exact (training_keeps_well_formed (DR := toy_driver)
           (ConvParam 1 1 0 1) x4 t4 x3 t3 3 2 script_lr
           small_world (11 : Z) small_trained small_world_well_formed
           small_training).
Defined.

Lemma training_schedule_witness :
  training x4 t4 x3 t3 3 2 script_lr small_world (11 : Z) = Ok small_trained
  /\ shape0 x4 = Ok 4
  /\ length (train_loss_list small_trained) = 3%nat
  /\ length (test_acc_list small_trained) = length (train_acc_list small_trained)
  /\ length (train_acc_list small_trained) = 2%nat.
Proof.
  destruct (training_schedule (DR := toy_driver)
              x4 t4 x3 t3 3 2 script_lr small_world (11 : Z)
              small_trained small_training)
    as (n & Hn & _ & Hl & Ht & Hk & _).
  assert (n = 4) as -> by (vm_compute in Hn; congruence).
  split; [exact small_training | split; [exact Hn | split; [exact Hl |]]].
  split; [exact Ht |].
  exact (Hk 2 eq_refl eq_refl eq_refl).
Defined.

Lemma train_iteration_installs_optimizer_values_witness :
  well_formed (ConvParam 1 1 0 1) (network small_start)
  /\ train_iteration x4 t4 x3 t3 4 2 (inject_Z 2) 0 small_start = Ok small_step
  /\ exists (vals : gmap string ndarray) (θ' : parameters),
       vals !! "b1"%string = Some (vec [1])
       /\ param_array (network small_step) "b1" = Ok (vec [1])
       /\ read_parameters (network small_step) = Ok θ'
       /\ train_loss_list small_step = [0].
Proof.
  split; [exact small_world_well_formed | split; [exact small_iteration |]].
  destruct (train_iteration_installs_optimizer_values (DR := toy_driver)
              (ConvParam 1 1 0 1)
              x4 t4 x3 t3 4 2 (inject_Z 2) 0 small_start small_step
              small_world_well_formed small_iteration)
    as (mask & x_batch & t_batch & grad & vals & l & θ'
        & _ & _ & _ & _ & Hstep & Hpar & Hlist & Hθ' & _).
  exists vals, θ'.
  assert (vals !! "b1"%string = Some (vec [1])) as Hv
    by (vm_compute in Hstep; injection Hstep as <-; vm_compute; reflexivity).
  split; [exact Hv |].
  split; [| split; [exact Hθ' | vm_compute; reflexivity]].
  rewrite (Hpar "b1"%string) by (vm_compute; eauto). by rewrite Hv.
Defined.
